(** * cpsmine: flood-protection threshold estimation from connection logs

    A shallow embedding of [cpsmine.py] and the properties its
    specification states about it.

    Conventions of the embedding:
    - Python [int] is [Z]; [None]-or-[str] is [option string] with [None]
      for Python's [None].
    - A [str] is a [string]: a sequence of code points below 256.  In
      that range the class [\d] of the regular expressions is the ten
      ASCII digits and the class [\s] is the code points 9 to 13, 28 to
      32, 133 and 160.
    - A [dict] is a [gmap]; a CSV row is a [gmap string (option string)].
    - A Python exception is a constructor of [exn]; a computation that may
      raise returns [res]; a computation that also prints returns [io],
      the printed lines paired with the result.
    - A Python [float] is an IEEE 754 binary64 number, carried as a
      [spec_float]: [/], [+] and [*] round to nearest, ties to even.
    - [datetime.strftime] is the one of the C library the interpreter is
      linked with (glibc): [%Y] is the year in decimal without padding,
      the other directives are two digits.
    - [statistics.mean] and [statistics.stdev] are those of CPython 3.11:
      exact rational arithmetic on the samples, rounded once at the
      end. *)

From Stdlib Require Import ZArith List String Ascii Lia Reals Lra SpecFloat.
From stdpp Require Import base option list strings gmap sorting.

Local Open Scope string_scope.
Local Open Scope Z_scope.

(** * The program *)

(** ** Exceptions and results *)

(** What [sys.exit] is called with. *)
Inductive exit_msg :=
| ErrLocated (fname : string) (line_num : nat) (detail : string)
    (* 'ERROR: file: {}, line: {}; {}' *)
| ErrTwoPoints
    (* 'ERROR: Need a least two data points to calculate standard deviation.' *)
| ErrOS (detail : string).
    (* the message of FileNotFoundError or PermissionError *)

Inductive exn :=
| SystemExit (msg : exit_msg)
| CsvError (detail : string)
| UnicodeDecodeError (detail : string)
| FileNotFoundError (detail : string)
| PermissionError (detail : string)
| ValueError
| TypeError
| KeyError (key : string)
| IndexError
| AttributeError
| ZeroDivisionError
| OverflowError
| StatisticsError.

Inductive res (A : Type) :=
| Ok (a : A)
| Raise (e : exn).
Arguments Ok {A} a.
Arguments Raise {A} e.

#[global] Instance res_ret : MRet res := @Ok.
#[global] Instance res_bind : MBind res := λ A B k r,
  match r with
  | Ok a => k a
  | Raise e => Raise e
  end.

(** ** Configuration ([cli_vars]) *)

Record cli_vars := {
  filename : string;
  highcps : Z;
  interval : Z;
  lowcps : Z;
  protocol : string;
  suppress : string;
  interface : option string;
  zone : option string
}.

(** Truthiness of a value that is [None] or a [str]. *)
Definition truthy (o : option string) : bool :=
  match o with
  | Some s => negb (String.eqb s "")
  | None => false
  end.

(** ** Row filter *)

Definition PROTO_LIST : list string := ["icmp"; "tcp"; "udp"].

Abbreviation row := (gmap string (option string)).

(** [row[key]]: a missing column raises [KeyError]. *)
Definition getitem (r : row) (key : string) : res (option string) :=
  match r !! key with
  | Some v => Ok v
  | None => Raise (KeyError key)
  end.

(** [v in PROTO_LIST] for a value that is [None] or a [str]. *)
Definition in_PROTO_LIST (v : option string) : bool :=
  match v with
  | Some s => bool_decide (s ∈ PROTO_LIST)
  | None => false
  end.

Definition skip_row (r : row) (interface : option string) (proto : string)
    (zone : option string) : res bool :=
  let IP_PROTO := "IP Protocol" in
  let '(row_key, target) :=
    if truthy interface then ("Inbound Interface", interface)
    else ("Source Zone", zone) in
  v ← getitem r row_key;
  if negb (bool_decide (v = target)) then Ok true
  else if String.eqb proto "all" then Ok false
  else
    other ← (if String.eqb proto "other"
              then p ← getitem r IP_PROTO; Ok (negb (in_PROTO_LIST p))
              else Ok false);
    if (other : bool) then Ok false
    else
      p ← getitem r IP_PROTO;
      if bool_decide (Some proto = p) then Ok false
      else Ok true.

(** ** Dates and times ([datetime], [timedelta])

    The parts of Python's [datetime] module the program uses, for naive
    timestamps. *)

Record datetime := {
  year : Z; month : Z; day : Z;
  hour : Z; minute : Z; second : Z;
  microsecond : Z
}.

Definition is_leap (y : Z) : bool :=
  (y mod 4 =? 0) && (negb (y mod 100 =? 0) || (y mod 400 =? 0)).

Definition days_in_month (y m : Z) : Z :=
  if (m =? 2) && is_leap y then 29
  else nth (Z.to_nat m) [-1; 31; 28; 31; 30; 31; 30; 31; 31; 30; 31; 30; 31] (-1).

Definition days_before_year (y : Z) : Z :=
  let y := y - 1 in
  y * 365 + y / 4 - y / 100 + y / 400.

Definition days_before_month (y m : Z) : Z :=
  nth (Z.to_nat m) [-1; 0; 31; 59; 90; 120; 151; 181; 212; 243; 273; 304; 334] (-1)
  + (if (2 <? m) && is_leap y then 1 else 0).

(** The checks of the [datetime] constructor. *)
Definition datetime_ok (t : datetime) : bool :=
  (1 <=? year t) && (year t <=? 9999)
  && (1 <=? month t) && (month t <=? 12)
  && (1 <=? day t) && (day t <=? days_in_month (year t) (month t))
  && (0 <=? hour t) && (hour t <=? 23)
  && (0 <=? minute t) && (minute t <=? 59)
  && (0 <=? second t) && (second t <=? 59)
  && (0 <=? microsecond t) && (microsecond t <=? 999999).

Definition datetime_new (y m d H M S us : Z) : res datetime :=
  let t := {| year := y; month := m; day := d;
              hour := H; minute := M; second := S; microsecond := us |} in
  if datetime_ok t then Ok t else Raise ValueError.

Definition toordinal (t : datetime) : Z :=
  days_before_year (year t) + days_before_month (year t) (month t) + day t.

(** A [timedelta] is kept normalised: [0 <= seconds < 86400] and
    [0 <= microseconds < 1000000]. *)
Record timedelta := {
  days : Z; seconds : Z; microseconds : Z
}.

Definition to_microseconds (d : timedelta) : Z :=
  (days d * 86400 + seconds d) * 1000000 + microseconds d.

(** [timedelta(days, seconds, microseconds)] on integers. *)
Definition timedelta_new (d s us : Z) : res timedelta :=
  let s := s + us / 1000000 in
  let us := us mod 1000000 in
  let d := d + s / 86400 in
  let s := s mod 86400 in
  if (Z.abs d >? 999999999) then Raise OverflowError
  else Ok {| days := d; seconds := s; microseconds := us |}.

(** [a - b] on two naive datetimes. *)
Definition datetime_sub (a b : datetime) : res timedelta :=
  let secs1 := second a + minute a * 60 + hour a * 3600 in
  let secs2 := second b + minute b * 60 + hour b * 3600 in
  timedelta_new (toordinal a - toordinal b) (secs1 - secs2)
                (microsecond a - microsecond b).

(** Division rounding half to even, as [timedelta] division uses it. *)
Definition divide_and_round (a b : Z) : Z :=
  let q := a / b in
  let r := 2 * (a mod b) in
  let greater_than_half := if 0 <? b then b <? r else r <? b in
  if greater_than_half || ((r =? b) && (q mod 2 =? 1)) then q + 1 else q.

(** [d / n] for an integer [n]. *)
Definition timedelta_truediv (d : timedelta) (n : Z) : res timedelta :=
  if n =? 0 then Raise ZeroDivisionError
  else timedelta_new 0 0 (divide_and_round (to_microseconds d) n).

(** [a <= b]: the states [(days, seconds, microseconds)] compared as
    tuples. *)
Definition timedelta_le (a b : timedelta) : bool :=
  if days a <? days b then true
  else if days b <? days a then false
  else if seconds a <? seconds b then true
  else if seconds b <? seconds a then false
  else microseconds a <=? microseconds b.

(** ** Formatting and parsing timestamps ([strftime], [strptime])

    Modelled for format strings made of the directives [%Y %m %d %H %M %S],
    white space and punctuation, over ASCII text. *)

Definition FMT := "%Y/%m/%d %H:%M:%S".
Definition COMPRESS_FMT := "%Y%m%d%H%M%S".

Inductive directive := DY | Dm | Dd | DH | DM | DS.

Inductive fmt_item :=
| FDir (d : directive)
| FSpace
| FLit (c : ascii).

Definition directive_of (c : ascii) : option directive :=
  if Ascii.eqb c "Y" then Some DY
  else if Ascii.eqb c "m" then Some Dm
  else if Ascii.eqb c "d" then Some Dd
  else if Ascii.eqb c "H" then Some DH
  else if Ascii.eqb c "M" then Some DM
  else if Ascii.eqb c "S" then Some DS
  else None.

Definition code (c : ascii) : Z := Z.of_N (N_of_ascii c).

(** The class [\s]: what [str.isspace] accepts. *)
Definition is_space (c : ascii) : bool :=
  ((9 <=? code c) && (code c <=? 13)) || ((28 <=? code c) && (code c <=? 32))
  || (code c =? 133) || (code c =? 160).

Definition in_range (lo hi : ascii) (c : ascii) : bool :=
  (code lo <=? code c) && (code c <=? code hi).

Definition is_digit : ascii → bool := in_range "0" "9".

(** The items of a format string; a run of white space is one item. *)
Fixpoint parse_format (f : list ascii) : option (list fmt_item) :=
  match f with
  | [] => Some []
  | c :: f' =>
    if Ascii.eqb c "%" then
      match f' with
      | [] => None
      | x :: f'' =>
        d ← directive_of x;
        items ← parse_format f'';
        Some (FDir d :: items)
      end
    else
      items ← parse_format f';
      if is_space c then
        match items with
        | FSpace :: _ => Some items
        | _ => Some (FSpace :: items)
        end
      else Some (FLit c :: items)
  end.

(** The regular expression of a directive: alternatives tried in order,
    each a sequence of one-character classes. *)
Definition is_char (c : ascii) : ascii → bool := Ascii.eqb c.

Definition alternatives (d : directive) : list (list (ascii → bool)) :=
  match d with
  | DY => [[is_digit; is_digit; is_digit; is_digit]]
  | Dm => [[is_char "1"; in_range "0" "2"];
           [is_char "0"; in_range "1" "9"];
           [in_range "1" "9"]]
  | Dd => [[is_char "3"; in_range "0" "1"];
           [in_range "1" "2"; is_digit];
           [is_char "0"; in_range "1" "9"];
           [in_range "1" "9"];
           [is_char " "; in_range "1" "9"]]
  | DH => [[is_char "2"; in_range "0" "3"];
           [in_range "0" "1"; is_digit];
           [is_digit]]
  | DM => [[in_range "0" "5"; is_digit];
           [is_digit]]
  | DS => [[is_char "6"; in_range "0" "1"];
           [in_range "0" "5"; is_digit];
           [is_digit]]
  end.

(** One alternative against the head of the text: the matched text and
    the rest. *)
Fixpoint match_alt (alt : list (ascii → bool)) (s : list ascii)
    : option (list ascii * list ascii) :=
  match alt with
  | [] => Some ([], s)
  | cls :: alt' =>
    match s with
    | [] => None
    | c :: s' =>
      if cls c then
        '(m, rest) ← match_alt alt' s';
        Some (c :: m, rest)
      else None
    end
  end.

(** [int(text)] on a run of digits, leading white space ignored. *)
Definition int_of_text (text : list ascii) : Z :=
  fold_left (fun acc c => if is_digit c then 10 * acc + (code c - 48) else acc)
            text 0.

Definition match_directive (d : directive) (s : list ascii)
    : list (Z * list ascii) :=
  omap (fun alt => '(m, rest) ← match_alt alt s; Some (int_of_text m, rest))
       (alternatives d).

(** [\s+]: the longest run of white space first, then shorter ones. *)
Fixpoint match_spaces (s : list ascii) : list (list ascii) :=
  match s with
  | c :: s' => if is_space c then match_spaces s' ++ [s'] else []
  | [] => []
  end.

(** All the ways the items match a prefix of the text, in the order a
    backtracking matcher finds them: the directive values found and the
    text left over. *)
Fixpoint match_items (items : list fmt_item) (found : list (directive * Z))
    (s : list ascii) : list (list (directive * Z) * list ascii) :=
  match items with
  | [] => [(found, s)]
  | FDir d :: items' =>
    '(v, rest) ← match_directive d s;
    match_items items' ((d, v) :: found) rest
  | FSpace :: items' =>
    rest ← match_spaces s;
    match_items items' found rest
  | FLit c :: items' =>
    match s with
    | c' :: rest => if Ascii.eqb c c' then match_items items' found rest else []
    | [] => []
    end
  end.

Definition directive_eqb (a b : directive) : bool :=
  match a, b with
  | DY, DY | Dm, Dm | Dd, Dd | DH, DH | DM, DM | DS, DS => true
  | _, _ => false
  end.

Definition found_or (d : directive) (default : Z)
    (found : list (directive * Z)) : Z :=
  match find (fun dv => directive_eqb (fst dv) d) found with
  | Some (_, v) => v
  | None => default
  end.

(** [datetime.strptime(data_string, format)]: the first match of the
    format's expression at the start of the text; text left over, no
    match, or a field out of range raise [ValueError]. *)
Definition strptime (data_string format : string) : res datetime :=
  match parse_format (list_ascii_of_string format) with
  | None => Raise ValueError
  | Some items =>
    match match_items items [] (list_ascii_of_string data_string) with
    | [] => Raise ValueError
    | (found, rest) :: _ =>
      match rest with
      | _ :: _ => Raise ValueError
      | [] =>
        datetime_new (found_or DY 1900 found) (found_or Dm 1 found)
                     (found_or Dd 1 found) (found_or DH 0 found)
                     (found_or DM 0 found) (found_or DS 0 found) 0
      end
    end
  end.

Definition digit_char (n : Z) : ascii := ascii_of_N (Z.to_N (48 + n mod 10)).

Definition zero_pad2 (n : Z) : list ascii :=
  [digit_char (n / 10); digit_char n].

Definition zero_pad4 (n : Z) : list ascii :=
  [digit_char (n / 1000); digit_char (n / 100); digit_char (n / 10);
   digit_char n].

(** [n] in decimal, without padding: what [%d] of the C library prints
    for a number that is not negative. *)
Fixpoint decimal_digits (fuel : nat) (n : Z) : list ascii :=
  match fuel with
  | O => []
  | S fuel' =>
    if n <? 10 then [digit_char n]
    else decimal_digits fuel' (n / 10) ++ [digit_char n]
  end.

Definition decimal (n : Z) : list ascii :=
  decimal_digits (S (Z.to_nat (Z.log2 n))) n.

Definition render (d : directive) (t : datetime) : list ascii :=
  match d with
  | DY => decimal (year t)
  | Dm => zero_pad2 (month t)
  | Dd => zero_pad2 (day t)
  | DH => zero_pad2 (hour t)
  | DM => zero_pad2 (minute t)
  | DS => zero_pad2 (second t)
  end.

Fixpoint strftime_chars (t : datetime) (f : list ascii) : list ascii :=
  match f with
  | [] => []
  | c :: f' =>
    if Ascii.eqb c "%" then
      match f' with
      | x :: f'' =>
        match directive_of x with
        | Some d => render d t ++ strftime_chars t f''
        | None => c :: x :: strftime_chars t f''
        end
      | [] => [c]
      end
    else c :: strftime_chars t f'
  end.

(** [t.strftime(format)]: the year as it is, without padding, two digits
    for the others. *)
Definition strftime (t : datetime) (format : string) : string :=
  string_of_list_ascii (strftime_chars t (list_ascii_of_string format)).

Definition t_example : datetime :=
  {| year := 2024; month := 1; day := 1;
     hour := 0; minute := 0; second := 1; microsecond := 0 |}.

(** ** Floating point

    A Python [float] is an IEEE 754 binary64 number. *)

Abbreviation float := spec_float.

(** [a / b] on two integers: the quotient correctly rounded to the
    nearest binary64 number, ties to even. *)
Definition int_truediv (a b : Z) : res float :=
  if b =? 0 then Raise ZeroDivisionError
  else
    match a with
    | 0 => Ok (S754_zero (b <? 0))
    | _ =>
      match SFdiv 53 1024 (S754_finite (a <? 0) (Z.to_pos (Z.abs a)) 0)
                          (S754_finite (b <? 0) (Z.to_pos (Z.abs b)) 0) with
      | S754_infinity _ => Raise OverflowError
      | q => Ok q
      end
    end.

(** [float(n)] for an integer. *)
Definition float_of_int (n : Z) : float := binary_normalize 53 1024 n 0 false.

(** A float against an integer: Python compares the exact values. *)
Definition float_compare_int (x : float) (n : Z) : option comparison :=
  match x with
  | S754_zero _ => Some (0 ?= n)
  | S754_finite s m e =>
    let m := if s then Z.neg m else Z.pos m in
    Some (if 0 <=? e then m * 2 ^ e ?= n else m ?= n * 2 ^ (- e))
  | S754_infinity s => Some (if s then Lt else Gt)
  | S754_nan => None
  end.

Definition float_gt_int (x : float) (n : Z) : bool :=
  match float_compare_int x n with Some Gt => true | _ => false end.

Definition float_lt_int (x : float) (n : Z) : bool :=
  match float_compare_int x n with Some Lt => true | _ => false end.

(** The real number a finite float stands for. *)
Definition float_to_R (x : float) : R :=
  match x with
  | S754_finite s m e =>
    let m := if s then Z.neg m else Z.pos m in
    if 0 <=? e then (IZR m * IZR (2 ^ e))%R else (IZR m / IZR (2 ^ (- e)))%R
  | _ => 0%R
  end.

(** ** Printed output *)

Inductive line :=
| LProgress (highlight : string) (ts : datetime) (cps : float)
    (* '{highlight}{ts} cps is {cps}' *)
| LStatsFor (header proto : string)
    (* 'CPS Stats for {header} and protocol={proto}' *)
| LMax (header : string) (v : float)
    (* 'Max cps for {header} is= {v:.0f}' *)
| LAvg (header : string) (v : float)
    (* 'Avg cps for {header} is= {v:.3f}' *)
| LStdev (header : string) (v : float)
    (* 'Standard Deviation for {header} is= {v:.3f}' *)
| LSuggested
    (* '********** Suggested Threshold Values **********' *)
| LAlert (v : float)
    (* 'Alert Threshold = {v:.3f}' *)
| LActivate (v : float)
    (* 'Activate Threshold = {v:.3f}' *)
| LMaxThreshold (v : float).
    (* 'Max Threshold = {v:.3f}' *)

(** A computation that prints and may raise: the lines printed, in
    order, and the result. *)
Record io (A : Type) := IO { printed : list line; result : res A }.
Arguments IO {A} printed result.
Arguments printed {A} i.
Arguments result {A} i.

#[global] Instance io_ret : MRet io := λ A a, IO [] (Ok a).
#[global] Instance io_bind : MBind io := λ A B k m,
  match result m with
  | Ok a => IO (printed m ++ printed (k a)) (result (k a))
  | Raise e => IO (printed m) (Raise e)
  end.

Definition print (l : line) : io () := IO [l] (Ok ()).
Definition lift {A} (r : res A) : io A := IO [] r.
Definition sys_exit {A} (msg : exit_msg) : io A := IO [] (Raise (SystemExit msg)).

Fixpoint for_each {S A} (body : S → A → io S) (st : S) (l : list A) : io S :=
  match l with
  | [] => mret st
  | x :: l' => st' ← body st x; for_each body st' l'
  end.

(** ** Interval aggregator, stage B: from the count table to the samples *)

Definition evaluate_row (cpslist : list float) (count : Z)
    (ts : option datetime) (cv : cli_vars) : io (list float) :=
  match ts with
  | None => mret cpslist
  | Some ts =>
    let highcps := highcps cv in
    let interval := interval cv in
    let lowcps := lowcps cv in
    let suppress := String.eqb (suppress cv) "true" in
    cps ← lift (int_truediv count interval);
    let '(cpslist, highlight) :=
      if (1 <? count)
         && (float_gt_int cps lowcps && float_lt_int cps highcps)
      then ((cpslist ++ [cps])%list, "** ")
      else (cpslist, "") in
    _ ← (if negb suppress then print (LProgress highlight ts cps) else mret ());
    mret cpslist
  end.

(** [cpsdict[key]]. *)
Definition dict_getitem (cpsdict : gmap string Z) (key : string) : res Z :=
  match cpsdict !! key with
  | Some v => Ok v
  | None => Raise (KeyError key)
  end.

(** [sorted(cpsdict)]: the keys in increasing order of their text. *)
Definition sorted (cpsdict : gmap string Z) : list string :=
  merge_sort String.le (map fst (map_to_list cpsdict)).

(** The variables the loop of [evaluate_cpsdict] updates. *)
Record loop_state := {
  previous_key : string;
  previous_ts : datetime;
  count : Z;
  cpslist : list float
}.

(** One turn of the loop over [sorted_keys[1:]]. *)
Definition loop_body (cpsdict : gmap string Z) (cv : cli_vars)
    (interval_td : timedelta) (st : loop_state) (key : string)
    : io loop_state :=
  ts ← lift (strptime key COMPRESS_FMT);
  delta ← lift (datetime_sub ts (previous_ts st));
  half ← lift (timedelta_truediv interval_td 2);
  if timedelta_le delta half then
    mret {| previous_key := previous_key st; previous_ts := previous_ts st;
            count := count st + 1; cpslist := cpslist st |}
  else
    cpslist' ← evaluate_row (cpslist st) (count st) (Some (previous_ts st)) cv;
    count' ← lift (dict_getitem cpsdict key);
    mret {| previous_key := key; previous_ts := ts;
            count := count'; cpslist := cpslist' |}.

(** The result is [None] for an empty table, a list otherwise. *)
Definition evaluate_cpsdict (cpsdict : gmap string Z) (cv : cli_vars)
    : io (option (list float)) :=
  if bool_decide (cpsdict = ∅) then mret None
  else
    interval_td ← lift (timedelta_new 0 (interval cv) 0);
    match sorted cpsdict with
    | [] => lift (Raise IndexError)
    | first_key :: keys =>
      first_ts ← lift (strptime first_key COMPRESS_FMT);
      first_count ← lift (dict_getitem cpsdict first_key);
      st ← for_each (loop_body cpsdict cv interval_td)
             {| previous_key := first_key; previous_ts := first_ts;
                count := first_count; cpslist := [] |} keys;
      cpslist ← evaluate_row (cpslist st) (count st) (Some (previous_ts st)) cv;
      mret (Some cpslist)
    end.

Definition cv_example (interval lowcps : Z) : cli_vars :=
  {| filename := "log.csv"; highcps := 10000; interval := interval;
     lowcps := lowcps; protocol := "all"; suppress := "true";
     interface := Some "eth0"; zone := None |}.

Definition counts_example : gmap string Z :=
  {[ "20240101000000" := 1; "20240101000001" := 1 ]}.

(** ** Interval aggregator, stage A: from the rows to the count table *)

(** What the CSV reader does at each step of the iteration: it yields a
    row, or raises [csv.Error] or [UnicodeDecodeError]; [line_num] is the
    reader's line counter after the step. *)
Inductive reader_item :=
| RowAt (line_num : nat) (r : row)
| CsvErrorAt (line_num : nat) (detail : string)
| DecodeErrorAt (line_num : nat) (detail : string).

Definition START_TIME := "Start Time".

(** Whether [cpsdict.get(key)] is true: the key is present and its value
    is not zero. *)
Definition get_truthy (cpsdict : gmap string Z) (key : string) : bool :=
  match cpsdict !! key with
  | Some c => negb (c =? 0)
  | None => false
  end.

(** The body of the loop over the rows. *)
Definition count_row (cv : cli_vars) (cpsdict : gmap string Z) (r : row)
    : res (gmap string Z) :=
  skip ← skip_row r (interface cv) (protocol cv) (zone cv);
  if (skip : bool) then Ok cpsdict
  else
    v ← getitem r START_TIME;
    t1 ← match v with
         | Some s => strptime s FMT
         | None => Raise TypeError
         end;
    let compress_t1 := strftime t1 COMPRESS_FMT in
    if get_truthy cpsdict compress_t1 then
      c ← dict_getitem cpsdict compress_t1;
      Ok (<[compress_t1 := c + 1]> cpsdict)
    else Ok (<[compress_t1 := 1]> cpsdict).

(** The loop over the rows; the first component is the reader's line
    counter when the loop ends or is left by an exception. *)
Fixpoint read_rows (cv : cli_vars) (cpsdict : gmap string Z) (line_num : nat)
    (reader : list reader_item) : nat * res (gmap string Z) :=
  match reader with
  | [] => (line_num, Ok cpsdict)
  | RowAt n r :: reader' =>
    match count_row cv cpsdict r with
    | Ok cpsdict' => read_rows cv cpsdict' n reader'
    | Raise e => (n, Raise e)
    end
  | CsvErrorAt n detail :: _ => (n, Raise (CsvError detail))
  | DecodeErrorAt n detail :: _ => (n, Raise (UnicodeDecodeError detail))
  end.

(** Only [csv.Error] is handled here. *)
Definition process_csvfile (reader : list reader_item) (cv : cli_vars)
    : nat * res (gmap string Z) :=
  let fname := filename cv in
  match read_rows cv ∅ 0 reader with
  | (line_num, Raise (CsvError detail)) =>
    (line_num, Raise (SystemExit (ErrLocated fname line_num detail)))
  | outcome => outcome
  end.

(** ** Statistics engine

    [statistics.mean] and [statistics.stdev] on a list of floats, and
    [max]. *)

(** A [fractions.Fraction]: always in lowest terms, the denominator
    positive.  The operations are given by the fraction they build; the
    lowest terms make the representation of a value unique. *)
Record Fraction := { numerator : Z; denominator : Z }.

(** [Fraction(n, d)] for [d] other than 0. *)
Definition Fraction_new (n d : Z) : Fraction :=
  let g := Z.gcd n d in
  let g := if d <? 0 then - g else g in
  {| numerator := n / g; denominator := d / g |}.

Definition Fraction_of_int (n : Z) : Fraction :=
  {| numerator := n; denominator := 1 |}.

Definition Fraction_add (a b : Fraction) : Fraction :=
  Fraction_new (numerator a * denominator b + numerator b * denominator a)
               (denominator a * denominator b).

Definition Fraction_sub (a b : Fraction) : Fraction :=
  Fraction_new (numerator a * denominator b - numerator b * denominator a)
               (denominator a * denominator b).

Definition Fraction_mul (a b : Fraction) : Fraction :=
  Fraction_new (numerator a * numerator b) (denominator a * denominator b).

(** [a / n] for an integer [n] other than 0. *)
Definition Fraction_div_int (a : Fraction) (n : Z) : Fraction :=
  Fraction_new (numerator a) (denominator a * n).

(** [x.as_integer_ratio()]: [None] stands for the [OverflowError] of an
    infinity and the [ValueError] of a NaN, which [_exact_ratio]
    catches. *)
Definition as_integer_ratio (x : float) : option Fraction :=
  match x with
  | S754_zero _ => Some (Fraction_of_int 0)
  | S754_finite s m e =>
    let m := if s then Z.neg m else Z.pos m in
    Some (if 0 <=? e then Fraction_of_int (m * 2 ^ e)
          else Fraction_new m (2 ^ (- e)))
  | S754_infinity _ | S754_nan => None
  end.

Definition fadd : float → float → float := SFadd 53 1024.
Definition fmul : float → float → float := SFmul 53 1024.
Definition fdiv : float → float → float := SFdiv 53 1024.

(** What the partial sums of [_sum] and [_ss] add up to: the exact sum
    of the ratios when every value has one, otherwise the float sum of
    the values that have none (an infinity or a NaN). *)
Inductive total :=
| Exact (f : Fraction)
| Special (x : float).

Definition is_special (x : float) : bool :=
  match as_integer_ratio x with
  | None => true
  | Some _ => false
  end.

Definition sum_of (term : Fraction → Fraction) (data : list float) : total :=
  match List.filter is_special data with
  | x :: specials => Special (fold_left fadd specials x)
  | [] =>
    Exact (fold_left
             (fun acc x =>
                match as_integer_ratio x with
                | Some r => Fraction_add acc (term r)
                | None => acc
                end)
             data (Fraction_of_int 0))
  end.

(** [float(f)] for a fraction: its numerator over its denominator. *)
Definition float_of_Fraction (f : Fraction) : res float :=
  int_truediv (numerator f) (denominator f).

Definition statistics_mean (data : list float) : res float :=
  let n := Z.of_nat (length data) in
  if n <? 1 then Raise StatisticsError
  else
    match sum_of (fun r => r) data with
    | Exact total => float_of_Fraction (Fraction_div_int total n)
    | Special total => Ok (fdiv total (float_of_int n))
    end.

Definition bit_length (n : Z) : Z :=
  if n =? 0 then 0 else Z.log2 (Z.abs n) + 1.

(** The square root of [n/m] rounded to an integer, to odd. *)
Definition integer_sqrt_of_frac_rto (n m : Z) : Z :=
  let a := Z.sqrt (n / m) in
  Z.lor a (if a * a * m =? n then 0 else 1).

Definition sqrt_bit_width : Z := 2 * 53 + 3.

(** The square root of [n/m] as a float. *)
Definition float_sqrt_of_frac (n m : Z) : res float :=
  let q := (bit_length n - bit_length m - sqrt_bit_width) / 2 in
  if 0 <=? q then
    int_truediv
      (Z.shiftl (integer_sqrt_of_frac_rto n (Z.shiftl m (2 * q))) q) 1
  else
    int_truediv (integer_sqrt_of_frac_rto (Z.shiftl n (- 2 * q)) m)
                (Z.shiftl 1 (- q)).

(** [_ss] gives the sum of the squared deviations from the mean as
    [(count * sxx - sx * sx) / count]; [stdev] divides it by [n - 1]. *)
Definition statistics_stdev (data : list float) : res float :=
  let n := Z.of_nat (length data) in
  if n <? 2 then Raise StatisticsError
  else
    match sum_of (fun r => r) data, sum_of (fun r => Fraction_mul r r) data with
    | Exact sx, Exact sxx =>
      let ssd :=
        Fraction_div_int
          (Fraction_sub (Fraction_mul (Fraction_of_int n) sxx)
                        (Fraction_mul sx sx)) n in
      let mss := Fraction_div_int ssd (n - 1) in
      float_sqrt_of_frac (numerator mss) (denominator mss)
    | _, _ => Raise AttributeError
    end.

Definition float_gt (a b : float) : bool :=
  match SFcompare a b with
  | Some Gt => true
  | _ => false
  end.

(** [max(data)]: the first of the items that no later item exceeds. *)
Definition max_of (data : list float) : res float :=
  match data with
  | [] => Raise ValueError
  | x :: data' =>
    Ok (fold_left (fun cur item => if float_gt item cur then item else cur)
                  data' x)
  end.

(** The literal [1.1]. *)
Definition float_1_1 : float := S754_finite false 4953959590107546 (-52).

Definition print_thresholds (peak mean stdev : float) : io () :=
  _ ← print LSuggested;
  _ ← print (LAlert (fadd mean stdev));
  _ ← print (LActivate (fmul float_1_1 peak));
  print (LMaxThreshold (fmul (fmul float_1_1 float_1_1) peak)).

Definition print_stats (cpslist : list float) (header : string) : io () :=
  match cpslist with
  | [] => mret ()
  | [_] => sys_exit ErrTwoPoints
  | _ =>
    mean ← lift (statistics_mean cpslist);
    stdev ← lift (statistics_stdev cpslist);
    peak ← lift (max_of cpslist);
    _ ← print (LMax header peak);
    _ ← print (LAvg header mean);
    _ ← print (LStdev header stdev);
    peak ← lift (max_of cpslist);
    print_thresholds peak mean stdev
  end.

(** [str(v)] for a value that is [None] or a [str]. *)
Definition str (v : option string) : string :=
  match v with
  | Some s => s
  | None => "None"
  end.

(** The header names the zone when one is set, the interface otherwise. *)
Definition header_of (cv : cli_vars) : string :=
  if truthy (zone cv) then "zone=" ++ str (zone cv)
  else "interface=" ++ str (interface cv).

(** The argument is what [evaluate_cpsdict] returned: [None] or a list. *)
Definition print_results (cpslist : option (list float)) (cv : cli_vars)
    : io () :=
  match cpslist with
  | None | Some [] => mret ()
  | Some cpslist =>
    let header := header_of cv in
    _ ← print (LStatsFor header (protocol cv));
    print_stats cpslist header
  end.

(** ** The run *)

(** What opening the file gives. *)
Inductive source :=
| NotFound (detail : string)
| NotPermitted (detail : string)
| Opened (reader : list reader_item).

(** The handlers of [main]: [UnicodeDecodeError] is reported with the
    file name and the reader's line counter, [FileNotFoundError] and
    [PermissionError] with their own message; anything else is not
    handled. *)
Definition main (cv : cli_vars) (src : source) : io () :=
  let fname := filename cv in
  let '(line_num, body) :=
    match src with
    | NotFound detail => (0%nat, lift (Raise (FileNotFoundError detail)))
    | NotPermitted detail => (0%nat, lift (Raise (PermissionError detail)))
    | Opened reader =>
      let '(line_num, outcome) := process_csvfile reader cv in
      (line_num,
       cpsdict ← lift outcome;
       cpslist ← evaluate_cpsdict cpsdict cv;
       print_results cpslist cv)
    end in
  match result body with
  | Raise (UnicodeDecodeError detail) =>
    IO (printed body) (Raise (SystemExit (ErrLocated fname line_num detail)))
  | Raise (FileNotFoundError detail) | Raise (PermissionError detail) =>
    IO (printed body) (Raise (SystemExit (ErrOS detail)))
  | _ => body
  end.

Definition row_example (start_time : string) : row :=
  {[ "Start Time" := Some start_time;
     "Inbound Interface" := Some "eth0";
     "Source Zone" := Some "lan";
     "IP Protocol" := Some "tcp" ]}.
(** * Vocabulary of the properties *)

(** ** Criteria of the row filter *)

(** A criteria selects a field of the row and a target value: the
    Inbound Interface when an interface is given, the Source Zone when a
    zone is given; exactly one of the two is given and the other is
    absent.  An interface given as the empty string is left out: the
    test [if interface:] takes it for an absent one.  A zone may be the
    empty string. *)
Inductive selects : option string → option string → string → string → Prop :=
| selects_interface i :
    i ≠ "" → selects (Some i) None "Inbound Interface" i
| selects_zone z :
    selects None (Some z) "Source Zone" z.

(** ** Elapsed time *)

(** Microseconds from the start of the calendar to an instant, and from
    one instant to another. *)
Definition instant_us (t : datetime) : Z :=
  ((toordinal t * 86400 + hour t * 3600 + minute t * 60 + second t) * 1000000)
  + microsecond t.

Definition elapsed_us (from to : datetime) : Z := instant_us to - instant_us from.

Definition normalised (d : timedelta) : Prop :=
  0 <= seconds d < 86400 ∧ 0 <= microseconds d < 1000000.

(** ** Samples and bounds *)

(** A float that is a number: a zero or a finite non-zero value. *)
Inductive finite : float → Prop :=
| finite_zero s : finite (S754_zero s)
| finite_number s m e : finite (S754_finite s m e).

(** [lowcps < cps < highcps] on the values, both inequalities strict. *)
Definition in_bounds (cv : cli_vars) (cps : float) : Prop :=
  (IZR (lowcps cv) < float_to_R cps < IZR (highcps cv))%R.

(** The sample sequence a value returned by [evaluate_cpsdict] holds:
    [None] holds no sample. *)
Definition samples_of (returned : option (list float)) : list float :=
  match returned with
  | Some cpslist => cpslist
  | None => []
  end.

(** ** Rows and their keys *)

(** The key a row is counted under: [None] for a row the filter skips,
    the compressed form of its start time for a row that survives. *)
Definition key_of_row (cv : cli_vars) (r : row) : res (option string) :=
  skip ← skip_row r (interface cv) (protocol cv) (zone cv);
  if (skip : bool) then Ok None
  else
    v ← getitem r START_TIME;
    t1 ← match v with
         | Some s => strptime s FMT
         | None => Raise TypeError
         end;
    Ok (Some (strftime t1 COMPRESS_FMT)).

Definition counted_under (cv : cli_vars) (key : string) (item : reader_item)
    : bool :=
  match item with
  | RowAt _ r =>
    match key_of_row cv r with
    | Ok (Some k) => String.eqb k key
    | _ => false
    end
  | _ => false
  end.

(** The number of surviving rows whose truncated timestamp is [key]. *)
Fixpoint occurrences (cv : cli_vars) (key : string)
    (reader : list reader_item) : Z :=
  match reader with
  | [] => 0
  | item :: reader' =>
    (if counted_under cv key item then 1 else 0) + occurrences cv key reader'
  end.

(** A step of the reader that yields a row the loop body accepts: the
    row is skipped, or its start time parses. *)
Definition readable (cv : cli_vars) (item : reader_item) : Prop :=
  ∃ n r ko, item = RowAt n r ∧ key_of_row cv r = Ok ko.

(** A table whose values are all at least 1. *)
Definition positive_counts (cpsdict : gmap string Z) : Prop :=
  ∀ k v, cpsdict !! k = Some v → 1 <= v.

(** ** Statistics *)

(** [peak] is one of the samples and no sample is greater, by the
    comparison of floats. *)
Definition is_maximum (peak : float) (data : list float) : Prop :=
  In peak data ∧ ∀ x, In x data → float_gt x peak = false.

Definition Rsum (data : list R) : R := fold_right Rplus 0%R data.

(** The arithmetic mean of the samples as a real number, and their
    sample variance: the squared deviations from the mean, summed, over
    N - 1. *)
Definition exact_mean (data : list float) : R :=
  (Rsum (map float_to_R data) / INR (length data))%R.

Definition squared_deviations (c : R) (data : list R) : R :=
  Rsum (map (fun x => ((x - c) * (x - c))%R) data).

Definition exact_variance (data : list float) : R :=
  (squared_deviations (exact_mean data) (map float_to_R data)
   / (INR (length data) - 1))%R.

(** The rational number a fraction stands for, and what makes the
    fraction the only one that stands for it. *)
Definition Fraction_to_R (f : Fraction) : R :=
  (IZR (numerator f) / IZR (denominator f))%R.

Definition lowest_terms (f : Fraction) : Prop :=
  0 < denominator f ∧ Z.gcd (numerator f) (denominator f) = 1.

(** The floats 7.7 and 8.47: the nearest to 77/10 and to 847/100. *)
Definition float_7_7 : float := S754_finite false 8669429282688205 (-50).
Definition float_8_47 : float := S754_finite false 4768186105478513 (-49).

(** The floats 6.0, 1.4142135623730951, 7.414213562373095 and
    7.700000000000001, the float next above 7.7. *)
Definition six : float := S754_finite false 6755399441055744 (-50).
Definition sqrt_two : float := S754_finite false 6369051672525773 (-52).
Definition float_7_414 : float := S754_finite false 8347662359187187 (-50).
Definition above_7_7 : float := S754_finite false 8669429282688206 (-50).

(** ** Inputs the properties are shown at *)

(** The floats 2/3, 1.0, 5.0 and 7.0. *)
Definition two_thirds : float := S754_finite false 6004799503160661 (-53).
Definition one : float := S754_finite false 4503599627370496 (-52).
Definition five : float := S754_finite false 5629499534213120 (-50).
Definition seven : float := S754_finite false 7881299347898368 (-50).

(** Three rows of the interface eth0, two of them in the same second. *)
Definition reader_example : list reader_item :=
  [RowAt 2 (row_example "2024/01/01 00:00:00");
   RowAt 3 (row_example "2024/01/01 00:00:00");
   RowAt 4 (row_example "2024/01/01 00:00:01")].

Definition table_example : gmap string Z :=
  {[ "20240101000000" := 2; "20240101000001" := 1 ]}.

(** Midnight, and a table that holds 1 for it and 5 for the following
    second. *)
Definition t0_example : datetime :=
  {| year := 2024; month := 1; day := 1;
     hour := 0; minute := 0; second := 0; microsecond := 0 |}.

Definition table_five : gmap string Z :=
  {[ "20240101000000" := 1; "20240101000001" := 5 ]}.

(** The first second of the year 999. *)
Definition t_999 : datetime :=
  {| year := 999; month := 1; day := 1;
     hour := 0; minute := 0; second := 0; microsecond := 0 |}.

(** Two rows of the interface eth0, one second apart. *)
Definition reader_two : list reader_item :=
  [RowAt 2 (row_example "2024/01/01 00:00:00");
   RowAt 3 (row_example "2024/01/01 00:00:01")].

(** ** Further vocabulary *)

(** The columns [skip_row] may read. *)
Definition filter_columns : list string :=
  ["Inbound Interface"; "Source Zone"; "IP Protocol"].

(** A step of the reader that yields a row the filter skips. *)
Definition skipped (cv : cli_vars) (item : reader_item) : Prop :=
  ∃ n r, item = RowAt n r
         ∧ skip_row r (interface cv) (protocol cv) (zone cv) = Ok true.

(** A configuration for an interface no row of the examples has, with
    an interval of 0. *)
Definition cv_eth7 : cli_vars :=
  {| filename := "log.csv"; highcps := 10000; interval := 0;
     lowcps := 1; protocol := "all"; suppress := "false";
     interface := Some "eth7"; zone := None |}.

(** A key of fourteen digits YYYYMMDDHHMMSS: the compressed rendering of
    a valid timestamp at whole-second resolution whose year is 1000 or
    later. *)
Definition canonical_key (key : string) : Prop :=
  ∃ t, datetime_ok t = true ∧ microsecond t = 0 ∧ 1000 <= year t
       ∧ key = strftime t COMPRESS_FMT.

(** The cps a progress line reports with the highlight marker. *)
Definition highlighted (l : line) : option float :=
  match l with
  | LProgress h _ cps => if String.eqb h "** " then Some cps else None
  | _ => None
  end.

Definition is_progress (l : line) : Prop :=
  ∃ h ts cps, l = LProgress h ts cps.

(** An interval of 1 with bounds 0 and 10000 and the progress lines on. *)
Definition cv_loud : cli_vars :=
  {| filename := "log.csv"; highcps := 10000; interval := 1;
     lowcps := 0; protocol := "all"; suppress := "false";
     interface := Some "eth0"; zone := None |}.

(** The order of two timestamps by their fields, from the year down to
    the second. *)
Definition compare_fields (t1 t2 : datetime) : comparison :=
  match year t1 ?= year t2 with
  | Eq =>
    match month t1 ?= month t2 with
    | Eq =>
      match day t1 ?= day t2 with
      | Eq =>
        match hour t1 ?= hour t2 with
        | Eq =>
          match minute t1 ?= minute t2 with
          | Eq => second t1 ?= second t2
          | c => c
          end
        | c => c
        end
      | c => c
      end
    | c => c
    end
  | c => c
  end.

(** Each key evaluated as a bucket of its own, with the count the table
    holds for it. *)
Definition evaluate_each (cpsdict : gmap string Z) (cv : cli_vars)
    : list float → list string → io (list float) :=
  for_each (fun cpslist key =>
    ts ← lift (strptime key COMPRESS_FMT);
    count ← lift (dict_getitem cpsdict key);
    evaluate_row cpslist count (Some ts) cv).

(** The key [b] parses to an instant at least one second after the one
    of the key [a]. *)
Definition second_later (a b : string) : Prop :=
  ∃ ta tb, strptime a COMPRESS_FMT = Ok ta ∧ strptime b COMPRESS_FMT = Ok tb
           ∧ instant_us ta + 1000000 <= instant_us tb.

(** ** Buckets *)

(** The buckets as the specification describes them, written from its
    words.  The seconds of the table are taken in order, each with the
    time its key stands for and the count stored for it.  A second joins
    the current bucket iff the time from the anchor of the bucket to it
    is at most half the interval, [t - anchorTime <= interval / 2]
    exactly, here on microseconds and doubled; joining adds 1 to the
    running count, whatever the stored count; otherwise the bucket is
    closed and the next one starts at that second with the stored
    count. *)
Fixpoint spec_buckets (interval : Z) (anchorTime : datetime) (runningCount : Z)
    (rest : list (datetime * Z)) : list (datetime * Z) :=
  match rest with
  | [] => [(anchorTime, runningCount)]
  | (t, stored) :: rest' =>
    if bool_decide (2 * elapsed_us anchorTime t <= interval * 1000000)
    then spec_buckets interval anchorTime (runningCount + 1) rest'
    else (anchorTime, runningCount) :: spec_buckets interval t stored rest'
  end.

(** The buckets evaluated in order. *)
Definition evaluate_buckets (cv : cli_vars)
    : list float → list (datetime * Z) → io (list float) :=
  for_each (fun cpslist b => evaluate_row cpslist b.2 (Some b.1) cv).

(** The seconds of some keys of a table: the time each key parses to and
    the count the table holds for it. *)
Definition entries_of (cpsdict : gmap string Z)
    : list string → list (datetime * Z) → Prop :=
  Forall2 (fun key e => strptime key COMPRESS_FMT = Ok e.1
                        ∧ cpsdict !! key = Some e.2).
(** * Properties *)

(** ** Row filter *)

Lemma truthy_Some s : s ≠ "" → truthy (Some s) = true.
Proof.
  intros Hs. unfold truthy. by destruct (String.eqb_spec s "").
Qed.

Lemma in_PROTO_LIST_spec p :
  in_PROTO_LIST p = false ↔ ∀ known, known ∈ PROTO_LIST → p ≠ Some known.
Proof.
  destruct p as [s|]; simpl.
  - rewrite bool_decide_eq_false. split.
    + intros Hs known Hk [= ->]. contradiction.
    + intros Hall Hs. by apply (Hall s).
  - split; [discriminate | done].
Qed.

(** C4, as stated, fails — An interface given as the empty string is
    not taken as the target: the row is compared on its Source Zone with
    the absent zone, so a row whose Inbound Interface equals the given
    target is excluded under the selector "all", and a row without a
    Source Zone column raises. *)
Lemma empty_interface_not_selected :
  let r : row := {[ "Inbound Interface" := Some ""; "Source Zone" := Some "lan";
                    "IP Protocol" := Some "tcp" ]} in
  r !! "Inbound Interface" = Some (Some "")
  ∧ skip_row r (Some "") "all" None = Ok true
  ∧ skip_row {[ "Inbound Interface" := Some ""; "IP Protocol" := Some "tcp" ]}
      (Some "") "all" None = Raise (KeyError "Source Zone").
Proof. vm_compute. auto. Qed.

(** C4 — For every row and every criteria in which exactly one of
    interface and zone is given, a given interface not being the empty
    string: when the selected field (Inbound Interface for an interface
    criteria, Source Zone for a zone criteria) differs from the target,
    [skip_row] excludes the row for every protocol selector and without
    reading the row's protocol (the row may even lack that column); when
    it matches, the row is included iff the selector is "all", or it is
    "other" and the row's protocol is not one of icmp, tcp, udp, or the
    row's protocol equals the selector. *)
Theorem skip_row_filter (r : row) interface zone field target proto v :
  selects interface zone field target →
  r !! field = Some v →
  (v ≠ Some target → skip_row r interface proto zone = Ok true) ∧
  (v = Some target →
     (proto = "all" → skip_row r interface proto zone = Ok false) ∧
     ∀ p, r !! "IP Protocol" = Some p →
       ∃ skipped, skip_row r interface proto zone = Ok skipped ∧
         (skipped = false ↔
            proto = "all"
            ∨ (proto = "other" ∧ ∀ known, known ∈ PROTO_LIST → p ≠ Some known)
            ∨ p = Some proto)).
Proof.
  intros Hsel Hv. unfold skip_row.
  assert (Hpick : (if truthy interface then ("Inbound Interface", interface)
                   else ("Source Zone", zone)) = (field, Some target)).
  { destruct Hsel as [i Hi|z]; [by rewrite (truthy_Some _ Hi) | done]. }
  assert (Hget : getitem r field = Ok v) by (unfold getitem; by rewrite Hv).
  rewrite Hpick. cbv beta iota zeta. rewrite Hget. cbn [mbind res_bind].
  split.
  - intros Hne. by rewrite bool_decide_eq_false_2.
  - intros ->. rewrite bool_decide_eq_true_2 by done. cbn [negb]. split.
    + intros ->. reflexivity.
    + intros p Hp. unfold getitem. rewrite Hp. cbn [mbind res_bind].
      destruct (String.eqb_spec proto "all") as [->|Hall].
      { eexists; split; [reflexivity|]. tauto. }
      destruct (String.eqb_spec proto "other") as [->|Hother].
      * cbn [mbind res_bind mret res_ret].
        destruct (in_PROTO_LIST p) eqn:Hin; cbn [negb].
        -- assert (Hknown : ¬ ∀ known, known ∈ PROTO_LIST → p ≠ Some known).
           { rewrite <- in_PROTO_LIST_spec. congruence. }
           case_bool_decide as Heq; eexists; (split; [reflexivity|]).
           ++ split; [auto | done].
           ++ split; [done |]. intros [?|[[_ ?]|?]]; congruence.
        -- pose proof (proj1 (in_PROTO_LIST_spec p) Hin) as Hknown.
           eexists; split; [reflexivity|]. split; [auto | done].
      * cbn [mbind res_bind].
        case_bool_decide as Heq; eexists; (split; [reflexivity|]).
        -- split; [auto | done].
        -- split; [done |]. intros [?|[[? _]|?]]; congruence.
Qed.

(** The property at a row whose interface differs from the target and that
    has no protocol column, at a matching row of protocol "gre" under
    the selector "other", and at a zone given as the empty string. *)
Lemma skip_row_filter_witness :
  skip_row {[ "Inbound Interface" := Some "eth1" ]} (Some "eth0") "other" None
    = Ok true
  ∧ skip_row {[ "Inbound Interface" := Some "eth0";
                "IP Protocol" := Some "gre" ]} (Some "eth0") "other" None
    = Ok false
  ∧ skip_row {[ "Source Zone" := Some "" ]} None "all" (Some "") = Ok false.
Proof.
  split; [|split].
  3: { apply (skip_row_filter {[ "Source Zone" := Some "" ]} None (Some "")
                "Source Zone" "" "all" (Some ""));
         [constructor | reflexivity | reflexivity | reflexivity]. }
  - apply (skip_row_filter _ (Some "eth0") None "Inbound Interface" "eth0"
             "other" (Some "eth1")).
    + by constructor.
    + reflexivity.
    + discriminate.
  - destruct (skip_row_filter
                {[ "Inbound Interface" := Some "eth0";
                   "IP Protocol" := Some "gre" ]}
                (Some "eth0") None "Inbound Interface" "eth0" "other"
                (Some "eth0")) as [_ Hmatch].
    + by constructor.
    + reflexivity.
    + destruct (Hmatch eq_refl) as [_ Hp].
      destruct (Hp (Some "gre") eq_refl) as (skipped & -> & Hiff).
      f_equal. apply Hiff. right. left. split; [reflexivity|].
      intros known Hk [= <-]. revert Hk.
      by apply (bool_decide_eq_false_1 ("gre" ∈ PROTO_LIST)).
Defined.

Example strptime_FMT :
  strptime "2024/01/01 00:00:01" FMT = Ok t_example.
Proof. vm_compute. reflexivity. Qed.

Example strptime_FMT_short_fields :
  strptime "2024/1/1  0:0:1" FMT = Ok t_example.
Proof. vm_compute. reflexivity. Qed.

Example strptime_FMT_bad :
  strptime "2024-01-01 00:00:01" FMT = Raise ValueError
  ∧ strptime "2024/02/30 00:00:01" FMT = Raise ValueError
  ∧ strptime "2024/01/01 00:00:01 " FMT = Raise ValueError.
Proof. vm_compute. auto. Qed.

Example strftime_COMPRESS :
  strftime t_example COMPRESS_FMT = "20240101000001".
Proof. vm_compute. reflexivity. Qed.

Example strptime_COMPRESS :
  strptime "20240101000001" COMPRESS_FMT = Ok t_example.
Proof. vm_compute. reflexivity. Qed.

(** ** Rendering then parsing a timestamp *)

Lemma hd_error_bind {A B} (l : list A) (f : A → list B) a b :
  hd_error l = Some a → hd_error (f a) = Some b →
  hd_error (l ≫= f) = Some b.
Proof.
  destruct l as [|a' l]; [discriminate|]. intros [= ->] Hb.
  cbn. destruct (f a); [discriminate|]. exact Hb.
Qed.

Lemma digit_char_spec n :
  is_digit (digit_char n) = true ∧ code (digit_char n) - 48 = n mod 10.
Proof.
  unfold digit_char.
  assert (∃ k : nat, n mod 10 = Z.of_nat k ∧ (k < 10)%nat) as (k & -> & Hk).
  { exists (Z.to_nat (n mod 10)). pose proof (Z.mod_pos_bound n 10). lia. }
  do 10 (destruct k as [|k]; [by vm_compute|]). lia.
Qed.

Lemma match_directive_year y rest :
  0 <= y <= 9999 →
  hd_error (match_directive DY (zero_pad4 y ++ rest)) = Some (y, rest).
Proof.
  intros Hy. unfold match_directive, zero_pad4.
  cbn [alternatives omap app list_omap match_alt].
  destruct (digit_char_spec (y / 1000)) as [-> H1].
  destruct (digit_char_spec (y / 100)) as [-> H2].
  destruct (digit_char_spec (y / 10)) as [-> H3].
  destruct (digit_char_spec y) as [-> H4].
  cbn [mbind option_bind hd_error int_of_text fold_left].
  destruct (digit_char_spec (y / 1000)) as [-> _].
  destruct (digit_char_spec (y / 100)) as [-> _].
  destruct (digit_char_spec (y / 10)) as [-> _].
  destruct (digit_char_spec y) as [-> _].
  do 2 f_equal. Z.div_mod_to_equations. lia.
Qed.

(** A two-digit field is read back by the first alternative that takes
    two characters. *)
Ltac each_nat k :=
  destruct k as [|k];
  [first [lia | by vm_compute] | first [lia | each_nat k]].

Ltac two_digit_cases n bound :=
  let k := fresh "k" in
  let Hk := fresh "Hk" in
  assert (∃ k : nat, n = Z.of_nat k ∧ (k < bound)%nat) as (k & -> & Hk)
    by (exists (Z.to_nat n); lia);
  each_nat k.

Lemma match_directive_month n rest :
  1 <= n <= 12 →
  hd_error (match_directive Dm (zero_pad2 n ++ rest)) = Some (n, rest).
Proof. intros Hn. two_digit_cases n 13%nat. Qed.

Lemma match_directive_day n rest :
  1 <= n <= 31 →
  hd_error (match_directive Dd (zero_pad2 n ++ rest)) = Some (n, rest).
Proof. intros Hn. two_digit_cases n 32%nat. Qed.

Lemma match_directive_hour n rest :
  0 <= n <= 23 →
  hd_error (match_directive DH (zero_pad2 n ++ rest)) = Some (n, rest).
Proof. intros Hn. two_digit_cases n 24%nat. Qed.

Lemma match_directive_minute n rest :
  0 <= n <= 59 →
  hd_error (match_directive DM (zero_pad2 n ++ rest)) = Some (n, rest).
Proof. intros Hn. two_digit_cases n 60%nat. Qed.

Lemma match_directive_second n rest :
  0 <= n <= 59 →
  hd_error (match_directive DS (zero_pad2 n ++ rest)) = Some (n, rest).
Proof. intros Hn. two_digit_cases n 60%nat. Qed.

Lemma days_in_month_le y m : days_in_month y m <= 31.
Proof.
  unfold days_in_month. destruct ((m =? 2) && is_leap y); [lia|].
  destruct (Z.to_nat m) as [|k]; [simpl; lia|].
  do 12 (destruct k as [|k]; [simpl; lia|]).
  destruct k; simpl; lia.
Qed.

Lemma datetime_ok_bounds t :
  datetime_ok t = true →
  1 <= year t <= 9999 ∧ 1 <= month t <= 12
  ∧ 1 <= day t <= days_in_month (year t) (month t)
  ∧ 0 <= hour t <= 23 ∧ 0 <= minute t <= 59 ∧ 0 <= second t <= 59
  ∧ 0 <= microsecond t <= 999999.
Proof. unfold datetime_ok. rewrite !andb_true_iff. lia. Qed.

(** From 1000 on the year takes four digits. *)
Lemma decimal_four_digits y : 1000 <= y <= 9999 → decimal y = zero_pad4 y.
Proof.
  intros Hy. unfold decimal.
  assert (9 <= Z.log2 y) as Hlog by (apply Z.log2_le_pow2; lia).
  assert (∃ fuel, S (Z.to_nat (Z.log2 y)) = S (S (S (S fuel)))) as [fuel ->].
  { exists (Z.to_nat (Z.log2 y) - 3)%nat. lia. }
  cbn [decimal_digits].
  assert ((y <? 10) = false) as -> by lia.
  assert ((y / 10 <? 10) = false) as -> by (Z.div_mod_to_equations; lia).
  assert ((y / 10 / 10 <? 10) = false) as -> by (Z.div_mod_to_equations; lia).
  assert ((y / 10 / 10 / 10 <? 10) = true) as ->
    by (Z.div_mod_to_equations; lia).
  unfold zero_pad4. cbn [app].
  replace (y / 10 / 10 / 10) with (y / 1000)
    by (Z.div_mod_to_equations; lia).
  replace (y / 10 / 10) with (y / 100) by (Z.div_mod_to_equations; lia).
  reflexivity.
Qed.

Lemma strftime_COMPRESS_chars t :
  1000 <= year t <= 9999 →
  list_ascii_of_string (strftime t COMPRESS_FMT)
  = (zero_pad4 (year t) ++ zero_pad2 (month t) ++ zero_pad2 (day t)
     ++ zero_pad2 (hour t) ++ zero_pad2 (minute t) ++ zero_pad2 (second t)
     ++ [])%list.
Proof.
  intros Hy. unfold strftime. rewrite list_ascii_of_string_of_list_ascii.
  rewrite <- (decimal_four_digits _ Hy). reflexivity.
Qed.

(** From the year 1000 on, a timestamp at whole-second resolution that
    is rendered in the compressed form and parsed back is the same. *)
Lemma strptime_strftime_COMPRESS (t : datetime) :
  datetime_ok t = true →
  microsecond t = 0 →
  1000 <= year t →
  strptime (strftime t COMPRESS_FMT) COMPRESS_FMT = Ok t.
Proof.
  intros Hok Hus Hy. pose proof (datetime_ok_bounds t Hok) as Hb.
  pose proof (days_in_month_le (year t) (month t)) as Hdim.
  unfold strptime. rewrite strftime_COMPRESS_chars by lia.
  change (parse_format (list_ascii_of_string COMPRESS_FMT))
    with (Some [FDir DY; FDir Dm; FDir Dd; FDir DH; FDir DM; FDir DS]).
  cbv beta iota.
  assert (Hhd : hd_error
    (match_items [FDir DY; FDir Dm; FDir Dd; FDir DH; FDir DM; FDir DS] []
       (zero_pad4 (year t) ++ zero_pad2 (month t) ++ zero_pad2 (day t)
        ++ zero_pad2 (hour t) ++ zero_pad2 (minute t)
        ++ zero_pad2 (second t) ++ [])%list)
    = Some ([(DS, second t); (DM, minute t); (DH, hour t); (Dd, day t);
             (Dm, month t); (DY, year t)], [])).
  { cbn [match_items].
    eapply hd_error_bind; [apply match_directive_year; lia|]. cbn beta iota.
    eapply hd_error_bind; [apply match_directive_month; lia|]. cbn beta iota.
    eapply hd_error_bind; [apply match_directive_day; lia|]. cbn beta iota.
    eapply hd_error_bind; [apply match_directive_hour; lia|]. cbn beta iota.
    eapply hd_error_bind; [apply match_directive_minute; lia|]. cbn beta iota.
    eapply hd_error_bind; [apply match_directive_second; lia|]. reflexivity. }
  destruct (match_items _ _ _) as [|[found rest] others]; [discriminate|].
  injection Hhd as -> ->.
  unfold datetime_new. cbn [found_or find directive_eqb fst].
  clear Hb Hdim Hy. destruct t as [y m d H M S us]. cbn in Hus. subst us.
  cbn [year month day hour minute second]. by rewrite Hok.
Qed.

(** C9 fails on the code — A row whose start time is the first second of
    the year 999 is counted under the key 9990101000000, the year being
    rendered without padding; the loop over the keys reads that key back
    as 9990-10-10 00:00:00, another instant, and a start time in the
    year 1 gives a key that does not parse at all. *)
Theorem compressed_key_below_year_1000 :
  strptime "0999/01/01 00:00:00" FMT = Ok t_999
  ∧ strftime t_999 COMPRESS_FMT = "9990101000000"
  ∧ process_csvfile [RowAt 2 (row_example "0999/01/01 00:00:00")]
      (cv_example 1 0) = (2%nat, Ok {[ "9990101000000" := 1 ]})
  ∧ strptime (strftime t_999 COMPRESS_FMT) COMPRESS_FMT
    = Ok {| year := 9990; month := 10; day := 10;
            hour := 0; minute := 0; second := 0; microsecond := 0 |}
  ∧ (∃ t_1, strptime "0001/01/01 00:00:00" FMT = Ok t_1
            ∧ strftime t_1 COMPRESS_FMT = "10101000000"
            ∧ strptime (strftime t_1 COMPRESS_FMT) COMPRESS_FMT
              = Raise ValueError).
Proof.
  repeat split; try (vm_compute; reflexivity).
  eexists. split; [vm_compute; reflexivity|].
  split; vm_compute; reflexivity.
Qed.

Example int_truediv_2_3 :
  int_truediv 2 3 = Ok (S754_finite false 6004799503160661 (-53))
  ∧ int_truediv 1 1 = Ok (float_of_int 1)
  ∧ int_truediv 10 2 = Ok (float_of_int 5)
  ∧ int_truediv 0 (-1) = Ok (S754_zero true)
  ∧ int_truediv 1 0 = Raise ZeroDivisionError.
Proof. vm_compute. auto. Qed.

Example float_compare_2_3 :
  let x := S754_finite false 6004799503160661 (-53) in
  float_gt_int x 0 = true ∧ float_gt_int x 1 = false
  ∧ float_lt_int x 1 = true ∧ float_gt_int (float_of_int 1) 1 = false.
Proof. vm_compute. auto. Qed.

Example evaluate_cpsdict_interval_1 :
  evaluate_cpsdict counts_example (cv_example 1 1) = IO [] (Ok (Some [])).
Proof. vm_compute. reflexivity. Qed.

Example evaluate_cpsdict_interval_3 :
  evaluate_cpsdict counts_example (cv_example 3 1) = IO [] (Ok (Some []))
  ∧ evaluate_cpsdict counts_example (cv_example 3 0)
    = IO [] (Ok (Some [S754_finite false 6004799503160661 (-53)])).
Proof. vm_compute. auto. Qed.

Lemma timedelta_new_spec d s us :
  -999999999 * 86400000000 <= (d * 86400 + s) * 1000000 + us
    < 1000000000 * 86400000000 →
  ∃ td, timedelta_new d s us = Ok td ∧ normalised td
        ∧ to_microseconds td = (d * 86400 + s) * 1000000 + us.
Proof.
  intros Hrange. unfold timedelta_new.
  set (s' := s + us / 1000000). set (d' := d + s' / 86400).
  assert (Hd : Z.abs d' <= 999999999).
  { subst d' s'. Z.div_mod_to_equations. lia. }
  destruct (Z.gtb_spec (Z.abs d') 999999999) as [?|_]; [lia|].
  eexists. split; [reflexivity|].
  unfold normalised, to_microseconds. cbn [days seconds microseconds].
  subst d' s'. Z.div_mod_to_equations. lia.
Qed.

Lemma timedelta_new_inv d s us td :
  timedelta_new d s us = Ok td →
  normalised td ∧ to_microseconds td = (d * 86400 + s) * 1000000 + us.
Proof.
  unfold timedelta_new. destruct (_ >? _); [discriminate|]. intros [= <-].
  unfold normalised, to_microseconds. cbn [days seconds microseconds].
  Z.div_mod_to_equations. lia.
Qed.

Lemma timedelta_le_spec a b :
  normalised a → normalised b →
  timedelta_le a b = true ↔ to_microseconds a <= to_microseconds b.
Proof.
  unfold normalised, timedelta_le, to_microseconds. intros Ha Hb.
  repeat match goal with
         | |- context [?x <? ?y] => destruct (Z.ltb_spec x y)
         end; rewrite ?Z.leb_le; split; try discriminate; try reflexivity; lia.
Qed.

Lemma divide_and_round_even k : divide_and_round (2 * k) 2 = k.
Proof.
  unfold divide_and_round.
  replace ((2 * k) `mod` 2) with 0 by (Z.div_mod_to_equations; lia).
  replace ((2 * k) `div` 2) with k by (Z.div_mod_to_equations; lia).
  reflexivity.
Qed.

Lemma days_before_month_bounds y m :
  1 <= m <= 12 → 0 <= days_before_month y m <= 335.
Proof.
  intros Hm. unfold days_before_month.
  assert (∃ k : nat, m = Z.of_nat k ∧ (k < 13)%nat) as (k & -> & Hk)
    by (exists (Z.to_nat m); lia).
  rewrite Nat2Z.id.
  destruct (_ && _);
    do 13 (destruct k as [|k]; [cbn [nth]; lia|]); lia.
Qed.

Lemma instant_us_bounds t :
  datetime_ok t = true → 0 <= instant_us t < 3652426 * 86400000000.
Proof.
  intros Hok. apply datetime_ok_bounds in Hok.
  pose proof (days_in_month_le (year t) (month t)).
  pose proof (days_before_month_bounds (year t) (month t)).
  unfold instant_us, toordinal, days_before_year.
  Z.div_mod_to_equations. lia.
Qed.

Lemma strptime_ok s f t : strptime s f = Ok t → datetime_ok t = true.
Proof.
  unfold strptime, datetime_new. intros H.
  repeat match type of H with
         | match ?x with _ => _ end = _ => destruct x eqn:?; try discriminate
         | (if ?x then _ else _) = _ => destruct x eqn:?; try discriminate
         | (let '(_, _) := ?x in _) = _ => destruct x eqn:?
         end.
  by injection H as <-.
Qed.

(** The test [(ts - previous_ts) <= interval/2] on [timedelta] values
    decides whether the elapsed time is at most half the interval,
    exactly, to the microsecond. *)
Lemma merge_test interval_s interval_td prev ts :
  timedelta_new 0 interval_s 0 = Ok interval_td →
  datetime_ok prev = true → datetime_ok ts = true →
  ∃ delta half,
    datetime_sub ts prev = Ok delta
    ∧ timedelta_truediv interval_td 2 = Ok half
    ∧ (timedelta_le delta half = true
       ↔ 2 * elapsed_us prev ts <= interval_s * 1000000).
Proof.
  intros Htd Hprev Hts.
  pose proof (instant_us_bounds _ Hprev) as Bp.
  pose proof (instant_us_bounds _ Hts) as Bt.
  pose proof (timedelta_new_inv _ _ _ _ Htd) as [Hn Hus].
  assert (Hrange : -999999999 * 86400 <= interval_s < 1000000000 * 86400).
  { revert Htd. unfold timedelta_new.
    match goal with |- context [?x >? ?y] => destruct (Z.gtb_spec x y) end;
      [discriminate|].
    intros _. Z.div_mod_to_equations. lia. }
  destruct (timedelta_new_spec (toordinal ts - toordinal prev)
              (second ts + minute ts * 60 + hour ts * 3600
               - (second prev + minute prev * 60 + hour prev * 3600))
              (microsecond ts - microsecond prev))
    as (delta & Hdelta & Hdn & Hdus).
  { unfold instant_us in Bp, Bt. lia. }
  destruct (timedelta_new_spec 0 0 (interval_s * 500000))
    as (half & Hhalf & Hhn & Hhus); [lia|].
  exists delta, half. split; [exact Hdelta|]. split.
  - unfold timedelta_truediv. cbn [Z.eqb]. rewrite Hus.
    replace ((0 * 86400 + interval_s) * 1000000 + 0)
      with (2 * (interval_s * 500000)) by lia.
    by rewrite divide_and_round_even.
  - rewrite (timedelta_le_spec _ _ Hdn Hhn), Hdus, Hhus.
    unfold elapsed_us, instant_us. lia.
Qed.

Lemma io_eta {A} (m : io A) : IO (printed m) (result m) = m.
Proof. by destruct m. Qed.

Lemma lift_Ok_bind {A B} (a : A) (k : A → io B) : lift (Ok a) ≫= k = k a.
Proof. unfold mbind, io_bind, lift. cbn. apply io_eta. Qed.

Lemma lift_Raise_bind {A B} e (k : A → io B) :
  lift (Raise e) ≫= k = IO [] (Raise e).
Proof. reflexivity. Qed.

Lemma IO_Ok_bind {A B} out (a : A) (k : A → io B) :
  IO out (Ok a) ≫= k = IO (out ++ printed (k a)) (result (k a)).
Proof. reflexivity. Qed.

(** ** Floats against integers *)

Lemma float_compare_int_spec x n :
  finite x →
  (float_gt_int x n = true ↔ (IZR n < float_to_R x)%R)
  ∧ (float_lt_int x n = true ↔ (float_to_R x < IZR n)%R).
Proof.
  intros [s|s m e];
    unfold float_gt_int, float_lt_int, float_compare_int, float_to_R.
  { destruct (Z.compare_spec 0 n) as [Heq|Hlt|Hgt].
    - subst n. split; split; try discriminate; intros H; lra.
    - apply IZR_lt in Hlt. split; split; try discriminate; try done; intros H; lra.
    - apply IZR_lt in Hgt. split; split; try discriminate; try done; intros H; lra. }
  set (mz := if s then Z.neg m else Z.pos m).
  destruct (Z.leb_spec 0 e) as [He|He].
  - rewrite <- mult_IZR.
    destruct (Z.compare_spec (mz * 2 ^ e) n) as [Heq|Hlt|Hgt].
    + subst n. split; split; try discriminate; intros H; lra.
    + apply IZR_lt in Hlt. split; split; try discriminate; try done; intros H; lra.
    + apply IZR_lt in Hgt. split; split; try discriminate; try done; intros H; lra.
  - assert (HP : (0 < IZR (2 ^ (- e)))%R).
    { apply IZR_lt. apply Z.pow_pos_nonneg; lia. }
    assert (Hdiv : (IZR mz / IZR (2 ^ (- e)) * IZR (2 ^ (- e)) = IZR mz)%R).
    { field. lra. }
    set (q := (IZR mz / IZR (2 ^ (- e)))%R) in *.
    destruct (Z.compare_spec mz (n * 2 ^ (- e))) as [Heq|Hlt|Hgt].
    + rewrite Heq, mult_IZR in Hdiv.
      split; split; try discriminate; intros H; nra.
    + apply IZR_lt in Hlt. rewrite mult_IZR in Hlt.
      split; split; try discriminate; try done; intros H; nra.
    + apply IZR_lt in Hgt. rewrite mult_IZR in Hgt.
      split; split; try discriminate; try done; intros H; nra.
Qed.

(** The quotient of two integers is never a NaN. *)
Lemma shr_1_nonneg mrs : 0 <= shr_m mrs → 0 <= shr_m (shr_1 mrs).
Proof.
  destruct mrs as [m r s]. cbn. destruct m as [|[p|p|]|[p|p|]]; cbn; lia.
Qed.

Lemma iter_pos_nonneg p mrs :
  0 <= shr_m mrs → 0 <= shr_m (SpecFloat.iter_pos shr_1 p mrs).
Proof.
  revert mrs. induction p as [p IH|p IH|]; intros mrs H; cbn.
  - apply IH, IH, shr_1_nonneg, H.
  - apply IH, IH, H.
  - apply shr_1_nonneg, H.
Qed.

Lemma shr_fexp_nonneg m e l :
  0 <= m → 0 <= shr_m (fst (shr_fexp 53 1024 m e l)).
Proof.
  intros Hm. unfold shr_fexp, shr.
  assert (H0 : 0 <= shr_m (shr_record_of_loc m l)).
  { by destruct l as [|[]]. }
  destruct (_ - e) as [|p|p]; cbn [fst]; [done| |done].
  by apply iter_pos_nonneg.
Qed.

Lemma binary_round_aux_not_nan sx mx ex lx :
  0 <= mx → binary_round_aux 53 1024 sx mx ex lx ≠ S754_nan.
Proof.
  intros Hm. unfold binary_round_aux.
  pose proof (shr_fexp_nonneg mx ex lx Hm) as H1.
  destruct (shr_fexp 53 1024 mx ex lx) as [mrs' e']. cbn [fst] in H1.
  assert (H2 : 0 <= round_nearest_even (shr_m mrs') (loc_of_shr_record mrs')).
  { unfold round_nearest_even.
    destruct (loc_of_shr_record mrs') as [|[]]; try destruct (Z.even _); lia. }
  pose proof (shr_fexp_nonneg _ e' loc_Exact H2) as H3.
  destruct (shr_fexp 53 1024 _ e' loc_Exact) as [mrs'' e'']. cbn [fst] in H3.
  destruct (shr_m mrs''); [done| |lia].
  by destruct (_ <=? _).
Qed.

Lemma SFdiv_core_binary_nonneg m1 m2 mz ez lz :
  SFdiv_core_binary 53 1024 (Z.pos m1) 0 (Z.pos m2) 0 = (mz, ez, lz) →
  0 <= mz.
Proof.
  unfold SFdiv_core_binary.
  match goal with |- context [Z.div_eucl ?x ?y] =>
    pose proof (Z.div_eucl_eq x y ltac:(lia)) as Heq;
    pose proof (Z.mod_pos_bound x y ltac:(lia)) as Hmod;
    unfold Z.modulo in Hmod;
    assert (0 <= x) by
      (match goal with |- 0 <= match ?s with _ => _ end =>
         destruct s; [lia | apply Z.shiftl_nonneg; lia | lia] end);
    destruct (Z.div_eucl x y) as [q' r'] end.
  intros [= <- _ _]. nia.
Qed.

Lemma SFdiv_int_finite sa a sb b q :
  match SFdiv 53 1024 (S754_finite sa a 0) (S754_finite sb b 0) with
  | S754_infinity _ => Raise OverflowError
  | q => Ok q
  end = Ok q →
  finite q.
Proof.
  cbn [SFdiv].
  destruct (SFdiv_core_binary _ _ _ _ _ _) as [[mz ez] lz] eqn:Hcore.
  pose proof (binary_round_aux_not_nan (xorb sa sb) mz ez lz
                (SFdiv_core_binary_nonneg _ _ _ _ _ Hcore)) as Hnan.
  destruct (binary_round_aux _ _ _ _ _ _); try discriminate; try done;
    intros [= <-]; constructor.
Qed.

Lemma int_truediv_finite a b q : int_truediv a b = Ok q → finite q.
Proof.
  unfold int_truediv. destruct (b =? 0); [discriminate|].
  destruct a as [|a|a]; [intros [= <-]; constructor|..];
    apply SFdiv_int_finite.
Qed.

(** ** Evaluating a bucket *)

Lemma in_bounds_test cv cps :
  finite cps →
  float_gt_int cps (lowcps cv) && float_lt_int cps (highcps cv) = true
  ↔ in_bounds cv cps.
Proof.
  intros Hfin. unfold in_bounds. rewrite andb_true_iff.
  destruct (float_compare_int_spec cps (lowcps cv) Hfin) as [-> _].
  destruct (float_compare_int_spec cps (highcps cv) Hfin) as [_ ->].
  done.
Qed.

Lemma app_singleton_ne {A} (l : list A) x : (l ++ [x])%list ≠ l.
Proof.
  intros H. apply (f_equal length) in H. rewrite length_app in H. cbn in H. lia.
Qed.

(** What [evaluate_row] leaves in the list, by the test it makes. *)
Lemma evaluate_row_result cpslist count ts cv cps :
  int_truediv count (interval cv) = Ok cps →
  ∃ out,
    evaluate_row cpslist count (Some ts) cv
    = IO out (Ok (if (1 <? count)
                     && (float_gt_int cps (lowcps cv)
                         && float_lt_int cps (highcps cv))
                  then (cpslist ++ [cps])%list else cpslist)).
Proof.
  intros Hcps. unfold evaluate_row. rewrite Hcps, lift_Ok_bind.
  destruct (_ && _); destruct (negb _); eexists; reflexivity.
Qed.

(** C2 — For every bucket [(count, ts)] and every configuration for
    which the quotient [cps = count / interval] exists, [evaluate_row]
    returns normally and appends [cps] to the samples iff [count > 1]
    and [lowcps < cps < highcps], both strictly; otherwise the samples
    are left as they are, so a bucket with [count <= 1] is never kept,
    also when its cps is strictly inside the bounds. *)
Theorem evaluate_row_retains cpslist count ts cv cps :
  int_truediv count (interval cv) = Ok cps →
  ∃ out cpslist',
    evaluate_row cpslist count (Some ts) cv = IO out (Ok cpslist')
    ∧ (cpslist' = (cpslist ++ [cps])%list ↔ 1 < count ∧ in_bounds cv cps)
    ∧ (cpslist' = cpslist ↔ ¬ (1 < count ∧ in_bounds cv cps))
    ∧ (count <= 1 → cpslist' = cpslist).
Proof.
  intros Hcps. destruct (evaluate_row_result cpslist count ts cv cps Hcps)
    as [out Hrow].
  pose proof (in_bounds_test cv cps (int_truediv_finite _ _ _ Hcps)) as Htest.
  eexists out, _. split; [exact Hrow|].
  destruct (Z.ltb_spec 1 count) as [Hc|Hc]; cbn [andb].
  - destruct (_ && _).
    + pose proof (proj1 Htest eq_refl) as Hb.
      split; [tauto|]. split; [|lia].
      split; [intros H; by apply app_singleton_ne in H | tauto].
    + assert (Hb : ¬ in_bounds cv cps) by (intros H; by apply Htest in H).
      split; [|split; [tauto | done]].
      split; [intros H; symmetry in H; by apply app_singleton_ne in H | tauto].
  - split; [|split; [split; [lia | done] | done]].
    split; [intros H; symmetry in H; by apply app_singleton_ne in H | lia].
Qed.

(** The property at a bucket of two events over an interval of 3 and bounds
    0 and 10000. *)
Lemma evaluate_row_retains_witness :
  ∃ out cpslist',
    evaluate_row [] 2 (Some t_example) (cv_example 3 0) = IO out (Ok cpslist')
    ∧ (cpslist' = [two_thirds] ↔ 1 < 2 ∧ in_bounds (cv_example 3 0) two_thirds)
    ∧ (cpslist' = [] ↔ ¬ (1 < 2 ∧ in_bounds (cv_example 3 0) two_thirds))
    ∧ (2 <= 1 → cpslist' = []).
Proof.
  apply (evaluate_row_retains [] 2 t_example (cv_example 3 0) two_thirds).
  reflexivity.
Defined.

(** ** The samples stay inside the bounds *)

Lemma io_bind_Ok_inv {A B} (m : io A) (k : A → io B) out b :
  m ≫= k = IO out (Ok b) →
  ∃ out1 a out2,
    m = IO out1 (Ok a) ∧ k a = IO out2 (Ok b) ∧ out = (out1 ++ out2)%list.
Proof.
  destruct m as [out1 [a|e]]; unfold mbind, io_bind; cbn; [|discriminate].
  intros [= <- Hres]. exists out1, a, (printed (k a)).
  split; [done|]. split; [|done]. rewrite <- Hres. symmetry. apply io_eta.
Qed.

Lemma lift_Ok_inv {A} (r : res A) out a : lift r = IO out (Ok a) → r = Ok a.
Proof. unfold lift. by intros [= _ ->]. Qed.

Lemma evaluate_row_Forall (P : float → Prop) cpslist count ts cv out cpslist' :
  (∀ cps, int_truediv count (interval cv) = Ok cps →
          1 < count → in_bounds cv cps → P cps) →
  Forall P cpslist →
  evaluate_row cpslist count ts cv = IO out (Ok cpslist') →
  Forall P cpslist'.
Proof.
  intros HP Hall. destruct ts as [ts|]; [|by intros [= _ <-]].
  destruct (int_truediv count (interval cv)) as [cps|e] eqn:Hcps.
  - destruct (evaluate_row_result cpslist count ts cv cps Hcps) as [out' ->].
    intros [= _ <-].
    destruct (Z.ltb_spec 1 count) as [Hc|Hc]; cbn [andb]; [|done].
    destruct (_ && _) eqn:Htest; [|done].
    apply Forall_app. split; [done|]. apply Forall_singleton. apply HP; [done..|].
    by apply (in_bounds_test cv cps (int_truediv_finite _ _ _ Hcps)).
  - unfold evaluate_row. rewrite Hcps. discriminate.
Qed.

Lemma loop_body_Forall cpsdict cv interval_td st key out st' :
  Forall (in_bounds cv) (cpslist st) →
  loop_body cpsdict cv interval_td st key = IO out (Ok st') →
  Forall (in_bounds cv) (cpslist st').
Proof.
  intros Hall. unfold loop_body. intros H.
  apply io_bind_Ok_inv in H as (? & ts & ? & _ & H1 & _).
  apply io_bind_Ok_inv in H1 as (? & delta & ? & _ & H2 & _).
  apply io_bind_Ok_inv in H2 as (? & half & ? & _ & H3 & _).
  destruct (timedelta_le delta half).
  - by injection H3 as _ <-.
  - apply io_bind_Ok_inv in H3 as (? & cpslist' & ? & Hrow & H4 & _).
    apply io_bind_Ok_inv in H4 as (? & count' & ? & _ & H5 & _).
    injection H5 as _ <-. cbn [cpslist].
    eapply evaluate_row_Forall; [|exact Hall|exact Hrow]. auto.
Qed.

Lemma for_each_Forall cpsdict cv interval_td keys st out st' :
  Forall (in_bounds cv) (cpslist st) →
  for_each (loop_body cpsdict cv interval_td) st keys = IO out (Ok st') →
  Forall (in_bounds cv) (cpslist st').
Proof.
  revert st out. induction keys as [|key keys IH]; intros st out Hall; cbn.
  - by intros [= _ <-].
  - intros H. apply io_bind_Ok_inv in H as (? & st1 & ? & Hbody & H1 & _).
    eapply IH; [|exact H1]. eapply loop_body_Forall; eauto.
Qed.

Lemma evaluate_cpsdict_in_bounds cpsdict cv out samples :
  evaluate_cpsdict cpsdict cv = IO out (Ok (Some samples)) →
  Forall (in_bounds cv) samples.
Proof.
  unfold evaluate_cpsdict. case_bool_decide as Hempty; [discriminate|].
  intros H.
  apply io_bind_Ok_inv in H as (? & interval_td & ? & _ & H1 & _).
  destruct (sorted cpsdict) as [|first_key keys]; [discriminate|].
  apply io_bind_Ok_inv in H1 as (? & first_ts & ? & _ & H2 & _).
  apply io_bind_Ok_inv in H2 as (? & first_count & ? & _ & H3 & _).
  apply io_bind_Ok_inv in H3 as (? & st & ? & Hloop & H4 & _).
  apply io_bind_Ok_inv in H4 as (? & cpslist' & ? & Hrow & H5 & _).
  injection H5 as _ <-.
  eapply evaluate_row_Forall; [|eapply for_each_Forall; [|exact Hloop]|exact Hrow].
  - auto.
  - constructor.
Qed.

Lemma float_to_R_one : float_to_R one = 1%R.
Proof.
  unfold float_to_R, one. cbn [Z.leb Z.compare Z.opp].
  change (2 ^ (- (-52))) with 4503599627370496. lra.
Qed.

(** C5, as stated, fails — a bucket of one event over an interval of 1
    with bounds 0 and 10000 has the cps value 1.0, strictly inside the
    bounds, and is not retained, neither by [evaluate_row] nor in the
    list [evaluate_cpsdict] returns. *)
Lemma in_bounds_not_retained :
  int_truediv 1 (interval (cv_example 1 0)) = Ok one
  ∧ in_bounds (cv_example 1 0) one
  ∧ evaluate_row [] 1 (Some t_example) (cv_example 1 0) = IO [] (Ok [])
  ∧ evaluate_cpsdict {[ "20240101000001" := 1 ]} (cv_example 1 0)
    = IO [] (Ok (Some [])).
Proof.
  split; [vm_compute; reflexivity|]. split; [|split; vm_compute; reflexivity].
  unfold in_bounds. rewrite float_to_R_one. cbn. lra.
Qed.

(** C5 — Every sample in the list [evaluate_cpsdict] returns satisfies
    [lowcps < cps < highcps], both strictly; and the cps value of a
    bucket that satisfies the bounds is retained by [evaluate_row] iff
    the running count of the bucket is greater than 1: with a count of
    at most 1 the samples are left as they are, as they are for a value
    outside the bounds. *)
Theorem samples_in_bounds :
  (∀ cpsdict cv out samples,
     evaluate_cpsdict cpsdict cv = IO out (Ok (Some samples)) →
     Forall (in_bounds cv) samples)
  ∧ (∀ cpslist count ts cv cps,
       int_truediv count (interval cv) = Ok cps →
       ∃ out cpslist',
         evaluate_row cpslist count (Some ts) cv = IO out (Ok cpslist')
         ∧ (in_bounds cv cps →
            (cpslist' = (cpslist ++ [cps])%list ↔ 1 < count)
            ∧ (cpslist' = cpslist ↔ count <= 1))
         ∧ (¬ in_bounds cv cps → cpslist' = cpslist)).
Proof.
  split; [exact evaluate_cpsdict_in_bounds|].
  intros cpslist count ts cv cps Hcps.
  destruct (evaluate_row_result cpslist count ts cv cps Hcps) as [out Hrow].
  pose proof (in_bounds_test cv cps (int_truediv_finite _ _ _ Hcps)) as Htest.
  eexists out, _. split; [exact Hrow|].
  destruct (Z.ltb_spec 1 count) as [Hc|Hc]; cbn [andb].
  - destruct (_ && _).
    + split; [|intros Hout; destruct Hout; by apply Htest].
      intros _. split; [tauto|].
      split; [intros H; by apply app_singleton_ne in H | lia].
    + split; [|done]. intros Hin. apply Htest in Hin. discriminate.
  - split; [|done]. intros _. split; [|tauto].
    split; [intros H; symmetry in H; by apply app_singleton_ne in H | lia].
Qed.

(** The property at the table of two seconds with an interval of 3, and
    at a bucket of one event over an interval of 1, which is dropped
    with its cps of 1.0 inside the bounds 0 and 10000. *)
Lemma samples_in_bounds_witness :
  Forall (in_bounds (cv_example 3 0)) [two_thirds]
  ∧ ∃ out cpslist',
      evaluate_row [] 1 (Some t_example) (cv_example 1 0) = IO out (Ok cpslist')
      ∧ (in_bounds (cv_example 1 0) one →
         (cpslist' = [one] ↔ 1 < 1) ∧ (cpslist' = [] ↔ 1 <= 1))
      ∧ (¬ in_bounds (cv_example 1 0) one → cpslist' = []).
Proof.
  split.
  - apply (proj1 samples_in_bounds counts_example (cv_example 3 0) []).
    vm_compute; reflexivity.
  - apply (proj2 samples_in_bounds [] 1 t_example (cv_example 1 0) one).
    vm_compute; reflexivity.
Defined.

(** ** The empty count table *)

(** C8 — On an empty count table [evaluate_cpsdict] returns at once,
    whatever the configuration: nothing is printed, nothing is raised,
    and the value returned ([None]) holds no sample; [print_results]
    treats it as it treats the empty list. *)
Theorem evaluate_cpsdict_empty cv :
  evaluate_cpsdict ∅ cv = IO [] (Ok None)
  ∧ samples_of None = []
  ∧ print_results None cv = print_results (Some []) cv.
Proof.
  split; [|split; reflexivity].
  unfold evaluate_cpsdict. by rewrite bool_decide_eq_true_2.
Qed.

(** ** The count table *)

Lemma occurrences_nonneg cv key reader : 0 <= occurrences cv key reader.
Proof.
  induction reader as [|item reader IH]; cbn; [lia|].
  destruct (counted_under cv key item); lia.
Qed.

Lemma count_row_key cv cpsdict r :
  count_row cv cpsdict r
  = (ko ← key_of_row cv r;
     match ko with
     | None => Ok cpsdict
     | Some k =>
       if get_truthy cpsdict k then
         c ← dict_getitem cpsdict k; Ok (<[k := c + 1]> cpsdict)
       else Ok (<[k := 1]> cpsdict)
     end).
Proof.
  unfold count_row, key_of_row.
  destruct (skip_row _ _ _ _) as [[]|]; cbn; [done| |done].
  destruct (getitem r START_TIME) as [[s|]|]; cbn; [|done..].
  by destruct (strptime s FMT).
Qed.

Lemma get_truthy_lookup cpsdict key :
  positive_counts cpsdict →
  get_truthy cpsdict key = true ↔ is_Some (cpsdict !! key).
Proof.
  intros Hpos. unfold get_truthy.
  destruct (cpsdict !! key) as [v|] eqn:Hv.
  - apply Hpos in Hv. destruct (Z.eqb_spec v 0); [lia|]. cbn. split; eauto.
  - split; [discriminate | by intros [? ?]].
Qed.

Lemma count_row_step cv cpsdict r cpsdict' :
  positive_counts cpsdict →
  count_row cv cpsdict r = Ok cpsdict' →
  positive_counts cpsdict'
  ∧ ∀ key,
      cpsdict' !! key
      = if counted_under cv key (RowAt 0 r)
        then Some (default 0 (cpsdict !! key) + 1)
        else cpsdict !! key.
Proof.
  intros Hpos. rewrite count_row_key. cbn [counted_under].
  destruct (key_of_row cv r) as [[k|]|]; cbn; [| |discriminate].
  - pose proof (get_truthy_lookup cpsdict k Hpos) as Hget.
    unfold dict_getitem.
    destruct (cpsdict !! k) as [v|] eqn:Hv.
    + rewrite (proj2 Hget) by eauto. cbn. intros [= <-]. split.
      * intros k' v'. rewrite lookup_insert. case_decide as Hk.
        -- intros [= <-]. apply Hpos in Hv. lia.
        -- apply Hpos.
      * intros key. rewrite lookup_insert.
        destruct (String.eqb_spec k key) as [->|Hne].
        -- rewrite decide_True by done. by rewrite Hv.
        -- by rewrite decide_False.
    + destruct (get_truthy cpsdict k).
      { destruct (proj1 Hget eq_refl). discriminate. }
      intros [= <-]. split.
      * intros k' v'. rewrite lookup_insert. case_decide as Hk.
        -- intros [= <-]. lia.
        -- apply Hpos.
      * intros key. rewrite lookup_insert.
        destruct (String.eqb_spec k key) as [->|Hne].
        -- rewrite decide_True by done. by rewrite Hv.
        -- by rewrite decide_False.
  - intros [= <-]. split; [done|]. done.
Qed.

Lemma read_rows_counts cv reader cpsdict0 n0 n cpsdict :
  positive_counts cpsdict0 →
  read_rows cv cpsdict0 n0 reader = (n, Ok cpsdict) →
  positive_counts cpsdict
  ∧ ∀ key,
      cpsdict !! key
      = match cpsdict0 !! key with
        | Some v => Some (v + occurrences cv key reader)
        | None =>
          if occurrences cv key reader =? 0 then None
          else Some (occurrences cv key reader)
        end.
Proof.
  revert cpsdict0 n0. induction reader as [|item reader IH];
    intros cpsdict0 n0 Hpos; cbn [read_rows occurrences].
  - intros [= _ <-]. split; [done|]. intros key.
    destruct (cpsdict0 !! key); [f_equal; lia | done].
  - destruct item as [m r|m detail|m detail]; [|discriminate..].
    destruct (count_row cv cpsdict0 r) as [cpsdict1|e] eqn:Hrow; [|discriminate].
    destruct (count_row_step _ _ _ _ Hpos Hrow) as [Hpos1 Hstep].
    intros Hrest. destruct (IH _ _ Hpos1 Hrest) as [Hposn Hn].
    split; [done|]. intros key. rewrite Hn, Hstep.
    pose proof (occurrences_nonneg cv key reader) as Hocc.
    change (counted_under cv key (RowAt m r))
      with (counted_under cv key (RowAt 0 r)).
    destruct (counted_under cv key (RowAt 0 r)).
    + destruct (cpsdict0 !! key) as [v|]; unfold default; cbn.
      * f_equal. lia.
      * destruct (Z.eqb_spec (1 + occurrences cv key reader) 0); [lia|].
        reflexivity.
    + destruct (cpsdict0 !! key) as [v|]; [f_equal; lia | done].
Qed.

Lemma read_rows_readable cv reader cpsdict0 n0 :
  Forall (readable cv) reader →
  ∃ n cpsdict, read_rows cv cpsdict0 n0 reader = (n, Ok cpsdict).
Proof.
  intros Hall. revert cpsdict0 n0.
  induction Hall as [|item reader (m & r & ko & -> & Hko) _ IH];
    intros cpsdict0 n0; cbn [read_rows]; [eauto|].
  assert (Hrow : ∃ cpsdict1, count_row cv cpsdict0 r = Ok cpsdict1).
  { rewrite count_row_key, Hko. cbn. destruct ko as [k|]; [|eauto].
    unfold get_truthy, dict_getitem.
    destruct (cpsdict0 !! k) as [v|]; [|eauto].
    destruct (negb _); cbn; eauto. }
  destruct Hrow as [cpsdict1 ->]. apply IH.
Qed.

Lemma process_csvfile_Ok reader cv n cpsdict :
  process_csvfile reader cv = (n, Ok cpsdict)
  ↔ read_rows cv ∅ 0 reader = (n, Ok cpsdict).
Proof.
  unfold process_csvfile.
  destruct (read_rows cv ∅ 0 reader) as [m [d|[]]]; split; congruence.
Qed.

(** C10 — [process_csvfile] returns a table for every reader whose rows
    are all skipped or have a start time that parses; and in every table
    it returns, each value is an integer at least 1, equal to the number
    of surviving rows whose truncated timestamp is its key, and a key
    without such a row is absent; so the test [cpsdict.get(key)] made
    when incrementing is true exactly for the keys present. *)
Theorem process_csvfile_counts cv reader :
  (Forall (readable cv) reader →
   ∃ line_num cpsdict, process_csvfile reader cv = (line_num, Ok cpsdict))
  ∧ ∀ line_num cpsdict,
      process_csvfile reader cv = (line_num, Ok cpsdict) →
      ∀ key,
        match cpsdict !! key with
        | Some v => 1 <= v ∧ v = occurrences cv key reader
        | None => occurrences cv key reader = 0
        end
        ∧ (get_truthy cpsdict key = true ↔ is_Some (cpsdict !! key)).
Proof.
  split.
  - intros Hall.
    destruct (read_rows_readable cv reader ∅ 0%nat Hall) as (n & d & Hd).
    exists n, d. by apply process_csvfile_Ok.
  - intros n cpsdict Hd key. apply process_csvfile_Ok in Hd.
    assert (Hempty : positive_counts ∅).
    { intros k v. by rewrite lookup_empty. }
    destruct (read_rows_counts _ _ _ _ _ _ Hempty Hd) as [Hpos Hcounts].
    split; [|by apply get_truthy_lookup].
    rewrite Hcounts, lookup_empty.
    destruct (Z.eqb_spec (occurrences cv key reader) 0) as [->|Hne]; [done|].
    pose proof (occurrences_nonneg cv key reader). split; [lia | done].
Qed.

Example process_csvfile_example :
  process_csvfile reader_example (cv_example 1 1) = (4%nat, Ok table_example).
Proof. vm_compute. reflexivity. Qed.

Lemma process_csvfile_counts_witness :
  (∃ line_num cpsdict,
     process_csvfile reader_example (cv_example 1 1) = (line_num, Ok cpsdict))
  ∧ (match table_example !! "20240101000000" with
     | Some v =>
       1 <= v ∧ v = occurrences (cv_example 1 1) "20240101000000" reader_example
     | None => occurrences (cv_example 1 1) "20240101000000" reader_example = 0
     end
     ∧ (get_truthy table_example "20240101000000" = true
        ↔ is_Some (table_example !! "20240101000000"))).
Proof.
  split.
  - apply (proj1 (process_csvfile_counts (cv_example 1 1) reader_example)).
    repeat constructor.
    + exists 2%nat, (row_example "2024/01/01 00:00:00"), (Some "20240101000000").
      split; [reflexivity | vm_compute; reflexivity].
    + exists 3%nat, (row_example "2024/01/01 00:00:00"), (Some "20240101000000").
      split; [reflexivity | vm_compute; reflexivity].
    + exists 4%nat, (row_example "2024/01/01 00:00:01"), (Some "20240101000001").
      split; [reflexivity | vm_compute; reflexivity].
  - apply (proj2 (process_csvfile_counts (cv_example 1 1) reader_example)
             4%nat table_example).
    vm_compute; reflexivity.
Defined.

(** ** Errors of a run *)

(** C6 fails on the code — A surviving row whose start time does not
    parse ends the run with a [ValueError] that no handler takes: it
    names neither the file nor the line. A structurally broken record or
    an undecodable one at the same place is reported with both. *)
Theorem unparsable_start_time_not_located :
  main (cv_example 1 1) (Opened [RowAt 2 (row_example "2024-01-01 00:00:00")])
  = IO [] (Raise ValueError)
  ∧ main (cv_example 1 1) (Opened [CsvErrorAt 2 "line contains NUL"])
    = IO [] (Raise (SystemExit (ErrLocated "log.csv" 2 "line contains NUL")))
  ∧ main (cv_example 1 1) (Opened [DecodeErrorAt 2 "invalid start byte"])
    = IO [] (Raise (SystemExit (ErrLocated "log.csv" 2 "invalid start byte"))).
Proof. vm_compute. auto. Qed.

Lemma main_Opened cv reader line_num cpsdict out returned :
  process_csvfile reader cv = (line_num, Ok cpsdict) →
  evaluate_cpsdict cpsdict cv = IO out (Ok returned) →
  main cv (Opened reader)
  = match result (print_results returned cv) with
    | Raise (UnicodeDecodeError detail) =>
      IO (out ++ printed (print_results returned cv))
         (Raise (SystemExit (ErrLocated (filename cv) line_num detail)))
    | Raise (FileNotFoundError detail) | Raise (PermissionError detail) =>
      IO (out ++ printed (print_results returned cv))
         (Raise (SystemExit (ErrOS detail)))
    | r => IO (out ++ printed (print_results returned cv)) r
    end.
Proof.
  intros Hd Hs. unfold main. rewrite Hd, lift_Ok_bind, Hs, IO_Ok_bind.
  cbn [result printed].
  destruct (result (print_results returned cv)) as [[]|[]]; reflexivity.
Qed.

(** C7, as stated, fails — A log with two surviving rows one second
    apart, read with an interval of 3 and bounds 0 and 10000, gives
    exactly one sample: the run prints the header line of the summary and
    only then ends with the insufficient-sample message. *)
Lemma one_sample_prints_header :
  main (cv_example 3 0)
       (Opened reader_two)
  = IO [LStatsFor "interface=eth0" "all"] (Raise (SystemExit ErrTwoPoints)).
Proof. vm_compute. reflexivity. Qed.

(** C7 — For every run that reaches the samples: with exactly one sample
    retained, the header line of the summary is printed, then the run
    ends with the insufficient-sample message, before any line of
    statistics or thresholds; with no sample retained, the run ends
    normally and prints no line of summary. *)
Theorem main_few_samples cv reader line_num cpsdict out returned :
  process_csvfile reader cv = (line_num, Ok cpsdict) →
  evaluate_cpsdict cpsdict cv = IO out (Ok returned) →
  (∀ sample, returned = Some [sample] →
     main cv (Opened reader)
     = IO (out ++ [LStatsFor (header_of cv) (protocol cv)])
          (Raise (SystemExit ErrTwoPoints)))
  ∧ (samples_of returned = [] → main cv (Opened reader) = IO out (Ok ())).
Proof.
  intros Hd Hs. rewrite (main_Opened _ _ _ _ _ _ Hd Hs). split.
  - intros sample ->. reflexivity.
  - intros Hnone.
    assert (Hprint : print_results returned cv = IO [] (Ok ())).
    { destruct returned as [[|? ?]|]; [reflexivity | discriminate | reflexivity]. }
    rewrite Hprint. cbn. by rewrite app_nil_r.
Qed.

Lemma main_few_samples_witness :
  main (cv_example 3 0) (Opened reader_two)
  = IO ([] ++ [LStatsFor (header_of (cv_example 3 0))
                         (protocol (cv_example 3 0))])
       (Raise (SystemExit ErrTwoPoints))
  ∧ main (cv_example 1 1) (Opened reader_two) = IO [] (Ok ()).
Proof.
  split.
  - assert (Hd : process_csvfile reader_two (cv_example 3 0)
                 = (3%nat, Ok counts_example)) by (vm_compute; reflexivity).
    assert (Hs : evaluate_cpsdict counts_example (cv_example 3 0)
                 = IO [] (Ok (Some [two_thirds]))) by (vm_compute; reflexivity).
    apply (proj1 (main_few_samples (cv_example 3 0) reader_two 3%nat
                    counts_example [] (Some [two_thirds]) Hd Hs) two_thirds).
    reflexivity.
  - assert (Hd : process_csvfile reader_two (cv_example 1 1)
                 = (3%nat, Ok counts_example)) by (vm_compute; reflexivity).
    assert (Hs : evaluate_cpsdict counts_example (cv_example 1 1)
                 = IO [] (Ok (Some []))) by (vm_compute; reflexivity).
    apply (proj2 (main_few_samples (cv_example 1 1) reader_two 3%nat
                    counts_example [] (Some []) Hd Hs)).
    reflexivity.
Defined.

(** ** Statistics and thresholds *)

(** *** Fractions *)

Lemma Fraction_new_parts n d :
  d ≠ 0 →
  ∃ g n' d', g ≠ 0 ∧ n = n' * g ∧ d = d' * g ∧ 0 < d' ∧ Z.gcd n' d' = 1
             ∧ Fraction_new n d = {| numerator := n'; denominator := d' |}.
Proof.
  intros Hd. unfold Fraction_new.
  pose proof (Z.gcd_nonneg n d) as Hg0.
  assert (Hg : Z.gcd n d ≠ 0) by (intros H; apply Z.gcd_eq_0_r in H; lia).
  pose proof (Z.gcd_div_gcd n d (Z.gcd n d) Hg eq_refl) as Hcop.
  destruct (Z.gcd_divide_l n d) as [n' Hn].
  destruct (Z.gcd_divide_r n d) as [d' Hd'].
  set (g := Z.gcd n d) in *.
  assert (Hng : n / g = n') by (symmetry; apply Z.div_unique_exact; lia).
  assert (Hdg : d / g = d') by (symmetry; apply Z.div_unique_exact; lia).
  rewrite Hng, Hdg in Hcop.
  destruct (Z.ltb_spec d 0) as [Hneg|Hpos].
  - exists (- g), (- n'), (- d'). split; [lia|]. split; [lia|]. split; [lia|].
    split; [nia|]. split; [by rewrite Z.gcd_opp_l, Z.gcd_opp_r|].
    f_equal; symmetry; apply Z.div_unique_exact; lia.
  - exists g, n', d'. split; [lia|]. split; [lia|]. split; [lia|].
    split; [nia|]. split; [done|]. by rewrite Hng, Hdg.
Qed.

Lemma Fraction_new_lowest_terms n d : d ≠ 0 → lowest_terms (Fraction_new n d).
Proof.
  intros Hd.
  destruct (Fraction_new_parts n d Hd) as (g & n' & d' & _ & _ & _ & ? & ? & ->).
  by split.
Qed.

Lemma Fraction_new_to_R n d :
  d ≠ 0 → Fraction_to_R (Fraction_new n d) = (IZR n / IZR d)%R.
Proof.
  intros Hd.
  destruct (Fraction_new_parts n d Hd)
    as (g & n' & d' & Hg & -> & -> & Hd' & _ & ->).
  unfold Fraction_to_R; cbn [numerator denominator].
  rewrite !mult_IZR. field. split; apply not_0_IZR; lia.
Qed.

(** The operations on fractions in lowest terms give fractions in lowest
    terms, with the value of the operation. *)
Lemma Fraction_of_int_spec n :
  lowest_terms (Fraction_of_int n) ∧ Fraction_to_R (Fraction_of_int n) = IZR n.
Proof.
  unfold lowest_terms, Fraction_to_R, Fraction_of_int; cbn [numerator denominator].
  split; [split; [lia | apply Z.gcd_1_r] | field].
Qed.

Lemma Fraction_add_spec a b :
  lowest_terms a → lowest_terms b →
  lowest_terms (Fraction_add a b)
  ∧ Fraction_to_R (Fraction_add a b) = (Fraction_to_R a + Fraction_to_R b)%R.
Proof.
  intros [Ha _] [Hb _]. unfold Fraction_add.
  assert (denominator a * denominator b ≠ 0) by nia.
  split; [by apply Fraction_new_lowest_terms|].
  rewrite Fraction_new_to_R by done. unfold Fraction_to_R.
  rewrite plus_IZR, !mult_IZR. field. split; apply not_0_IZR; lia.
Qed.

Lemma Fraction_sub_spec a b :
  lowest_terms a → lowest_terms b →
  lowest_terms (Fraction_sub a b)
  ∧ Fraction_to_R (Fraction_sub a b) = (Fraction_to_R a - Fraction_to_R b)%R.
Proof.
  intros [Ha _] [Hb _]. unfold Fraction_sub.
  assert (denominator a * denominator b ≠ 0) by nia.
  split; [by apply Fraction_new_lowest_terms|].
  rewrite Fraction_new_to_R by done. unfold Fraction_to_R.
  rewrite minus_IZR, !mult_IZR. field. split; apply not_0_IZR; lia.
Qed.

Lemma Fraction_mul_spec a b :
  lowest_terms a → lowest_terms b →
  lowest_terms (Fraction_mul a b)
  ∧ Fraction_to_R (Fraction_mul a b) = (Fraction_to_R a * Fraction_to_R b)%R.
Proof.
  intros [Ha _] [Hb _]. unfold Fraction_mul.
  assert (denominator a * denominator b ≠ 0) by nia.
  split; [by apply Fraction_new_lowest_terms|].
  rewrite Fraction_new_to_R by done. unfold Fraction_to_R.
  rewrite !mult_IZR. field. split; apply not_0_IZR; lia.
Qed.

Lemma Fraction_div_int_spec a n :
  lowest_terms a → n ≠ 0 →
  lowest_terms (Fraction_div_int a n)
  ∧ Fraction_to_R (Fraction_div_int a n) = (Fraction_to_R a / IZR n)%R.
Proof.
  intros [Ha _] Hn. unfold Fraction_div_int.
  assert (denominator a * n ≠ 0) by nia.
  split; [by apply Fraction_new_lowest_terms|].
  rewrite Fraction_new_to_R by done. unfold Fraction_to_R.
  rewrite !mult_IZR. field. split; apply not_0_IZR; lia.
Qed.

(** A fraction in lowest terms is the only one with its value. *)
Lemma lowest_terms_unique a b :
  lowest_terms a → lowest_terms b → Fraction_to_R a = Fraction_to_R b → a = b.
Proof.
  destruct a as [na da], b as [nb db]. unfold lowest_terms, Fraction_to_R.
  cbn [numerator denominator]. intros [Hda Hga] [Hdb Hgb] Heq.
  assert (Hcross : na * db = nb * da).
  { apply eq_IZR. rewrite !mult_IZR.
    assert (IZR da ≠ 0%R) by (apply not_0_IZR; lia).
    assert (IZR db ≠ 0%R) by (apply not_0_IZR; lia).
    apply (Rmult_eq_reg_r (/ IZR da * / IZR db)).
    - transitivity (IZR na / IZR da)%R; [field; done|].
      rewrite Heq. field. done.
    - apply Rmult_integral_contrapositive_currified; by apply Rinv_neq_0_compat. }
  assert (Hab : (da | db)).
  { apply (Z.gauss da na db); [|by rewrite Z.gcd_comm].
    exists nb. lia. }
  assert (Hba : (db | da)).
  { apply (Z.gauss db nb da); [|by rewrite Z.gcd_comm].
    exists na. lia. }
  assert (da = db) by (apply Z.divide_antisym_nonneg; [lia | lia | done | done]).
  subst db. f_equal. nia.
Qed.

(** The ratio of a float that is a number is its value. *)
Lemma as_integer_ratio_finite x :
  finite x →
  ∃ r, as_integer_ratio x = Some r ∧ lowest_terms r
       ∧ Fraction_to_R r = float_to_R x.
Proof.
  intros [s|s m e]; cbn [as_integer_ratio float_to_R].
  - eexists. split; [done|]. destruct (Fraction_of_int_spec 0) as [? ->]. done.
  - eexists. split; [done|]. destruct (Z.leb_spec 0 e) as [He|He].
    + destruct (Fraction_of_int_spec ((if s then Z.neg m else Z.pos m) * 2 ^ e))
        as [? ->]. split; [done|]. by rewrite mult_IZR.
    + assert (2 ^ (- e) ≠ 0) by (apply Z.pow_nonzero; lia).
      split; [by apply Fraction_new_lowest_terms|].
      by rewrite Fraction_new_to_R.
Qed.

(** *** Sums *)

Lemma sum_of_exact (term : Fraction → Fraction) (value : R → R) data :
  (∀ r, lowest_terms r →
        lowest_terms (term r) ∧ Fraction_to_R (term r) = value (Fraction_to_R r)) →
  Forall finite data →
  ∃ total, sum_of term data = Exact total ∧ lowest_terms total
           ∧ Fraction_to_R total = Rsum (map value (map float_to_R data)).
Proof.
  intros Hterm Hfin. unfold sum_of.
  assert (Hnone : List.filter is_special data = []).
  { induction Hfin as [|x data Hx _ IH]; [done|]. cbn [List.filter].
    unfold is_special at 1.
    destruct (as_integer_ratio_finite x Hx) as (r & -> & _). exact IH. }
  rewrite Hnone. eexists. split; [done|].
  assert (Hacc : ∀ acc, lowest_terms acc →
    let total := fold_left
      (fun acc x => match as_integer_ratio x with
                    | Some r => Fraction_add acc (term r)
                    | None => acc
                    end) data acc in
    lowest_terms total
    ∧ Fraction_to_R total
      = (Fraction_to_R acc + Rsum (map value (map float_to_R data)))%R).
  { clear Hnone. induction Hfin as [|x data Hx _ IH]; intros acc Hacc;
      cbn [fold_left map Rsum fold_right].
    - split; [done | lra].
    - destruct (as_integer_ratio_finite x Hx) as (r & -> & Hr & Hv).
      destruct (Hterm r Hr) as [Ht Htv].
      destruct (Fraction_add_spec acc (term r) Hacc Ht) as [Hs Hsv].
      destruct (IH _ Hs) as [Hl Hval]. split; [done|].
      rewrite Hval, Hsv, Htv, Hv. unfold Rsum. lra. }
  destruct (Hacc (Fraction_of_int 0)) as [Hl Hv];
    [apply Fraction_of_int_spec|].
  split; [done|]. rewrite Hv. destruct (Fraction_of_int_spec 0) as [_ ->]. lra.
Qed.

Lemma Rsum_squared_deviations c data :
  squared_deviations c data
  = (Rsum (map (fun x => x * x) data) - 2 * c * Rsum data
     + INR (length data) * c * c)%R.
Proof.
  unfold squared_deviations, Rsum.
  induction data as [|x data IH]; [cbn; lra|].
  cbn [map fold_right length]. rewrite IH, S_INR. lra.
Qed.

(** *** The maximum *)

(** The comparison of floats that are numbers is a total preorder; the
    cases are those of the signs, the exponents and the mantissas. *)
Ltac float_order :=
  unfold float_gt; cbn [SFcompare];
  repeat match goal with s : bool |- _ => destruct s end;
  try done;
  change (Pos.compare_cont Eq) with Pos.compare;
  repeat match goal with
         | |- context [?a ?= ?b] =>
           destruct (Z.compare_spec a b); try lia; try done
         end;
  subst;
  repeat match goal with
         | |- context [(?a ?= ?b)%positive] =>
           destruct (Pos.compare_spec a b); try lia; try done
         end.

Lemma float_gt_irrefl x : float_gt x x = false.
Proof. destruct x as [s|s| |s m e]; float_order. Qed.

Lemma float_gt_below x y z :
  finite x → finite y → finite z →
  float_gt y x = true → float_gt y z = false → float_gt x z = false.
Proof. intros [sx|sx mx ex] [sy|sy my ey] [sz|sz mz ez]; float_order. Qed.

Lemma float_gt_chain x y z :
  finite x → finite y → finite z →
  float_gt y x = false → float_gt x z = false → float_gt y z = false.
Proof. intros [sx|sx mx ex] [sy|sy my ey] [sz|sz mz ez]; float_order. Qed.

Lemma max_of_maximum x data :
  Forall finite (x :: data) →
  is_maximum
    (fold_left (fun cur item => if float_gt item cur then item else cur) data x)
    (x :: data).
Proof.
  revert x. induction data as [|y data IH]; intros x Hfin; cbn [fold_left].
  - split; [by left|]. intros z [<-|[]]. apply float_gt_irrefl.
  - apply Forall_cons in Hfin as [Hx Hfin].
    apply Forall_cons in Hfin as [Hy Hfin].
    set (cur := if float_gt y x then y else x).
    assert (Hcur : finite cur) by (unfold cur; by destruct (float_gt y x)).
    destruct (IH cur) as [Hin Hmax]; [by constructor|].
    set (peak := fold_left _ data cur) in *.
    assert (Hpeak : finite peak).
    { apply (proj1 (List.Forall_forall finite (cur :: data)));
        [by constructor | done]. }
    pose proof (Hmax cur (or_introl eq_refl)) as Hhead.
    split.
    + destruct Hin as [Heq|Hin]; [|by right; right].
      rewrite <- Heq. unfold cur.
      destruct (float_gt y x); [right; by left | by left].
    + intros z [<-|[<-|Hz]]; [| |apply Hmax; by right].
      * unfold cur in Hhead. destruct (float_gt y x) eqn:Hyx; [|done].
        by apply (float_gt_below x y peak).
      * unfold cur in Hhead. destruct (float_gt y x) eqn:Hyx; [done|].
        by apply (float_gt_chain x y peak).
Qed.

(** *** The summary *)

Lemma evaluate_cpsdict_finite cpsdict cv out samples :
  evaluate_cpsdict cpsdict cv = IO out (Ok (Some samples)) →
  Forall finite samples.
Proof.
  unfold evaluate_cpsdict. case_bool_decide as Hempty; [discriminate|].
  intros H.
  apply io_bind_Ok_inv in H as (? & interval_td & ? & _ & H1 & _).
  destruct (sorted cpsdict) as [|first_key keys]; [discriminate|].
  apply io_bind_Ok_inv in H1 as (? & first_ts & ? & _ & H2 & _).
  apply io_bind_Ok_inv in H2 as (? & first_count & ? & _ & H3 & _).
  apply io_bind_Ok_inv in H3 as (? & st & ? & Hloop & H4 & _).
  apply io_bind_Ok_inv in H4 as (? & cpslist' & ? & Hrow & H5 & _).
  injection H5 as _ <-.
  assert (Hstep : ∀ count cps, int_truediv count (interval cv) = Ok cps →
                  1 < count → in_bounds cv cps → finite cps).
  { intros count cps Hcps _ _. by apply (int_truediv_finite _ _ _ Hcps). }
  assert (Hfor : ∀ keys st out st',
    Forall finite (cpslist st) →
    for_each (loop_body cpsdict cv interval_td) st keys = IO out (Ok st') →
    Forall finite (cpslist st')).
  { clear -Hstep. induction keys as [|key keys IH]; intros st out st' Hall; cbn.
    - by intros [= _ <-].
    - intros H. apply io_bind_Ok_inv in H as (? & st1 & ? & Hbody & H1 & _).
      eapply IH; [|exact H1]. revert Hbody. unfold loop_body. intros H.
      apply io_bind_Ok_inv in H as (? & ts & ? & _ & H2 & _).
      apply io_bind_Ok_inv in H2 as (? & delta & ? & _ & H3 & _).
      apply io_bind_Ok_inv in H3 as (? & half & ? & _ & H4 & _).
      destruct (timedelta_le delta half).
      + by injection H4 as _ <-.
      + apply io_bind_Ok_inv in H4 as (? & cpslist' & ? & Hrow & H5 & _).
        apply io_bind_Ok_inv in H5 as (? & count' & ? & _ & H6 & _).
        injection H6 as _ <-. cbn [cpslist].
        eapply evaluate_row_Forall; [|exact Hall|exact Hrow]. apply Hstep. }
  eapply evaluate_row_Forall; [apply Hstep| |exact Hrow].
  eapply Hfor; [|exact Hloop]. constructor.
Qed.

Lemma exact_mean_fraction data :
  Forall finite data → data ≠ [] →
  ∃ sx, sum_of (fun r => r) data = Exact sx ∧ lowest_terms sx
        ∧ Fraction_to_R sx = Rsum (map float_to_R data)
        ∧ lowest_terms (Fraction_div_int sx (Z.of_nat (length data)))
        ∧ Fraction_to_R (Fraction_div_int sx (Z.of_nat (length data)))
          = exact_mean data.
Proof.
  intros Hfin Hne.
  destruct (sum_of_exact (fun r => r) (fun x => x) data) as (sx & Hsx & Hl & Hv);
    [done | done |].
  rewrite map_id in Hv.
  assert (Hn : Z.of_nat (length data) ≠ 0) by (destruct data; [done | cbn; lia]).
  destruct (Fraction_div_int_spec sx _ Hl Hn) as [Hl' Hv'].
  exists sx. split; [done|]. split; [done|]. split; [done|]. split; [done|].
  rewrite Hv', Hv. unfold exact_mean. by rewrite INR_IZR_INZ.
Qed.

Lemma exact_variance_fraction data sx :
  Forall finite data → (2 <= length data)%nat →
  lowest_terms sx → Fraction_to_R sx = Rsum (map float_to_R data) →
  let n := Z.of_nat (length data) in
  ∃ sxx, sum_of (fun r => Fraction_mul r r) data = Exact sxx
    ∧ let ssd := Fraction_div_int
                   (Fraction_sub (Fraction_mul (Fraction_of_int n) sxx)
                                 (Fraction_mul sx sx)) n in
      let mss := Fraction_div_int ssd (n - 1) in
      lowest_terms mss ∧ Fraction_to_R mss = exact_variance data.
Proof.
  intros Hfin Hlen Hl Hv n.
  destruct (sum_of_exact (fun r => Fraction_mul r r) (fun x => (x * x)%R) data)
    as (sxx & Hsxx & Hlxx & Hvxx); [|done|].
  { intros r Hr. by apply Fraction_mul_spec. }
  exists sxx. split; [done|]. cbv zeta.
  assert (Hn : n ≠ 0) by (unfold n; lia).
  assert (Hn1 : n - 1 ≠ 0) by (unfold n; lia).
  destruct (Fraction_of_int_spec n) as [Hln Hvn].
  destruct (Fraction_mul_spec _ _ Hln Hlxx) as [Hl1 Hv1].
  destruct (Fraction_mul_spec _ _ Hl Hl) as [Hl2 Hv2].
  destruct (Fraction_sub_spec _ _ Hl1 Hl2) as [Hl3 Hv3].
  destruct (Fraction_div_int_spec _ n Hl3 Hn) as [Hl4 Hv4].
  destruct (Fraction_div_int_spec _ (n - 1) Hl4 Hn1) as [Hl5 Hv5].
  split; [done|].
  rewrite Hv5, Hv4, Hv3, Hv2, Hv1, Hvn, Hv, Hvxx.
  unfold exact_variance, exact_mean.
  rewrite Rsum_squared_deviations, length_map, INR_IZR_INZ. fold n.
  rewrite minus_IZR.
  assert (IZR n ≠ 0%R) by (by apply not_0_IZR).
  assert ((IZR n - 1)%R ≠ 0%R).
  { rewrite <- minus_IZR. by apply not_0_IZR. }
  field. done.
Qed.

(** What [print_stats] does on at least two samples that are numbers. *)
Lemma print_stats_exact cpslist header :
  Forall finite cpslist → (2 <= length cpslist)%nat →
  ∃ peak m v,
    is_maximum peak cpslist
    ∧ lowest_terms m ∧ Fraction_to_R m = exact_mean cpslist
    ∧ lowest_terms v ∧ Fraction_to_R v = exact_variance cpslist
    ∧ print_stats cpslist header
      = (mean ← lift (float_of_Fraction m);
         stdev ← lift (float_sqrt_of_frac (numerator v) (denominator v));
         IO [LMax header peak; LAvg header mean; LStdev header stdev;
             LSuggested; LAlert (fadd mean stdev);
             LActivate (fmul float_1_1 peak);
             LMaxThreshold (fmul (fmul float_1_1 float_1_1) peak)] (Ok ())).
Proof.
  intros Hfin Hlen.
  destruct (exact_mean_fraction cpslist Hfin) as (sx & Hsx & Hl & Hv & Hlm & Hvm).
  { intros ->. cbn in Hlen. lia. }
  destruct (exact_variance_fraction cpslist sx Hfin Hlen Hl Hv)
    as (sxx & Hsxx & Hlv & Hvv).
  destruct cpslist as [|a [|b l]]; [cbn in Hlen; lia..|].
  set (data := a :: b :: l) in *.
  set (n := Z.of_nat (length data)) in *.
  pose proof (max_of_maximum a (b :: l) Hfin) as Hmax.
  eexists _, _, _. split; [exact Hmax|].
  split; [exact Hlm|]. split; [exact Hvm|].
  split; [exact Hlv|]. split; [exact Hvv|].
  assert (Hn1 : (n <? 1) = false)
    by (apply Z.ltb_ge; unfold n, data; cbn [length]; lia).
  assert (Hn2 : (n <? 2) = false)
    by (apply Z.ltb_ge; unfold n, data; cbn [length]; lia).
  assert (Hmean : statistics_mean data
                  = float_of_Fraction (Fraction_div_int sx n)).
  { unfold statistics_mean. fold n. by rewrite Hn1, Hsx. }
  assert (Hstdev : statistics_stdev data
    = let mss := Fraction_div_int
                   (Fraction_div_int
                      (Fraction_sub (Fraction_mul (Fraction_of_int n) sxx)
                                    (Fraction_mul sx sx)) n) (n - 1) in
      float_sqrt_of_frac (numerator mss) (denominator mss)).
  { unfold statistics_stdev. fold n. by rewrite Hn2, Hsx, Hsxx. }
  change (print_stats data header)
    with (mean ← lift (statistics_mean data);
          stdev ← lift (statistics_stdev data);
          peak ← lift (max_of data);
          _ ← print (LMax header peak);
          _ ← print (LAvg header mean);
          _ ← print (LStdev header stdev);
          peak ← lift (max_of data);
          print_thresholds peak mean stdev).
  rewrite Hmean, Hstdev. cbv zeta.
  destruct (float_of_Fraction _) as [mean|e]; [|reflexivity].
  rewrite !lift_Ok_bind.
  destruct (float_sqrt_of_frac _ _) as [stdev|e]; [|reflexivity].
  rewrite !lift_Ok_bind. reflexivity.
Qed.

Lemma sqrt_two_nearest :
  (float_to_R sqrt_two - / 2 ^ 53 < sqrt 2 < float_to_R sqrt_two + / 2 ^ 53)%R.
Proof.
  unfold float_to_R, sqrt_two. cbn [Z.leb Z.compare Z.opp].
  change (2 ^ (- (-52))) with 4503599627370496.
  replace (2 ^ 53)%R with 9007199254740992%R by (simpl; lra).
  split.
  - apply Rsqr_incrst_0; [|lra|apply sqrt_pos].
    rewrite Rsqr_sqrt by lra. unfold Rsqr. lra.
  - apply Rsqr_incrst_0; [|apply sqrt_pos|lra].
    rewrite Rsqr_sqrt by lra. unfold Rsqr. lra.
Qed.

(** *** Quotients that do not overflow *)

Lemma digits2_pos_size p : digits2_pos p = Pos.size p.
Proof. induction p as [p IH|p IH|]; cbn; congruence. Qed.

Lemma Zdigits2_nonneg m : 0 <= Zdigits2 m.
Proof. destruct m; cbn; lia. Qed.

Lemma Zdigits2_gt m : 0 <= m → m < 2 ^ Zdigits2 m.
Proof.
  destruct m as [|p|p]; [cbn; lia | | lia]. intros _. cbn [Zdigits2].
  rewrite digits2_pos_size. pose proof (Pos.size_gt p) as H.
  apply Pos2Z.pos_lt_pos in H. by rewrite Pos2Z.inj_pow in H.
Qed.

Lemma Zdigits2_le m k : 0 <= m → 0 <= k → m < 2 ^ k → Zdigits2 m <= k.
Proof.
  destruct m as [|p|p]; [cbn; lia | | lia]. intros _ Hk Hm. cbn [Zdigits2].
  rewrite digits2_pos_size. pose proof (Pos.size_le p) as H.
  apply Pos2Z.pos_le_pos in H. rewrite Pos2Z.inj_pow in H.
  assert (Hlt : 2 ^ Z.pos (Pos.size p) < 2 ^ (k + 1)).
  { rewrite Z.pow_add_r by lia. lia. }
  apply Z.pow_lt_mono_r_iff in Hlt; lia.
Qed.

Lemma shr_1_div2 mrs : 0 <= shr_m mrs → shr_m (shr_1 mrs) = shr_m mrs / 2.
Proof.
  destruct mrs as [m r s]. cbn [shr_m]. intros Hm.
  destruct m as [|[p|p|]|p]; cbn [shr_1 shr_m]; [done| | |done|lia].
  - rewrite Pos2Z.inj_xI. apply Z.div_unique with 1; lia.
  - rewrite Pos2Z.inj_xO. apply Z.div_unique with 0; lia.
Qed.

Lemma iter_pos_shr_m p mrs :
  0 <= shr_m mrs →
  shr_m (SpecFloat.iter_pos shr_1 p mrs) = shr_m mrs / 2 ^ Z.pos p.
Proof.
  revert mrs. induction p as [p IH|p IH|]; intros mrs Hm; cbn [SpecFloat.iter_pos].
  - rewrite IH by (apply iter_pos_nonneg, shr_1_nonneg, Hm).
    rewrite IH by (apply shr_1_nonneg, Hm). rewrite shr_1_div2 by done.
    assert (0 < 2 ^ Z.pos p) by (apply Z.pow_pos_nonneg; lia).
    rewrite !Z.div_div by lia. f_equal.
    replace (Z.pos p~1) with (Z.pos p + Z.pos p + 1) by lia.
    rewrite !Z.pow_add_r by lia. ring.
  - rewrite IH by (apply iter_pos_nonneg, Hm). rewrite IH by done.
    assert (0 < 2 ^ Z.pos p) by (apply Z.pow_pos_nonneg; lia).
    rewrite !Z.div_div by lia. f_equal.
    replace (Z.pos p~0) with (Z.pos p + Z.pos p) by lia.
    rewrite !Z.pow_add_r by lia. ring.
  - by rewrite shr_1_div2.
Qed.

(** What [shr_fexp] leaves: a mantissa below [2 ^ 53] and the exponent
    of the format. *)
Lemma shr_fexp_spec m e l :
  0 <= m →
  0 <= shr_m (fst (shr_fexp 53 1024 m e l)) < 2 ^ 53
  ∧ snd (shr_fexp 53 1024 m e l) = Z.max e (fexp 53 1024 (Zdigits2 m + e)).
Proof.
  intros Hm. pose proof (shr_fexp_nonneg m e l Hm) as Hnonneg.
  pose proof (Zdigits2_gt m Hm) as Hd. pose proof (Zdigits2_nonneg m) as Hd0.
  unfold shr_fexp, shr in *.
  assert (Hrec : shr_m (shr_record_of_loc m l) = m) by (by destruct l as [|[]]).
  assert (Hfexp : Zdigits2 m + e - 53 <= fexp 53 1024 (Zdigits2 m + e))
    by (unfold fexp; lia).
  destruct (fexp 53 1024 (Zdigits2 m + e) - e) as [|n|n] eqn:Hn;
    cbn [fst snd] in *.
  - split; [|lia]. rewrite Hrec. split; [done|].
    apply Z.lt_le_trans with (2 ^ Zdigits2 m); [done|].
    apply Z.pow_le_mono_r; lia.
  - split; [|lia]. split; [done|].
    rewrite iter_pos_shr_m, Hrec by (rewrite Hrec; done).
    apply Z.div_lt_upper_bound; [lia|].
    rewrite <- Z.pow_add_r by lia.
    apply Z.lt_le_trans with (2 ^ Zdigits2 m); [done|].
    apply Z.pow_le_mono_r; lia.
  - split; [|lia]. rewrite Hrec. split; [done|].
    apply Z.lt_le_trans with (2 ^ Zdigits2 m); [done|].
    apply Z.pow_le_mono_r; lia.
Qed.

Lemma binary_round_aux_finite sx mx ex lx :
  0 <= mx → ex <= 970 → Zdigits2 mx + ex <= 1023 →
  ∀ s, binary_round_aux 53 1024 sx mx ex lx ≠ S754_infinity s.
Proof.
  intros Hm He Hd s. unfold binary_round_aux.
  destruct (shr_fexp_spec mx ex lx Hm) as [H1 E1].
  destruct (shr_fexp 53 1024 mx ex lx) as [mrs' e']. cbn [fst snd] in H1, E1.
  set (m1 := round_nearest_even (shr_m mrs') (loc_of_shr_record mrs')).
  assert (H2 : 0 <= m1 <= 2 ^ 53).
  { unfold m1, round_nearest_even.
    destruct (loc_of_shr_record mrs') as [|[]]; try destruct (Z.even _); lia. }
  destruct (shr_fexp_spec m1 e' loc_Exact) as [H3 E2]; [lia|].
  destruct (shr_fexp 53 1024 m1 e' loc_Exact) as [mrs'' e''].
  cbn [fst snd] in H3, E2.
  assert (Hd1 : Zdigits2 m1 <= 54).
  { apply Zdigits2_le; [lia | lia |].
    change (2 ^ 54) with (2 * 2 ^ 53). lia. }
  assert (He'' : e'' <= 971).
  { subst e'' e'. unfold fexp, emin. lia. }
  destruct (shr_m mrs''); [done| |done].
  apply Z.leb_le in He''. change (1024 - 53) with 971. by rewrite He''.
Qed.

Lemma SFdiv_core_binary_bound m1 m2 mz ez lz :
  SFdiv_core_binary 53 1024 (Z.pos m1) 0 (Z.pos m2) 0 = (mz, ez, lz) →
  Z.pos m1 < 2 ^ 1023 * Z.pos m2 →
  0 <= mz ∧ ez <= 0 ∧ Zdigits2 mz + ez <= 1023.
Proof.
  intros Hcore Hlt.
  pose proof (SFdiv_core_binary_nonneg _ _ _ _ _ Hcore) as Hmz.
  revert Hcore. unfold SFdiv_core_binary.
  set (e' := Z.min _ _).
  assert (He' : e' <= 0) by (unfold e'; lia).
  set (m' := match 0 - 0 - e' with 0 => Z.pos m1 | Z.pos _ => _ | Z.neg _ => 0 end).
  assert (Hm' : m' = Z.pos m1 * 2 ^ (- e')).
  { unfold m'. destruct (0 - 0 - e') as [|p|p] eqn:Hs; [| |lia].
    - replace (- e') with 0 by lia. lia.
    - rewrite Z.shiftl_mul_pow2 by lia. do 2 f_equal. lia. }
  pose proof (Z.div_eucl_eq m' (Z.pos m2) ltac:(lia)) as Heq.
  pose proof (Z.mod_pos_bound m' (Z.pos m2) ltac:(lia)) as Hmod.
  unfold Z.modulo in Hmod.
  destruct (Z.div_eucl m' (Z.pos m2)) as [q r].
  intros [= <- <- _]. split; [done|]. split; [done|].
  assert (Hq : q < 2 ^ (1023 - e')).
  { replace (1023 - e') with (1023 + - e') by lia.
    rewrite Z.pow_add_r by lia.
    assert (0 < 2 ^ (- e')) by (apply Z.pow_pos_nonneg; lia).
    nia. }
  pose proof (Zdigits2_le q (1023 - e') ltac:(nia) ltac:(lia) Hq). lia.
Qed.

(** An integer quotient below [2 ^ 1023] in magnitude is a float. *)
Lemma int_truediv_bounded a b :
  0 < b → Z.abs a < 2 ^ 1023 * b → ∃ q, int_truediv a b = Ok q.
Proof.
  intros Hb Ha. unfold int_truediv.
  destruct (Z.eqb_spec b 0) as [?|_]; [lia|].
  destruct a as [|a|a]; [by eexists|..]; cbn [SFdiv Z.abs Z.to_pos].
  all: destruct b as [|b|b]; [lia| |lia]; cbn [Z.abs Z.to_pos].
  all: destruct (SFdiv_core_binary _ _ _ _ _ _) as [[mz ez] lz] eqn:Hcore.
  all: destruct (SFdiv_core_binary_bound _ _ _ _ _ Hcore) as (Hmz & Hez & Hd);
    [exact Ha|].
  all: destruct (binary_round_aux _ _ _ _ _ _) eqn:Hr; try (by eexists).
  all: exfalso;
    exact (binary_round_aux_finite _ mz ez lz Hmz ltac:(lia) Hd _ Hr).
Qed.

(** *** The conversions of bounded samples *)

Lemma float_of_Fraction_bounded f :
  lowest_terms f → (Rabs (Fraction_to_R f) < IZR (2 ^ 1023))%R →
  ∃ q, float_of_Fraction f = Ok q.
Proof.
  intros [Hd _] Hb. apply int_truediv_bounded; [done|].
  apply lt_IZR. rewrite mult_IZR, abs_IZR.
  assert (Hd' : (0 < IZR (denominator f))%R) by (by apply IZR_lt).
  unfold Fraction_to_R, Rdiv in Hb.
  rewrite Rabs_mult, (Rabs_pos_eq (/ _)) in Hb
    by (apply Rlt_le, Rinv_0_lt_compat; done).
  apply (Rmult_lt_compat_r _ _ _ Hd') in Hb.
  rewrite Rmult_assoc, Rinv_l, Rmult_1_r in Hb by lra. done.
Qed.

Lemma bit_length_le n m k :
  0 <= n → 0 < m → 0 <= k → n < m * 2 ^ k →
  bit_length n <= bit_length m + k.
Proof.
  intros Hn Hm Hk Hlt. unfold bit_length.
  destruct (Z.eqb_spec m 0) as [?|_]; [lia|].
  destruct (Z.eqb_spec n 0) as [->|Hn0].
  { pose proof (Z.log2_nonneg (Z.abs m)). lia. }
  rewrite !Z.abs_eq by lia.
  destruct (Z.log2_spec n) as [Hl _]; [lia|].
  destruct (Z.log2_spec m) as [_ Hu]; [lia|].
  pose proof (Z.log2_nonneg n). pose proof (Z.log2_nonneg m).
  assert (Hpw : 2 ^ Z.log2 n < 2 ^ (Z.succ (Z.log2 m) + k)).
  { rewrite Z.pow_add_r by lia.
    assert (0 < 2 ^ k) by (apply Z.pow_pos_nonneg; lia). nia. }
  apply Z.pow_lt_mono_r_iff in Hpw; lia.
Qed.

Lemma lor_1_le a : 0 <= a → 0 <= Z.lor a 1 <= a + 1.
Proof.
  intros Ha. destruct a as [|p|p]; [change (Z.lor 0 1) with 1; lia | | lia].
  destruct p; cbv [Z.lor Pos.lor]; lia.
Qed.

Lemma integer_sqrt_of_frac_rto_bound n m k :
  0 <= n → 0 < m → 0 <= k → n < m * 2 ^ (2 * k) →
  0 <= integer_sqrt_of_frac_rto n m <= 2 ^ k.
Proof.
  intros Hn Hm Hk Hlt. unfold integer_sqrt_of_frac_rto.
  assert (Hdiv : 0 <= n / m < 2 ^ k * 2 ^ k).
  { split; [apply Z.div_pos; lia|].
    apply Z.div_lt_upper_bound; [done|].
    rewrite <- Z.pow_add_r by lia. replace (k + k) with (2 * k) by lia. done. }
  assert (Hpow : 0 < 2 ^ k) by (apply Z.pow_pos_nonneg; lia).
  pose proof (Z.sqrt_nonneg (n / m)) as Hs0.
  assert (Hs : Z.sqrt (n / m) < 2 ^ k).
  { apply Z.sqrt_lt_square; lia. }
  pose proof (lor_1_le _ Hs0) as Hlor.
  set (a := Z.sqrt (n / m)) in *.
  destruct (_ =? _); [rewrite Z.lor_0_r|]; lia.
Qed.

Lemma float_sqrt_of_frac_bounded n m :
  0 <= n → 0 < m → n < m * 2 ^ 2044 → ∃ q, float_sqrt_of_frac n m = Ok q.
Proof.
  intros Hn Hm Hlt. unfold float_sqrt_of_frac.
  pose proof (bit_length_le n m 2044 Hn Hm ltac:(lia) Hlt) as Hbl.
  set (q := (bit_length n - bit_length m - sqrt_bit_width) / 2).
  assert (Hq : q <= 1022).
  { unfold q, sqrt_bit_width. Z.div_mod_to_equations. lia. }
  destruct (Z.leb_spec 0 q) as [Hq0|Hq0].
  - rewrite !Z.shiftl_mul_pow2 by lia.
    assert (Hm' : 0 < m * 2 ^ (2 * q))
      by (apply Z.mul_pos_pos; [done | apply Z.pow_pos_nonneg; lia]).
    destruct (integer_sqrt_of_frac_rto_bound n (m * 2 ^ (2 * q)) (1022 - q))
      as [Ha0 Ha]; [done | done | lia | |].
    { rewrite <- Z.mul_assoc, <- Z.pow_add_r by lia.
      replace (2 * q + 2 * (1022 - q)) with 2044 by lia. done. }
    apply int_truediv_bounded; [lia|].
    assert (Hpq : 0 < 2 ^ q) by (apply Z.pow_pos_nonneg; lia).
    rewrite Z.abs_eq by nia.
    apply Z.le_lt_trans with (2 ^ (1022 - q) * 2 ^ q); [nia|].
    rewrite <- Z.pow_add_r by lia. replace (1022 - q + q) with 1022 by lia.
    change (2 ^ 1023 * 1) with (2 ^ 1023).
    apply Z.pow_lt_mono_r; lia.
  - rewrite !Z.shiftl_mul_pow2 by lia. rewrite Z.mul_1_l.
    assert (Hpq : 0 < 2 ^ (- q)) by (apply Z.pow_pos_nonneg; lia).
    destruct (integer_sqrt_of_frac_rto_bound (n * 2 ^ (- 2 * q)) m (1022 - q))
      as [Ha0 Ha]; [ | done | lia | |].
    { apply Z.mul_nonneg_nonneg; [done | apply Z.pow_nonneg; lia]. }
    { replace (2 * (1022 - q)) with (2044 + - 2 * q) by lia.
      rewrite Z.pow_add_r by lia.
      assert (0 < 2 ^ (- 2 * q)) by (apply Z.pow_pos_nonneg; lia). nia. }
    apply int_truediv_bounded; [done|].
    rewrite Z.abs_eq by done.
    apply Z.le_lt_trans with (2 ^ (1022 - q)); [done|].
    rewrite <- Z.pow_add_r by lia. apply Z.pow_lt_mono_r; lia.
Qed.

(** The mean and the variance of samples of magnitude at most [b]. *)
Lemma Rsum_abs_le b (data : list R) :
  Forall (fun x => (Rabs x <= b)%R) data →
  (Rabs (Rsum data) <= INR (length data) * b)%R.
Proof.
  unfold Rsum. induction 1 as [|x data Hx _ IH]; cbn [fold_right length].
  - rewrite Rabs_R0. cbn. lra.
  - rewrite S_INR. pose proof (Rabs_triang x (fold_right Rplus 0%R data)). lra.
Qed.

Lemma exact_mean_bound b (data : list float) :
  data ≠ [] →
  Forall (fun x => (Rabs (float_to_R x) <= b)%R) data →
  (Rabs (exact_mean data) <= b)%R.
Proof.
  intros Hne Hall. unfold exact_mean.
  assert (Hn : (0 < INR (length data))%R).
  { apply lt_0_INR. destruct data; [done | cbn; lia]. }
  pose proof (Rsum_abs_le b (map float_to_R data)) as Hsum.
  rewrite length_map in Hsum.
  unfold Rdiv. rewrite Rabs_mult, (Rabs_pos_eq (/ _))
    by (apply Rlt_le, Rinv_0_lt_compat; done).
  apply (Rmult_le_reg_r (INR (length data))); [done|].
  rewrite Rmult_assoc, Rinv_l, Rmult_1_r by lra.
  rewrite (Rmult_comm b). apply Hsum. by apply Forall_map.
Qed.

Lemma squared_deviations_bound b c (data : list R) :
  (Rabs c <= b)%R →
  Forall (fun x => (Rabs x <= b)%R) data →
  (0 <= squared_deviations c data <= INR (length data) * (4 * b * b))%R.
Proof.
  intros Hc. unfold squared_deviations, Rsum.
  induction 1 as [|x data Hx _ IH]; cbn [map fold_right length].
  - cbn. lra.
  - rewrite S_INR.
    assert (Hsq : (0 <= (x - c) * (x - c) <= 4 * b * b)%R).
    { assert (Hx' : (- b <= x <= b)%R)
        by (revert Hx; unfold Rabs; destruct (Rcase_abs x); lra).
      assert (Hc' : (- b <= c <= b)%R)
        by (revert Hc; unfold Rabs; destruct (Rcase_abs c); lra).
      pose proof (Rle_0_sqr (x - c)) as H0. unfold Rsqr in H0.
      assert (0 <= (2 * b - (x - c)) * (2 * b + (x - c)))%R
        by (apply Rmult_le_pos; lra).
      split; lra. }
    lra.
Qed.

Lemma exact_variance_bound b (data : list float) :
  (2 <= length data)%nat →
  Forall (fun x => (Rabs (float_to_R x) <= b)%R) data →
  (0 <= exact_variance data <= 8 * b * b)%R.
Proof.
  intros Hlen Hall. unfold exact_variance.
  assert (Hne : data ≠ []) by (intros ->; cbn in Hlen; lia).
  pose proof (exact_mean_bound b data Hne Hall) as Hc.
  pose proof (squared_deviations_bound b (exact_mean data)
                (map float_to_R data) Hc) as Hsq.
  rewrite length_map in Hsq. destruct Hsq as [Hsq0 Hsq]; [by apply Forall_map|].
  assert (Hn : (2 <= INR (length data))%R).
  { change 2%R with (INR 2). by apply le_INR. }
  assert (Hb : (0 <= b * b)%R) by nra.
  set (n := INR (length data)) in *.
  set (s := squared_deviations _ _) in *.
  assert (Hinv : (0 < / (n - 1))%R) by (apply Rinv_0_lt_compat; lra).
  unfold Rdiv. split; [apply Rmult_le_pos; lra|].
  apply (Rmult_le_reg_r (n - 1)); [lra|].
  rewrite Rmult_assoc, Rinv_l, Rmult_1_r by lra. nra.
Qed.

(** On at least two samples that are numbers of magnitude at most
    [2 ^ 1000], [print_stats] returns. *)
Lemma print_stats_returns cpslist header :
  Forall finite cpslist →
  Forall (fun x => (Rabs (float_to_R x) <= IZR (2 ^ 1000))%R) cpslist →
  (2 <= length cpslist)%nat →
  ∃ peak mean stdev m v,
    print_stats cpslist header
    = IO [LMax header peak; LAvg header mean; LStdev header stdev;
          LSuggested; LAlert (fadd mean stdev);
          LActivate (fmul float_1_1 peak);
          LMaxThreshold (fmul (fmul float_1_1 float_1_1) peak)] (Ok ())
    ∧ is_maximum peak cpslist
    ∧ lowest_terms m ∧ Fraction_to_R m = exact_mean cpslist
    ∧ float_of_Fraction m = Ok mean
    ∧ lowest_terms v ∧ Fraction_to_R v = exact_variance cpslist
    ∧ float_sqrt_of_frac (numerator v) (denominator v) = Ok stdev.
Proof.
  intros Hfin Hb Hlen.
  destruct (print_stats_exact cpslist header Hfin Hlen)
    as (peak & m & v & Hmax & Hlm & Hvm & Hlv & Hvv & Hprint).
  assert (Hne : cpslist ≠ []) by (intros ->; cbn in Hlen; lia).
  pose proof (exact_mean_bound _ _ Hne Hb) as Hmean.
  pose proof (exact_variance_bound _ _ Hlen Hb) as Hvar.
  assert (H1000 : (0 < IZR (2 ^ 1000))%R) by (apply IZR_lt; lia).
  destruct (float_of_Fraction_bounded m Hlm) as [mean Hm].
  { rewrite Hvm. apply Rle_lt_trans with (IZR (2 ^ 1000)); [done|].
    apply IZR_lt. apply Z.pow_lt_mono_r; lia. }
  destruct (float_sqrt_of_frac_bounded (numerator v) (denominator v))
    as [stdev Hs].
  - destruct Hlv as [Hd _]. apply le_IZR.
    assert (Hd' : (0 < IZR (denominator v))%R) by (by apply IZR_lt).
    unfold Fraction_to_R in Hvv.
    assert (IZR (numerator v) = exact_variance cpslist * IZR (denominator v))%R
      as -> by (rewrite <- Hvv; field; lra).
    apply Rmult_le_pos; lra.
  - by destruct Hlv.
  - destruct Hlv as [Hd _]. apply lt_IZR. rewrite mult_IZR.
    assert (Hd' : (0 < IZR (denominator v))%R) by (by apply IZR_lt).
    unfold Fraction_to_R in Hvv.
    assert (IZR (numerator v) = exact_variance cpslist * IZR (denominator v))%R
      as -> by (rewrite <- Hvv; field; lra).
    rewrite (Rmult_comm (IZR (denominator v))).
    apply Rmult_lt_compat_r; [done|].
    apply Rle_lt_trans with (8 * IZR (2 ^ 1000) * IZR (2 ^ 1000))%R; [lra|].
    rewrite <- !mult_IZR. apply IZR_lt.
    change 8 with (2 ^ 3). rewrite <- !Z.pow_add_r by lia.
    apply Z.pow_lt_mono_r; lia.
  - exists peak, mean, stdev, m, v.
    rewrite Hprint, Hm, Hs, !lift_Ok_bind. done.
Qed.
(** The example of the library's documentation:
    [stdev([1.5, 2.5, 2.5, 2.75, 3.25, 4.75])] is 1.0810874155219827;
    the mean of these is 2.875.  A list with an infinity has a mean and
    no standard deviation, and the largest of -0.0 and 0.0 is the first
    of the two. *)
Example statistics_stdev_documented :
  let data := [S754_finite false 6755399441055744 (-52);
               S754_finite false 5629499534213120 (-51);
               S754_finite false 5629499534213120 (-51);
               S754_finite false 6192449487634432 (-51);
               S754_finite false 7318349394477056 (-51);
               S754_finite false 5348024557502464 (-50)] in
  statistics_stdev data = Ok (S754_finite false 4868784881699734 (-52))
  ∧ statistics_mean data = Ok (S754_finite false 6473924464345088 (-51))
  ∧ statistics_mean [S754_infinity false; five] = Ok (S754_infinity false)
  ∧ statistics_stdev [S754_infinity false; five] = Raise AttributeError
  ∧ max_of [S754_zero true; S754_zero false] = Ok (S754_zero true).
Proof. vm_compute. auto. Qed.

(** Without a bound on the samples the conversion can overflow: the
    standard deviation of 1.7e308 and -1.7e308 is above the largest
    float, and [print_stats] ends with [OverflowError], nothing
    printed. *)
Example print_stats_overflow :
  print_stats [S754_finite false 8517715530038134 971;
               S754_finite true 8517715530038134 971] "interface=eth0"
  = IO [] (Raise OverflowError).
Proof. vm_compute. reflexivity. Qed.



Lemma in_bounds_five_seven :
  Forall (in_bounds (cv_example 1 0)) [five; seven].
Proof.
  repeat constructor; unfold in_bounds, float_to_R, five, seven;
    cbn [Z.leb Z.compare lowcps highcps cv_example];
    change (2 ^ (- (-50))) with 1125899906842624; lra.
Defined.


(** * Further properties *)

(** ** Errors of the row filter *)

Lemma skip_row_raises (r : row) interface proto zone e :
  skip_row r interface proto zone = Raise e →
  ∃ column, e = KeyError column ∧ column ∈ filter_columns
            ∧ r !! column = None.
Proof.
  unfold skip_row, getitem.
  assert (Hcol : ∀ column, column ∈ filter_columns →
            r !! column = None →
            @Raise bool (KeyError column) = Raise e →
            ∃ column, e = KeyError column ∧ column ∈ filter_columns
                      ∧ r !! column = None).
  { intros column Hin Hnone [= <-]. eauto. }
  assert (Hip : "IP Protocol" ∈ filter_columns)
    by (apply list_elem_of_In; cbn; tauto).
  destruct (truthy interface).
  - destruct (r !! "Inbound Interface") as [v|] eqn:Hv; cbn.
    + destruct (negb _); [discriminate|].
      destruct (String.eqb proto "all"); [discriminate|].
      destruct (r !! "IP Protocol") as [p|] eqn:Hp.
      * destruct (String.eqb proto "other"); cbn;
          repeat match goal with
                 | |- context [if ?b then _ else _] => destruct b; cbn
                 end; discriminate.
      * destruct (String.eqb proto "other"); cbn; by apply Hcol.
    + apply Hcol; [|done]. apply list_elem_of_In; cbn; tauto.
  - destruct (r !! "Source Zone") as [v|] eqn:Hv; cbn.
    + destruct (negb _); [discriminate|].
      destruct (String.eqb proto "all"); [discriminate|].
      destruct (r !! "IP Protocol") as [p|] eqn:Hp.
      * destruct (String.eqb proto "other"); cbn;
          repeat match goal with
                 | |- context [if ?b then _ else _] => destruct b; cbn
                 end; discriminate.
      * destruct (String.eqb proto "other"); cbn; by apply Hcol.
    + apply Hcol; [|done]. apply list_elem_of_In; cbn; tauto.
Qed.

(** X1 — [skip_row] raises nothing but [KeyError], and only for one of
    the three columns it reads when the row lacks it; on a row that has
    the three columns it returns a verdict. *)
Theorem skip_row_errors (r : row) interface proto zone :
  (∀ e, skip_row r interface proto zone = Raise e →
        ∃ column, e = KeyError column ∧ column ∈ filter_columns
                  ∧ r !! column = None)
  ∧ ((∀ column, column ∈ filter_columns → is_Some (r !! column)) →
     ∃ skip, skip_row r interface proto zone = Ok skip).
Proof.
  split; [intros e; apply skip_row_raises|].
  intros Hall. destruct (skip_row r interface proto zone) as [skip|e] eqn:Hrow;
    [eauto|].
  destruct (skip_row_raises _ _ _ _ _ Hrow) as (column & _ & Hin & Hnone).
  destruct (Hall column Hin) as [v Hv]. congruence.
Qed.

(** The property at a row without the interface column, and at a full
    row. *)
Lemma skip_row_errors_witness :
  (∃ column, KeyError "Inbound Interface" = KeyError column
             ∧ column ∈ filter_columns
             ∧ ({[ "IP Protocol" := Some "tcp" ]} : row) !! column = None)
  ∧ ∃ skip, skip_row (row_example "2024/01/01 00:00:00") (Some "eth0") "udp"
              None = Ok skip.
Proof.
  split.
  - apply (proj1 (skip_row_errors {[ "IP Protocol" := Some "tcp" ]}
                    (Some "eth0") "tcp" None)).
    reflexivity.
  - apply (proj2 (skip_row_errors (row_example "2024/01/01 00:00:00")
                    (Some "eth0") "udp" None)).
    intros column Hin.
    apply list_elem_of_In in Hin. cbn in Hin.
    destruct Hin as [<-|[<-|[<-|[]]]]; eexists; reflexivity.
Defined.

(** ** Errors while the rows are read *)

Lemma read_rows_app cv cpsdict n0 prefix rest :
  read_rows cv cpsdict n0 (prefix ++ rest)
  = match read_rows cv cpsdict n0 prefix with
    | (n, Ok cpsdict') => read_rows cv cpsdict' n rest
    | outcome => outcome
    end.
Proof.
  revert cpsdict n0. induction prefix as [|item prefix IH]; intros cpsdict n0;
    cbn [app read_rows]; [done|].
  destruct item as [m r|m detail|m detail]; [|done..].
  destruct (count_row cv cpsdict r); [apply IH | done].
Qed.

Lemma strptime_raises s f e : strptime s f = Raise e → e = ValueError.
Proof.
  unfold strptime, datetime_new. intros H.
  repeat match type of H with
         | match ?x with _ => _ end = _ => destruct x eqn:?
         | (if ?x then _ else _) = _ => destruct x eqn:?
         end; congruence.
Qed.

Lemma key_of_row_raises cv r e :
  key_of_row cv r = Raise e →
  e = ValueError ∨ e = TypeError ∨ ∃ column, e = KeyError column.
Proof.
  unfold key_of_row.
  destruct (skip_row _ _ _ _) as [[]|e'] eqn:Hskip; cbn.
  - discriminate.
  - unfold getitem. destruct (r !! START_TIME) as [[s|]|]; cbn.
    + destruct (strptime s FMT) eqn:Hs; cbn; [discriminate|].
      intros [= <-]. left. by apply strptime_raises in Hs.
    + intros [= <-]. auto.
    + intros [= <-]. eauto.
  - intros [= <-].
    destruct (skip_row_raises _ _ _ _ _ Hskip) as (column & -> & _). eauto.
Qed.

Lemma count_row_raises cv cpsdict r e :
  key_of_row cv r = Raise e → count_row cv cpsdict r = Raise e.
Proof. intros H. by rewrite count_row_key, H. Qed.

Lemma count_row_skipped cv cpsdict r :
  skip_row r (interface cv) (protocol cv) (zone cv) = Ok true →
  count_row cv cpsdict r = Ok cpsdict.
Proof. intros H. unfold count_row. by rewrite H. Qed.

Lemma main_read_error cv reader n e :
  read_rows cv ∅ 0 reader = (n, Raise e) →
  main cv (Opened reader)
  = IO [] (Raise match e with
                 | CsvError detail | UnicodeDecodeError detail =>
                   SystemExit (ErrLocated (filename cv) n detail)
                 | FileNotFoundError detail | PermissionError detail =>
                   SystemExit (ErrOS detail)
                 | _ => e
                 end).
Proof.
  intros H. unfold main, process_csvfile. rewrite H. by destruct e.
Qed.

(** X2 — When the reader raises [csv.Error] or [UnicodeDecodeError]
    after rows that were all read without error, the run ends with the
    message that names the file and the reader's line number at the
    error; nothing is printed and the rows after it are not read. *)
Theorem main_reader_error_located cv prefix n detail rest :
  Forall (readable cv) prefix →
  main cv (Opened (prefix ++ CsvErrorAt n detail :: rest))
  = IO [] (Raise (SystemExit (ErrLocated (filename cv) n detail)))
  ∧ main cv (Opened (prefix ++ DecodeErrorAt n detail :: rest))
    = IO [] (Raise (SystemExit (ErrLocated (filename cv) n detail))).
Proof.
  intros Hall.
  destruct (read_rows_readable cv prefix ∅ 0%nat Hall) as (m & d & Hd).
  split.
  - apply (main_read_error cv _ n (CsvError detail)).
    by rewrite read_rows_app, Hd.
  - apply (main_read_error cv _ n (UnicodeDecodeError detail)).
    by rewrite read_rows_app, Hd.
Qed.

Lemma readable_example :
  Forall (readable (cv_example 1 1)) reader_two.
Proof.
  repeat constructor.
  - exists 2%nat, (row_example "2024/01/01 00:00:00"), (Some "20240101000000").
    split; [reflexivity | vm_compute; reflexivity].
  - exists 3%nat, (row_example "2024/01/01 00:00:01"), (Some "20240101000001").
    split; [reflexivity | vm_compute; reflexivity].
Defined.

Lemma main_reader_error_located_witness :
  main (cv_example 1 1)
       (Opened (reader_two ++ CsvErrorAt 4 "unexpected end of data" :: []))
  = IO [] (Raise (SystemExit (ErrLocated "log.csv" 4 "unexpected end of data")))
  ∧ main (cv_example 1 1)
         (Opened (reader_two ++ DecodeErrorAt 4 "unexpected end of data" :: []))
    = IO [] (Raise (SystemExit (ErrLocated "log.csv" 4 "unexpected end of data"))).
Proof.
  apply (main_reader_error_located (cv_example 1 1) reader_two 4%nat
           "unexpected end of data" [] readable_example).
Defined.

(** X3 — When a row fails in the loop body after rows that were all read
    without error (a column the filter or the loop reads is missing, the
    start time is [None] or does not parse), the run ends with that
    [KeyError], [TypeError] or [ValueError], which no handler takes; the
    message of the handlers with file and line is not produced, nothing
    is printed and the rows after it are not read. *)
Theorem main_row_error_unhandled cv prefix n r rest e :
  Forall (readable cv) prefix →
  key_of_row cv r = Raise e →
  main cv (Opened (prefix ++ RowAt n r :: rest)) = IO [] (Raise e)
  ∧ (e = ValueError ∨ e = TypeError ∨ ∃ column, e = KeyError column).
Proof.
  intros Hall He.
  destruct (read_rows_readable cv prefix ∅ 0%nat Hall) as (m & d & Hd).
  pose proof (key_of_row_raises _ _ _ He) as Hclass.
  split; [|exact Hclass].
  rewrite (main_read_error cv _ n e).
  - by destruct Hclass as [->|[->|[column ->]]].
  - rewrite read_rows_app, Hd. cbn [read_rows].
    by rewrite (count_row_raises _ _ _ _ He).
Qed.

Lemma main_row_error_unhandled_witness :
  main (cv_example 1 1)
       (Opened (reader_two
                ++ RowAt 4 (row_example "2024/01/01 24:00:00") :: []))
  = IO [] (Raise ValueError)
  ∧ (ValueError = ValueError ∨ ValueError = TypeError
     ∨ ∃ column, ValueError = KeyError column).
Proof.
  apply (main_row_error_unhandled (cv_example 1 1) reader_two 4%nat
           (row_example "2024/01/01 24:00:00") [] ValueError readable_example).
  vm_compute; reflexivity.
Defined.

(** X4 — A run in which the filter skips every row prints nothing and
    ends normally, whatever the interval and the bounds. *)
Theorem main_nothing_selected cv reader :
  Forall (skipped cv) reader →
  main cv (Opened reader) = IO [] (Ok ()).
Proof.
  intros Hall.
  assert (Hread : ∀ n0, ∃ n, read_rows cv ∅ n0 reader = (n, Ok ∅)).
  { induction Hall as [|item reader (m & r & -> & Hskip) _ IH]; intros n0;
      cbn [read_rows]; [eauto|].
    rewrite (count_row_skipped _ _ _ Hskip). apply IH. }
  destruct (Hread 0%nat) as [n Hn].
  unfold main, process_csvfile. rewrite Hn, lift_Ok_bind.
  unfold evaluate_cpsdict. rewrite bool_decide_eq_true_2 by done.
  reflexivity.
Qed.

Lemma main_nothing_selected_witness :
  main cv_eth7 (Opened reader_two)
  = IO [] (Ok ()).
Proof.
  apply (main_nothing_selected cv_eth7 reader_two).
  repeat constructor.
  - exists 2%nat, (row_example "2024/01/01 00:00:00"). split; reflexivity.
  - exists 3%nat, (row_example "2024/01/01 00:00:01"). split; reflexivity.
Defined.

(** ** The count table, continued *)

Lemma count_row_Ok_key cv cpsdict r cpsdict' :
  count_row cv cpsdict r = Ok cpsdict' → ∃ ko, key_of_row cv r = Ok ko.
Proof.
  rewrite count_row_key. destruct (key_of_row cv r); [eauto | discriminate].
Qed.

Lemma read_rows_Ok_readable cv reader cpsdict0 n0 n cpsdict :
  read_rows cv cpsdict0 n0 reader = (n, Ok cpsdict) →
  Forall (readable cv) reader.
Proof.
  revert cpsdict0 n0. induction reader as [|item reader IH];
    intros cpsdict0 n0; cbn [read_rows]; [constructor|].
  destruct item as [m r|m detail|m detail]; [|discriminate..].
  destruct (count_row cv cpsdict0 r) as [cpsdict1|e] eqn:Hrow; [|discriminate].
  intros Hrest. constructor; [|by eapply IH].
  destruct (count_row_Ok_key _ _ _ _ Hrow) as [ko Hko]. by exists m, r, ko.
Qed.

Lemma occurrences_Permutation cv key reader1 reader2 :
  reader1 ≡ₚ reader2 → occurrences cv key reader1 = occurrences cv key reader2.
Proof.
  induction 1 as [|item l1 l2 _ IH|a b l|l1 l2 l3 _ IH1 _ IH2];
    cbn [occurrences]; lia.
Qed.

Lemma table_lookup_occurrences cv reader n cpsdict key :
  read_rows cv ∅ 0 reader = (n, Ok cpsdict) →
  cpsdict !! key
  = if occurrences cv key reader =? 0 then None
    else Some (occurrences cv key reader).
Proof.
  intros Hd.
  assert (Hempty : positive_counts ∅).
  { intros k v. by rewrite lookup_empty. }
  destruct (read_rows_counts _ _ _ _ _ _ Hempty Hd) as [_ Hcounts].
  by rewrite Hcounts, lookup_empty.
Qed.

(** X5 — The count table does not depend on the order of the rows: a
    reader that yields the same rows in another order gives the same
    table. *)
Theorem process_csvfile_order cv reader1 reader2 n1 cpsdict :
  reader1 ≡ₚ reader2 →
  process_csvfile reader1 cv = (n1, Ok cpsdict) →
  ∃ n2, process_csvfile reader2 cv = (n2, Ok cpsdict).
Proof.
  intros Hperm Hd1. apply process_csvfile_Ok in Hd1.
  pose proof (read_rows_Ok_readable _ _ _ _ _ _ Hd1) as Hall.
  rewrite Hperm in Hall.
  destruct (read_rows_readable cv reader2 ∅ 0%nat Hall) as (n2 & d2 & Hd2).
  exists n2. apply process_csvfile_Ok. rewrite Hd2. do 2 f_equal.
  apply map_eq. intros key.
  rewrite (table_lookup_occurrences _ _ _ _ key Hd1),
          (table_lookup_occurrences _ _ _ _ key Hd2).
  by rewrite (occurrences_Permutation cv key _ _ Hperm).
Qed.

Lemma process_csvfile_order_witness :
  ∃ n2, process_csvfile (rev reader_example) (cv_example 1 1)
        = (n2, Ok table_example).
Proof.
  apply (process_csvfile_order (cv_example 1 1) reader_example
           (rev reader_example) 4%nat table_example).
  - apply Permutation_rev.
  - vm_compute; reflexivity.
Defined.

Lemma strptime_microsecond s f t : strptime s f = Ok t → microsecond t = 0.
Proof.
  unfold strptime, datetime_new. intros H.
  repeat match type of H with
         | match ?x with _ => _ end = _ => destruct x eqn:?; try discriminate
         | (if ?x then _ else _) = _ => destruct x eqn:?; try discriminate
         end.
  by injection H as <-.
Qed.

Lemma occurrences_pos_row cv key reader :
  0 < occurrences cv key reader →
  ∃ r, key_of_row cv r = Ok (Some key).
Proof.
  induction reader as [|item reader IH]; cbn [occurrences]; [lia|].
  destruct (counted_under cv key item) eqn:Hitem; [|intros; apply IH; lia].
  intros _. destruct item as [m r| |]; cbn in Hitem; [|discriminate..].
  destruct (key_of_row cv r) as [[k|]|] eqn:Hk; [|discriminate..].
  apply String.eqb_eq in Hitem as ->. eauto.
Qed.

Lemma key_of_row_rendered cv r key :
  key_of_row cv r = Ok (Some key) →
  ∃ t, datetime_ok t = true ∧ microsecond t = 0
       ∧ key = strftime t COMPRESS_FMT.
Proof.
  unfold key_of_row.
  destruct (skip_row _ _ _ _) as [[]|]; cbn; [discriminate| |discriminate].
  destruct (getitem r START_TIME) as [[s|]|]; cbn; [|discriminate..].
  destruct (strptime s FMT) as [t|] eqn:Ht; cbn; [|discriminate].
  intros [= <-]. exists t. split; [by eapply strptime_ok|].
  split; [by eapply strptime_microsecond | done].
Qed.

(** A canonical key parses back to the timestamp it renders. *)
Lemma canonical_key_parses t :
  datetime_ok t = true → microsecond t = 0 → 1000 <= year t →
  strptime (strftime t COMPRESS_FMT) COMPRESS_FMT = Ok t.
Proof. apply strptime_strftime_COMPRESS. Qed.

(** X6 — Every key of a table [process_csvfile] returns is the
    compressed rendering of a valid timestamp at whole-second
    resolution; when the year of that timestamp is 1000 or later,
    parsing the key in the compressed format, as [evaluate_cpsdict]
    does, gives the timestamp back. *)
Theorem process_csvfile_keys cv reader n cpsdict key :
  process_csvfile reader cv = (n, Ok cpsdict) →
  is_Some (cpsdict !! key) →
  ∃ t, datetime_ok t = true ∧ microsecond t = 0
       ∧ key = strftime t COMPRESS_FMT
       ∧ (1000 <= year t → strptime key COMPRESS_FMT = Ok t).
Proof.
  intros Hd Hkey. apply process_csvfile_Ok in Hd.
  rewrite (table_lookup_occurrences _ _ _ _ key Hd) in Hkey.
  pose proof (occurrences_nonneg cv key reader) as Hocc.
  destruct (Z.eqb_spec (occurrences cv key reader) 0) as [?|Hne];
    [by destruct Hkey|].
  destruct (occurrences_pos_row cv key reader) as [r Hr]; [lia|].
  destruct (key_of_row_rendered _ _ _ Hr) as (t & Hok & Hus & ->).
  exists t. repeat split; try done. by apply canonical_key_parses.
Qed.

Lemma process_csvfile_keys_witness :
  ∃ t, datetime_ok t = true ∧ microsecond t = 0
       ∧ "20240101000001" = strftime t COMPRESS_FMT
       ∧ (1000 <= year t → strptime "20240101000001" COMPRESS_FMT = Ok t).
Proof.
  apply (process_csvfile_keys (cv_example 1 1) reader_example 4%nat
           table_example "20240101000001").
  - vm_compute; reflexivity.
  - eexists. reflexivity.
Defined.

(** ** The keys in sorted order *)

Lemma sorted_Permutation (cpsdict : gmap string Z) :
  sorted cpsdict ≡ₚ (map_to_list cpsdict).*1.
Proof. unfold sorted. apply merge_sort_Permutation. Qed.

Lemma elem_of_sorted (cpsdict : gmap string Z) key :
  key ∈ sorted cpsdict ↔ is_Some (cpsdict !! key).
Proof.
  rewrite sorted_Permutation, list_elem_of_fmap. split.
  - intros ([k v] & -> & Hin). apply elem_of_map_to_list in Hin. eauto.
  - intros [v Hv]. exists (key, v). split; [done|].
    by apply elem_of_map_to_list.
Qed.

Lemma sorted_nonempty (cpsdict : gmap string Z) :
  cpsdict ≠ ∅ → sorted cpsdict ≠ [].
Proof.
  intros Hne Hnil. apply Hne, map_to_list_empty_iff.
  pose proof (sorted_Permutation cpsdict) as Hperm. rewrite Hnil in Hperm.
  apply Permutation_nil_l in Hperm. by destruct (map_to_list cpsdict).
Qed.

(** ** What the aggregator prints *)

Lemma printed_bind {A B} (m : io A) (k : A → io B) :
  printed (m ≫= k)
  = (printed m ++ match result m with
                  | Ok a => printed (k a)
                  | Raise _ => []
                  end)%list.
Proof.
  destruct m as [out [a|e]]; unfold mbind, io_bind; cbn; [done|].
  by rewrite app_nil_r.
Qed.

Lemma result_bind {A B} (m : io A) (k : A → io B) :
  result (m ≫= k)
  = match result m with
    | Ok a => result (k a)
    | Raise e => Raise e
    end.
Proof. by destruct m as [out [a|e]]. Qed.

Lemma evaluate_row_silent cpslist count ts cv :
  suppress cv = "true" → printed (evaluate_row cpslist count ts cv) = [].
Proof.
  intros Hs. unfold evaluate_row. destruct ts as [ts|]; [|done].
  rewrite printed_bind. cbn [lift printed result app].
  destruct (int_truediv count (interval cv)) as [cps|]; [|done].
  rewrite Hs. cbn [String.eqb Ascii.eqb Bool.eqb negb andb].
  by destruct (_ && _).
Qed.

Lemma loop_body_silent cpsdict cv interval_td st key :
  suppress cv = "true" →
  printed (loop_body cpsdict cv interval_td st key) = [].
Proof.
  intros Hs. unfold loop_body.
  repeat (rewrite printed_bind; cbn [lift printed result app];
          match goal with
          | |- match ?r with _ => _ end = _ => destruct r; [|done]
          end).
  destruct (timedelta_le _ _); [done|].
  rewrite printed_bind, (evaluate_row_silent _ _ _ _ Hs). cbn [app].
  destruct (result (evaluate_row _ _ _ _)); [|done].
  rewrite printed_bind. cbn [lift printed result app].
  by destruct (dict_getitem _ _).
Qed.

Lemma for_each_silent cpsdict cv interval_td keys st :
  suppress cv = "true" →
  printed (for_each (loop_body cpsdict cv interval_td) st keys) = [].
Proof.
  intros Hs. revert st. induction keys as [|key keys IH]; intros st;
    cbn [for_each]; [done|].
  rewrite printed_bind, (loop_body_silent _ _ _ _ _ Hs). cbn [app].
  destruct (result _); [apply IH | done].
Qed.

(** X7 — With [suppress] at 'true' (the default) [evaluate_cpsdict]
    prints nothing, whether it returns or raises. *)
Theorem evaluate_cpsdict_silent cpsdict cv :
  suppress cv = "true" → printed (evaluate_cpsdict cpsdict cv) = [].
Proof.
  intros Hs. unfold evaluate_cpsdict. case_bool_decide as Hempty; [done|].
  rewrite printed_bind. cbn [lift printed result app].
  destruct (timedelta_new 0 (interval cv) 0) as [interval_td|]; [|done].
  destruct (sorted cpsdict) as [|first_key keys]; [done|].
  rewrite printed_bind. cbn [lift printed result app].
  destruct (strptime first_key COMPRESS_FMT) as [first_ts|]; [|done].
  rewrite printed_bind. cbn [lift printed result app].
  destruct (dict_getitem cpsdict first_key) as [first_count|]; [|done].
  rewrite printed_bind, (for_each_silent _ _ _ _ _ Hs). cbn [app].
  destruct (result (for_each _ _ _)) as [st|]; [|done].
  rewrite printed_bind, (evaluate_row_silent _ _ _ _ Hs). cbn [app].
  by destruct (result (evaluate_row _ _ _ _)).
Qed.

Lemma evaluate_cpsdict_silent_witness :
  printed (evaluate_cpsdict table_five (cv_example 3 0)) = [].
Proof.
  apply (evaluate_cpsdict_silent table_five (cv_example 3 0)). reflexivity.
Defined.

Lemma evaluate_row_loud cpslist count ts cv out cpslist' :
  suppress cv ≠ "true" →
  evaluate_row cpslist count (Some ts) cv = IO out (Ok cpslist') →
  Forall is_progress out
  ∧ cpslist' = (cpslist ++ omap highlighted out)%list.
Proof.
  intros Hs. unfold evaluate_row.
  destruct (int_truediv count (interval cv)) as [cps|]; [|discriminate].
  rewrite lift_Ok_bind.
  destruct (String.eqb_spec (suppress cv) "true") as [?|_]; [done|].
  cbn [negb].
  destruct (_ && _); intros [= <- <-]; cbn [omap list_omap highlighted].
  - split; [|done]. repeat constructor. by eexists _, _, _.
  - split; [|by rewrite app_nil_r]. repeat constructor. by eexists _, _, _.
Qed.

Lemma loop_body_loud cpsdict cv interval_td st key out st' :
  suppress cv ≠ "true" →
  loop_body cpsdict cv interval_td st key = IO out (Ok st') →
  Forall is_progress out
  ∧ cpslist st' = (cpslist st ++ omap highlighted out)%list.
Proof.
  intros Hs. unfold loop_body. intros H.
  apply io_bind_Ok_inv in H as (o1 & ts & ? & H1 & H & ->).
  apply lift_Ok_inv in H1 as E1. rewrite E1 in H1. injection H1 as <-.
  apply io_bind_Ok_inv in H as (o2 & delta & ? & H2 & H & ->).
  apply lift_Ok_inv in H2 as E2. rewrite E2 in H2. injection H2 as <-.
  apply io_bind_Ok_inv in H as (o3 & half & ? & H3 & H & ->).
  apply lift_Ok_inv in H3 as E3. rewrite E3 in H3. injection H3 as <-.
  cbn [app].
  destruct (timedelta_le delta half).
  - injection H as <- <-. cbn. split; [constructor | by rewrite app_nil_r].
  - apply io_bind_Ok_inv in H as (o4 & cpslist' & ? & Hrow & H & ->).
    apply io_bind_Ok_inv in H as (o5 & count' & ? & H5 & H & ->).
    apply lift_Ok_inv in H5 as E5. rewrite E5 in H5. injection H5 as <-.
    injection H as <- <-. cbn [app cpslist]. rewrite app_nil_r.
    by apply (evaluate_row_loud _ _ _ _ _ _ Hs Hrow).
Qed.

Lemma for_each_loud cpsdict cv interval_td keys st out st' :
  suppress cv ≠ "true" →
  for_each (loop_body cpsdict cv interval_td) st keys = IO out (Ok st') →
  Forall is_progress out
  ∧ cpslist st' = (cpslist st ++ omap highlighted out)%list.
Proof.
  intros Hs. revert st out. induction keys as [|key keys IH]; intros st out;
    cbn [for_each].
  - intros [= <- <-]. cbn. split; [constructor | by rewrite app_nil_r].
  - intros H. apply io_bind_Ok_inv in H as (o1 & st1 & o2 & Hbody & H & ->).
    destruct (loop_body_loud _ _ _ _ _ _ _ Hs Hbody) as [Hp1 Hl1].
    destruct (IH _ _ H) as [Hp2 Hl2].
    split; [by apply Forall_app|].
    by rewrite Hl2, Hl1, omap_app, app_assoc.
Qed.

(** X8 — With [suppress] not 'true', when [evaluate_cpsdict] returns a
    list, every line it printed is a progress line, and the samples
    returned are exactly the cps values of the lines printed with the
    highlight marker, in the order printed. *)
Theorem evaluate_cpsdict_progress cpsdict cv out samples :
  suppress cv ≠ "true" →
  evaluate_cpsdict cpsdict cv = IO out (Ok (Some samples)) →
  Forall is_progress out ∧ samples = omap highlighted out.
Proof.
  intros Hs. unfold evaluate_cpsdict. case_bool_decide as Hempty;
    [discriminate|].
  intros H.
  apply io_bind_Ok_inv in H as (o1 & interval_td & ? & H1 & H & ->).
  apply lift_Ok_inv in H1 as E1. rewrite E1 in H1. injection H1 as <-.
  destruct (sorted cpsdict) as [|first_key keys]; [discriminate|].
  apply io_bind_Ok_inv in H as (o2 & first_ts & ? & H2 & H & ->).
  apply lift_Ok_inv in H2 as E2. rewrite E2 in H2. injection H2 as <-.
  apply io_bind_Ok_inv in H as (o3 & first_count & ? & H3 & H & ->).
  apply lift_Ok_inv in H3 as E3. rewrite E3 in H3. injection H3 as <-.
  apply io_bind_Ok_inv in H as (o4 & st & ? & Hloop & H & ->).
  apply io_bind_Ok_inv in H as (o5 & cpslist' & ? & Hrow & H & ->).
  injection H as <- <-. cbn [app]. rewrite app_nil_r.
  destruct (for_each_loud _ _ _ _ _ _ _ Hs Hloop) as [Hp1 Hl1].
  destruct (evaluate_row_loud _ _ _ _ _ _ Hs Hrow) as [Hp2 Hl2].
  split; [by apply Forall_app|].
  rewrite Hl2, Hl1, omap_app. reflexivity.
Qed.

Lemma evaluate_cpsdict_progress_witness :
  Forall is_progress
    [LProgress "" t0_example one; LProgress "** " t_example (float_of_int 5)]
  ∧ [float_of_int 5]
    = omap highlighted
        [LProgress "" t0_example one;
         LProgress "** " t_example (float_of_int 5)].
Proof.
  apply (evaluate_cpsdict_progress table_five cv_loud).
  - discriminate.
  - vm_compute; reflexivity.
Defined.

(** ** An interval of zero *)

Lemma evaluate_row_interval_zero cpslist count ts cv :
  interval cv = 0 →
  evaluate_row cpslist count (Some ts) cv = IO [] (Raise ZeroDivisionError).
Proof. intros Hi. unfold evaluate_row, int_truediv. by rewrite Hi. Qed.

Lemma for_each_interval_zero cpsdict cv interval_td keys st :
  interval cv = 0 →
  timedelta_new 0 (interval cv) 0 = Ok interval_td →
  datetime_ok (previous_ts st) = true →
  (∀ key, key ∈ keys → ∃ t, strptime key COMPRESS_FMT = Ok t) →
  (∃ st', for_each (loop_body cpsdict cv interval_td) st keys = IO [] (Ok st'))
  ∨ for_each (loop_body cpsdict cv interval_td) st keys
    = IO [] (Raise ZeroDivisionError).
Proof.
  intros Hi Htd. revert st. induction keys as [|key keys IH];
    intros st Hst Hkeys; cbn [for_each]; [left; by eexists|].
  destruct (Hkeys key) as [ts Hts]; [by left|].
  destruct (merge_test _ _ _ _ Htd Hst (strptime_ok _ _ _ Hts))
    as (delta & half & Hdelta & Hhalf & _).
  assert (Hbody : loop_body cpsdict cv interval_td st key
    = if timedelta_le delta half
      then IO [] (Ok {| previous_key := previous_key st;
                        previous_ts := previous_ts st;
                        count := count st + 1; cpslist := cpslist st |})
      else IO [] (Raise ZeroDivisionError)).
  { unfold loop_body.
    rewrite Hts, lift_Ok_bind, Hdelta, lift_Ok_bind, Hhalf, lift_Ok_bind.
    destruct (timedelta_le delta half); [done|].
    by rewrite (evaluate_row_interval_zero _ _ _ _ Hi). }
  rewrite Hbody. destruct (timedelta_le delta half).
  - rewrite IO_Ok_bind. cbn [app]. rewrite io_eta.
    apply IH; [done|]. intros k Hk. apply Hkeys. by right.
  - by right.
Qed.

(** X9 — With an interval of 0, on a table that is not empty and whose
    keys parse, [evaluate_cpsdict] raises [ZeroDivisionError] before it
    has printed anything. *)
Theorem evaluate_cpsdict_interval_zero cpsdict cv :
  interval cv = 0 →
  cpsdict ≠ ∅ →
  (∀ key, is_Some (cpsdict !! key) → ∃ t, strptime key COMPRESS_FMT = Ok t) →
  evaluate_cpsdict cpsdict cv = IO [] (Raise ZeroDivisionError).
Proof.
  intros Hi Hne Hkeys. unfold evaluate_cpsdict.
  rewrite bool_decide_eq_false_2 by done.
  assert (Htd : timedelta_new 0 (interval cv) 0
                = Ok {| days := 0; seconds := 0; microseconds := 0 |})
    by (by rewrite Hi).
  rewrite Htd, lift_Ok_bind.
  pose proof (elem_of_sorted cpsdict) as Hsorted.
  destruct (sorted cpsdict) as [|first_key keys] eqn:Hs.
  { by apply sorted_nonempty in Hs. }
  destruct (proj1 (Hsorted first_key) ltac:(by left)) as [first_count Hc].
  destruct (Hkeys first_key) as [first_ts Hts]; [by eexists|].
  rewrite Hts, lift_Ok_bind. unfold dict_getitem at 1.
  rewrite Hc, lift_Ok_bind.
  destruct (for_each_interval_zero cpsdict cv _ keys
              {| previous_key := first_key; previous_ts := first_ts;
                 count := first_count; cpslist := [] |} Hi Htd)
    as [[st' Hloop]| ->]; [by eapply strptime_ok| |..].
  - intros key Hk. apply Hkeys, Hsorted. by right.
  - rewrite Hloop, IO_Ok_bind.
    by rewrite (evaluate_row_interval_zero _ _ _ _ Hi).
  - reflexivity.
Qed.

Lemma evaluate_cpsdict_interval_zero_witness :
  evaluate_cpsdict table_five cv_eth7 = IO [] (Raise ZeroDivisionError).
Proof.
  apply (evaluate_cpsdict_interval_zero table_five cv_eth7).
  - reflexivity.
  - intros H. apply (f_equal (λ m : gmap string Z, m !! "20240101000000")) in H.
    vm_compute in H. discriminate.
  - intros key [v Hv].
    destruct (decide (key = "20240101000000")) as [->|Hne1];
      [by eexists|].
    destruct (decide (key = "20240101000001")) as [->|Hne2];
      [by eexists|].
    unfold table_five in Hv.
    rewrite lookup_insert_ne, lookup_singleton_ne in Hv by done.
    discriminate.
Defined.

(** ** The order of the keys is the order of time *)

Lemma digit_char_compare a b :
  Ascii.compare (digit_char a) (digit_char b) = (a mod 10 ?= b mod 10).
Proof.
  unfold Ascii.compare. rewrite <- N2Z.inj_compare. fold (code (digit_char a)).
  fold (code (digit_char b)).
  destruct (digit_char_spec a) as [_ Ha]. destruct (digit_char_spec b) as [_ Hb].
  replace (code (digit_char a)) with (48 + a mod 10) by lia.
  replace (code (digit_char b)) with (48 + b mod 10) by lia.
  apply Z.add_compare_mono_l.
Qed.

Lemma compare_zero_pad2 a b r1 r2 :
  0 <= a <= 99 → 0 <= b <= 99 →
  String.compare (string_of_list_ascii (zero_pad2 a ++ r1))
                 (string_of_list_ascii (zero_pad2 b ++ r2))
  = match a ?= b with
    | Eq => String.compare (string_of_list_ascii r1) (string_of_list_ascii r2)
    | c => c
    end.
Proof.
  intros Ha Hb. unfold zero_pad2.
  cbn [app string_of_list_ascii String.compare].
  rewrite !digit_char_compare.
  destruct (Z.compare_spec ((a / 10) mod 10) ((b / 10) mod 10)) as [H1|H1|H1];
    destruct (Z.compare_spec (a mod 10) (b mod 10)) as [H2|H2|H2];
    destruct (Z.compare_spec a b) as [H3|H3|H3];
    try reflexivity; exfalso; revert H1 H2 H3;
    Z.div_mod_to_equations; lia.
Qed.

Lemma compare_zero_pad4 a b r1 r2 :
  0 <= a <= 9999 → 0 <= b <= 9999 →
  String.compare (string_of_list_ascii (zero_pad4 a ++ r1))
                 (string_of_list_ascii (zero_pad4 b ++ r2))
  = match a ?= b with
    | Eq => String.compare (string_of_list_ascii r1) (string_of_list_ascii r2)
    | c => c
    end.
Proof.
  intros Ha Hb.
  assert (E : ∀ n r, (zero_pad4 n ++ r
                      = zero_pad2 (n / 100) ++ zero_pad2 (n mod 100) ++ r)%list).
  { intros n r. unfold zero_pad4, zero_pad2. cbn [app].
    assert (D : ∀ x y, x mod 10 = y mod 10 → digit_char x = digit_char y)
      by (intros x y Hxy; unfold digit_char; by rewrite Hxy).
    rewrite (D (n / 1000) (n / 100 / 10)) by (Z.div_mod_to_equations; lia).
    rewrite (D (n / 10) (n mod 100 / 10)) by (Z.div_mod_to_equations; lia).
    rewrite (D n (n mod 100)) by (Z.div_mod_to_equations; lia).
    reflexivity. }
  rewrite !E.
  rewrite compare_zero_pad2 by (Z.div_mod_to_equations; lia).
  rewrite compare_zero_pad2 by (Z.div_mod_to_equations; lia).
  destruct (Z.compare_spec (a / 100) (b / 100)) as [H1|H1|H1];
    destruct (Z.compare_spec (a mod 100) (b mod 100)) as [H2|H2|H2];
    destruct (Z.compare_spec a b) as [H3|H3|H3];
    try reflexivity; exfalso; revert H1 H2 H3;
    Z.div_mod_to_equations; lia.
Qed.

Lemma strftime_COMPRESS_compare t1 t2 :
  datetime_ok t1 = true → datetime_ok t2 = true →
  1000 <= year t1 → 1000 <= year t2 →
  String.compare (strftime t1 COMPRESS_FMT) (strftime t2 COMPRESS_FMT)
  = compare_fields t1 t2.
Proof.
  intros H1 H2 Y1 Y2.
  apply datetime_ok_bounds in H1. apply datetime_ok_bounds in H2.
  pose proof (days_in_month_le (year t1) (month t1)).
  pose proof (days_in_month_le (year t2) (month t2)).
  assert (E : ∀ t, 1000 <= year t <= 9999 → strftime t COMPRESS_FMT
    = string_of_list_ascii
        (zero_pad4 (year t) ++ zero_pad2 (month t) ++ zero_pad2 (day t)
         ++ zero_pad2 (hour t) ++ zero_pad2 (minute t)
         ++ zero_pad2 (second t) ++ [])%list).
  { intros t Ht. rewrite <- (strftime_COMPRESS_chars t Ht).
    by rewrite string_of_list_ascii_of_string. }
  rewrite !E by lia. unfold compare_fields.
  rewrite compare_zero_pad4 by lia.
  rewrite !compare_zero_pad2 by lia.
  cbn [string_of_list_ascii String.compare].
  by repeat match goal with
            | |- context [?a ?= ?b] => destruct (a ?= b)
            end.
Qed.

Lemma days_before_year_succ y :
  days_before_year (y + 1)
  = days_before_year y + 365 + (if is_leap y then 1 else 0).
Proof.
  unfold days_before_year, is_leap.
  destruct (Z.eqb_spec (y mod 4) 0) as [H4|H4];
    destruct (Z.eqb_spec (y mod 100) 0) as [H100|H100];
    destruct (Z.eqb_spec (y mod 400) 0) as [H400|H400];
    cbn [negb andb orb]; revert H4 H100 H400;
    Z.div_mod_to_equations; lia.
Qed.

Lemma days_before_year_mono y1 y2 :
  y1 <= y2 → days_before_year y1 <= days_before_year y2.
Proof.
  intros H. unfold days_before_year. Z.div_mod_to_equations. lia.
Qed.

Ltac month_cases m :=
  let H := fresh "Hcases" in
  assert (H : m = 1 ∨ m = 2 ∨ m = 3 ∨ m = 4 ∨ m = 5 ∨ m = 6 ∨ m = 7
              ∨ m = 8 ∨ m = 9 ∨ m = 10 ∨ m = 11 ∨ m = 12) by lia;
  destruct H as [->|[->|[->|[->|[->|[->|[->|[->|[->|[->|[->| ->]]]]]]]]]]].

Lemma day_of_year_bounds y m d :
  1 <= m <= 12 → 1 <= d <= days_in_month y m →
  1 <= days_before_month y m + d <= 365 + (if is_leap y then 1 else 0).
Proof.
  intros Hm. unfold days_before_month, days_in_month.
  destruct (is_leap y); month_cases m; cbv - [Z.add Z.le Z.lt]; lia.
Qed.

Lemma day_of_year_month_lt y m1 d1 m2 d2 :
  1 <= m1 → m1 < m2 → m2 <= 12 →
  1 <= d1 <= days_in_month y m1 → 1 <= d2 →
  days_before_month y m1 + d1 < days_before_month y m2 + d2.
Proof.
  intros Hm1 Hlt Hm2. unfold days_before_month, days_in_month.
  destruct (is_leap y); month_cases m1; month_cases m2;
    cbv - [Z.add Z.le Z.lt]; lia.
Qed.

Lemma toordinal_compare t1 t2 :
  datetime_ok t1 = true → datetime_ok t2 = true →
  (toordinal t1 ?= toordinal t2)
  = match year t1 ?= year t2 with
    | Eq =>
      match month t1 ?= month t2 with
      | Eq => day t1 ?= day t2
      | c => c
      end
    | c => c
    end.
Proof.
  intros H1 H2.
  apply datetime_ok_bounds in H1 as (Hy1 & Hm1 & Hd1 & _).
  apply datetime_ok_bounds in H2 as (Hy2 & Hm2 & Hd2 & _).
  pose proof (day_of_year_bounds _ _ _ Hm1 Hd1) as B1.
  pose proof (day_of_year_bounds _ _ _ Hm2 Hd2) as B2.
  unfold toordinal.
  destruct (Z.compare_spec (year t1) (year t2)) as [Hy|Hy|Hy].
  - rewrite Hy in *.
    destruct (Z.compare_spec (month t1) (month t2)) as [Hm|Hm|Hm].
    + rewrite Hm. destruct (Z.compare_spec (day t1) (day t2));
        [apply Z.compare_eq_iff | apply Z.compare_lt_iff
        | apply Z.compare_gt_iff]; lia.
    + apply Z.compare_lt_iff.
      pose proof (day_of_year_month_lt (year t2) (month t1) (day t1)
                    (month t2) (day t2)). lia.
    + apply Z.compare_gt_iff.
      pose proof (day_of_year_month_lt (year t2) (month t2) (day t2)
                    (month t1) (day t1)). lia.
  - apply Z.compare_lt_iff.
    pose proof (days_before_year_succ (year t1)).
    pose proof (days_before_year_mono (year t1 + 1) (year t2)). lia.
  - apply Z.compare_gt_iff.
    pose proof (days_before_year_succ (year t2)).
    pose proof (days_before_year_mono (year t2 + 1) (year t1)). lia.
Qed.

Lemma instant_us_compare t1 t2 :
  datetime_ok t1 = true → datetime_ok t2 = true →
  microsecond t1 = 0 → microsecond t2 = 0 →
  (instant_us t1 ?= instant_us t2) = compare_fields t1 t2.
Proof.
  intros H1 H2 U1 U2. pose proof (toordinal_compare t1 t2 H1 H2) as Hord.
  apply datetime_ok_bounds in H1 as (_ & _ & _ & HH1 & HM1 & HS1 & _).
  apply datetime_ok_bounds in H2 as (_ & _ & _ & HH2 & HM2 & HS2 & _).
  unfold compare_fields, instant_us. rewrite U1, U2.
  destruct (Z.compare_spec (toordinal t1) (toordinal t2)) as [Ho|Ho|Ho].
  - destruct (year t1 ?= year t2); [|discriminate..].
    destruct (month t1 ?= month t2); [|discriminate..].
    rewrite <- Hord, Ho.
    destruct (Z.compare_spec (hour t1) (hour t2)) as [Hh|Hh|Hh];
      [|apply Z.compare_lt_iff; lia|apply Z.compare_gt_iff; lia].
    destruct (Z.compare_spec (minute t1) (minute t2)) as [Hm|Hm|Hm];
      [|apply Z.compare_lt_iff; lia|apply Z.compare_gt_iff; lia].
    destruct (Z.compare_spec (second t1) (second t2)) as [Hs|Hs|Hs];
      [apply Z.compare_eq_iff|apply Z.compare_lt_iff|apply Z.compare_gt_iff];
      lia.
  - transitivity Lt; [apply Z.compare_lt_iff; lia|].
    destruct (year t1 ?= year t2); [|done|discriminate].
    destruct (month t1 ?= month t2); [|done|discriminate].
    by rewrite <- Hord.
  - transitivity Gt; [apply Z.compare_gt_iff; lia|].
    destruct (year t1 ?= year t2); [|discriminate|done].
    destruct (month t1 ?= month t2); [|discriminate|done].
    by rewrite <- Hord.
Qed.

Lemma strftime_COMPRESS_le t1 t2 :
  datetime_ok t1 = true → datetime_ok t2 = true →
  microsecond t1 = 0 → microsecond t2 = 0 →
  1000 <= year t1 → 1000 <= year t2 →
  String.le (strftime t1 COMPRESS_FMT) (strftime t2 COMPRESS_FMT)
  ↔ instant_us t1 <= instant_us t2.
Proof.
  intros H1 H2 U1 U2 Y1 Y2. unfold String.le, String.leb.
  rewrite strftime_COMPRESS_compare, <- instant_us_compare by done.
  destruct (Z.compare_spec (instant_us t1) (instant_us t2));
    cbn; split; try done; lia.
Qed.

(** X12 — For two valid timestamps at whole-second resolution from
    the year 1000 on, the compressed keys are ordered as texts exactly
    as the instants are ordered in time, so the sorted keys of the count
    table are in chronological order; equal keys mean equal instants.
    Below the year 1000 the key has fewer digits and the order of the
    texts is not the order of time: the key of the year 999 sorts after
    the key of the year 2024. *)
Theorem compressed_keys_chronological :
  (∀ t1 t2,
     datetime_ok t1 = true → datetime_ok t2 = true →
     microsecond t1 = 0 → microsecond t2 = 0 →
     1000 <= year t1 → 1000 <= year t2 →
     String.compare (strftime t1 COMPRESS_FMT) (strftime t2 COMPRESS_FMT)
     = (instant_us t1 ?= instant_us t2)
     ∧ (String.le (strftime t1 COMPRESS_FMT) (strftime t2 COMPRESS_FMT)
        ↔ instant_us t1 <= instant_us t2)
     ∧ (strftime t1 COMPRESS_FMT = strftime t2 COMPRESS_FMT
        ↔ instant_us t1 = instant_us t2))
  ∧ String.compare (strftime t_999 COMPRESS_FMT)
                   (strftime t_example COMPRESS_FMT) = Gt
  ∧ (instant_us t_999 ?= instant_us t_example) = Lt.
Proof.
  split; [|split; vm_compute; reflexivity].
  intros t1 t2 H1 H2 U1 U2 Y1 Y2.
  pose proof (strftime_COMPRESS_le t1 t2 H1 H2 U1 U2 Y1 Y2) as H12.
  pose proof (strftime_COMPRESS_le t2 t1 H2 H1 U2 U1 Y2 Y1) as H21.
  split; [by rewrite strftime_COMPRESS_compare, instant_us_compare|].
  split; [exact H12|]. split.
  - intros Heq. rewrite Heq in H12, H21.
    assert (Hrefl : String.le (strftime t2 COMPRESS_FMT)
                              (strftime t2 COMPRESS_FMT)) by reflexivity.
    apply H12 in Hrefl as Ha. apply H21 in Hrefl as Hb. lia.
  - intros Heq. apply (anti_symm String.le); [apply H12 | apply H21]; lia.
Qed.

Lemma compressed_keys_chronological_witness :
  String.compare (strftime t0_example COMPRESS_FMT)
                 (strftime t_example COMPRESS_FMT)
  = (instant_us t0_example ?= instant_us t_example)
  ∧ (String.le (strftime t0_example COMPRESS_FMT)
               (strftime t_example COMPRESS_FMT)
     ↔ instant_us t0_example <= instant_us t_example)
  ∧ (strftime t0_example COMPRESS_FMT = strftime t_example COMPRESS_FMT
     ↔ instant_us t0_example = instant_us t_example).
Proof.
  apply (proj1 compressed_keys_chronological t0_example t_example);
    first [reflexivity | by vm_compute].
Defined.

(** ** An interval of at most one second *)

Lemma io_bind_assoc {A B C} (m : io A) (f : A → io B) (g : B → io C) :
  (m ≫= f) ≫= g = m ≫= (λ a, f a ≫= g).
Proof.
  destruct m as [out [a|e]]; unfold mbind, io_bind; cbn [result printed];
    [|done].
  destruct (f a) as [out' [b|e]]; cbn [result printed]; [|done].
  by rewrite app_assoc.
Qed.

Lemma io_bind_ret {A} (m : io A) : m ≫= mret = m.
Proof.
  destruct m as [out [a|e]]; unfold mbind, io_bind, mret, io_ret;
    cbn [result printed]; [|done].
  by rewrite app_nil_r.
Qed.

Lemma canonical_second_later a b :
  canonical_key a → canonical_key b → String.le a b → a ≠ b →
  second_later a b.
Proof.
  intros (ta & Ha & Ua & Ya & ->) (tb & Hb & Ub & Yb & ->) Hle Hne.
  exists ta, tb. rewrite !canonical_key_parses by done.
  split; [done|]. split; [done|].
  apply strftime_COMPRESS_le in Hle; [|done..].
  assert (instant_us ta ≠ instant_us tb).
  { intros Heq. apply Hne. apply (anti_symm String.le);
      apply strftime_COMPRESS_le; try done; lia. }
  unfold instant_us in *. rewrite Ua, Ub in *. lia.
Qed.

Lemma sorted_second_later (cpsdict : gmap string Z) :
  (∀ key, is_Some (cpsdict !! key) → canonical_key key) →
  StronglySorted second_later (sorted cpsdict).
Proof.
  intros Hcanon.
  assert (Hsorted : StronglySorted String.le (sorted cpsdict))
    by (unfold sorted; apply StronglySorted_merge_sort; apply _).
  assert (Hnodup : NoDup (sorted cpsdict)).
  { rewrite sorted_Permutation. apply NoDup_fst_map_to_list. }
  assert (Hall : Forall canonical_key (sorted cpsdict)).
  { apply Forall_forall. intros key Hkey. by apply Hcanon, elem_of_sorted. }
  induction Hsorted as [|key keys Hs IH Hle]; [constructor|].
  apply NoDup_cons in Hnodup as [Hnotin Hnodup].
  apply Forall_cons in Hall as [Hkey Hall].
  constructor; [by apply IH|].
  rewrite Forall_forall in Hle, Hall |- *. intros k Hk.
  apply canonical_second_later; [done | by apply Hall | by apply Hle |].
  by intros ->.
Qed.

Lemma loop_body_flush cpsdict cv interval_td st key ts stored :
  interval cv <= 1 →
  timedelta_new 0 (interval cv) 0 = Ok interval_td →
  datetime_ok (previous_ts st) = true →
  strptime key COMPRESS_FMT = Ok ts →
  instant_us (previous_ts st) + 1000000 <= instant_us ts →
  cpsdict !! key = Some stored →
  loop_body cpsdict cv interval_td st key
  = (cpslist' ← evaluate_row (cpslist st) (count st) (Some (previous_ts st)) cv;
     mret {| previous_key := key; previous_ts := ts;
             count := stored; cpslist := cpslist' |}).
Proof.
  intros Hi Htd Hprev Hts Hlater Hstored.
  destruct (merge_test _ _ _ _ Htd Hprev (strptime_ok _ _ _ Hts))
    as (delta & half & Hdelta & Hhalf & Hle).
  unfold loop_body.
  rewrite Hts, lift_Ok_bind, Hdelta, lift_Ok_bind, Hhalf, lift_Ok_bind.
  destruct (timedelta_le delta half).
  { pose proof (proj1 Hle eq_refl). unfold elapsed_us in *. lia. }
  unfold dict_getitem. rewrite Hstored.
  destruct (evaluate_row _ _ _ _) as [out [l|e]]; [|done].
  rewrite !IO_Ok_bind. by rewrite lift_Ok_bind.
Qed.

Lemma evaluate_each_cons cpsdict cv cpslist key keys ts stored :
  strptime key COMPRESS_FMT = Ok ts →
  cpsdict !! key = Some stored →
  evaluate_each cpsdict cv cpslist (key :: keys)
  = (cpslist' ← evaluate_row cpslist stored (Some ts) cv;
     evaluate_each cpsdict cv cpslist' keys).
Proof.
  intros Hts Hstored. unfold evaluate_each at 1. cbn [for_each].
  unfold dict_getitem. by rewrite Hts, lift_Ok_bind, Hstored, lift_Ok_bind.
Qed.

Lemma loop_no_merge cpsdict cv interval_td keys st :
  interval cv <= 1 →
  timedelta_new 0 (interval cv) 0 = Ok interval_td →
  strptime (previous_key st) COMPRESS_FMT = Ok (previous_ts st) →
  cpsdict !! previous_key st = Some (count st) →
  StronglySorted second_later (previous_key st :: keys) →
  Forall (λ key, is_Some (cpsdict !! key)) keys →
  (st' ← for_each (loop_body cpsdict cv interval_td) st keys;
   cpslist ← evaluate_row (cpslist st') (count st') (Some (previous_ts st')) cv;
   mret (Some cpslist))
  = (cpslist ← evaluate_each cpsdict cv (cpslist st) (previous_key st :: keys);
     mret (Some cpslist)).
Proof.
  intros Hi Htd. revert st.
  induction keys as [|key keys IH]; intros st Hts Hcount Hsorted Hin.
  - rewrite (evaluate_each_cons _ _ _ _ _ _ _ Hts Hcount).
    cbn [for_each]. change (mret st ≫= ?k) with (lift (Ok st) ≫= k).
    rewrite lift_Ok_bind. unfold evaluate_each. cbn [for_each].
    by rewrite io_bind_ret.
  - apply StronglySorted_inv in Hsorted as [Hsorted Hlater].
    apply Forall_cons in Hlater as [(ta & tb & Ha & Hb & Hab) Hlater].
    apply Forall_cons in Hin as [[stored Hstored] Hin].
    rewrite Hts in Ha. injection Ha as <-.
    rewrite (evaluate_each_cons _ _ _ _ _ _ _ Hts Hcount).
    cbn [for_each].
    rewrite (loop_body_flush _ _ _ _ _ _ _ Hi Htd (strptime_ok _ _ _ Hts)
               Hb Hab Hstored).
    rewrite !io_bind_assoc.
    destruct (evaluate_row _ _ _ _) as [out [l|e]]; [|done].
    rewrite !IO_Ok_bind.
    change (mret ?x ≫= ?k) with (lift (Ok x) ≫= k). rewrite lift_Ok_bind.
    by rewrite (IH {| previous_key := key; previous_ts := tb;
                      count := stored; cpslist := l |} Hb Hstored Hsorted Hin).
Qed.

(** X13 — With an interval of at most 1 (the default is 1) and a table
    whose keys are the compressed renderings of valid whole-second
    timestamps from the year 1000 on (fourteen digits), no two seconds
    are ever merged: [evaluate_cpsdict] evaluates every key, in sorted
    order, as a bucket of its own with the count the table holds for it. *)
Theorem evaluate_cpsdict_no_merge cpsdict cv :
  -86399999913600 <= interval cv <= 1 →
  cpsdict ≠ ∅ →
  (∀ key, is_Some (cpsdict !! key) → canonical_key key) →
  evaluate_cpsdict cpsdict cv
  = (cpslist ← evaluate_each cpsdict cv [] (sorted cpsdict);
     mret (Some cpslist)).
Proof.
  intros Hi Hne Hcanon. unfold evaluate_cpsdict.
  rewrite bool_decide_eq_false_2 by done.
  destruct (timedelta_new_spec 0 (interval cv) 0) as (td & Htd & _); [lia|].
  rewrite Htd, lift_Ok_bind.
  pose proof (sorted_second_later cpsdict Hcanon) as Hsorted.
  pose proof (elem_of_sorted cpsdict) as Hkeys.
  destruct (sorted cpsdict) as [|first_key keys] eqn:Hs.
  { by apply sorted_nonempty in Hs. }
  destruct (proj1 (Hkeys first_key) ltac:(by left)) as [first_count Hc].
  destruct (Hcanon first_key) as (first_ts & Hok & Hus & Hy & Hkey);
    [by eexists|].
  assert (Hts : strptime first_key COMPRESS_FMT = Ok first_ts).
  { rewrite Hkey. by apply canonical_key_parses. }
  rewrite Hts, lift_Ok_bind. unfold dict_getitem at 1.
  rewrite Hc, lift_Ok_bind.
  apply (loop_no_merge cpsdict cv td keys
           {| previous_key := first_key; previous_ts := first_ts;
              count := first_count; cpslist := [] |}); try done.
  - lia.
  - apply Forall_forall. intros key Hk. apply Hkeys. by right.
Qed.

Lemma table_five_canonical key :
  is_Some (table_five !! key) → canonical_key key.
Proof.
  intros [v Hv].
  destruct (decide (key = "20240101000000")) as [->|Hne1];
    [exists t0_example; by vm_compute|].
  destruct (decide (key = "20240101000001")) as [->|Hne2];
    [exists t_example; by vm_compute|].
  unfold table_five in Hv.
  rewrite lookup_insert_ne, lookup_singleton_ne in Hv by done.
  discriminate.
Defined.

Lemma table_five_nonempty : table_five ≠ ∅.
Proof.
  intros H. apply (f_equal (λ m : gmap string Z, m !! "20240101000000")) in H.
  vm_compute in H. discriminate.
Defined.

Lemma evaluate_cpsdict_no_merge_witness :
  evaluate_cpsdict table_five cv_loud
  = (cpslist ← evaluate_each table_five cv_loud [] (sorted table_five);
     mret (Some cpslist)).
Proof.
  apply (evaluate_cpsdict_no_merge table_five cv_loud).
  - cbn. lia.
  - exact table_five_nonempty.
  - exact table_five_canonical.
Defined.

(** ** Seconds that all fall into the first bucket *)

Lemma loop_body_merge cpsdict cv interval_td st key ts :
  timedelta_new 0 (interval cv) 0 = Ok interval_td →
  datetime_ok (previous_ts st) = true →
  strptime key COMPRESS_FMT = Ok ts →
  2 * elapsed_us (previous_ts st) ts <= interval cv * 1000000 →
  loop_body cpsdict cv interval_td st key
  = IO [] (Ok {| previous_key := previous_key st;
                 previous_ts := previous_ts st;
                 count := count st + 1; cpslist := cpslist st |}).
Proof.
  intros Htd Hprev Hts Hnear.
  destruct (merge_test _ _ _ _ Htd Hprev (strptime_ok _ _ _ Hts))
    as (delta & half & Hdelta & Hhalf & Hle).
  unfold loop_body.
  rewrite Hts, lift_Ok_bind, Hdelta, lift_Ok_bind, Hhalf, lift_Ok_bind.
  by rewrite (proj2 Hle Hnear).
Qed.

Lemma for_each_merge_all cpsdict cv interval_td keys st :
  timedelta_new 0 (interval cv) 0 = Ok interval_td →
  datetime_ok (previous_ts st) = true →
  Forall (λ key, ∃ ts, strptime key COMPRESS_FMT = Ok ts
                       ∧ 2 * elapsed_us (previous_ts st) ts
                         <= interval cv * 1000000) keys →
  for_each (loop_body cpsdict cv interval_td) st keys
  = IO [] (Ok {| previous_key := previous_key st;
                 previous_ts := previous_ts st;
                 count := count st + Z.of_nat (length keys);
                 cpslist := cpslist st |}).
Proof.
  intros Htd. revert st. induction keys as [|key keys IH]; intros st Hprev Hall;
    cbn [for_each length].
  - replace (count st + Z.of_nat 0) with (count st) by lia. by destruct st.
  - apply Forall_cons in Hall as [(ts & Hts & Hnear) Hall].
    rewrite (loop_body_merge _ _ _ _ _ _ Htd Hprev Hts Hnear), IO_Ok_bind.
    cbn [app]. rewrite io_eta, IH by done. cbn [previous_key previous_ts count
      cpslist].
    by replace (count st + 1 + Z.of_nat (length keys))
      with (count st + Z.of_nat (S (length keys))) by lia.
Qed.

(** X14 — When every further key is within half the interval of the
    first key in sorted order, [evaluate_cpsdict] evaluates one bucket
    only, anchored at the first key, whose count is the count stored
    for the first key plus the number of further keys: the counts
    stored for the further keys are not used. *)
Theorem evaluate_cpsdict_one_bucket cpsdict cv interval_td first_key keys
    first_ts first_count :
  timedelta_new 0 (interval cv) 0 = Ok interval_td →
  sorted cpsdict = first_key :: keys →
  strptime first_key COMPRESS_FMT = Ok first_ts →
  cpsdict !! first_key = Some first_count →
  Forall (λ key, ∃ ts, strptime key COMPRESS_FMT = Ok ts
                       ∧ 2 * elapsed_us first_ts ts
                         <= interval cv * 1000000) keys →
  evaluate_cpsdict cpsdict cv
  = (cpslist ← evaluate_row [] (first_count + Z.of_nat (length keys))
                 (Some first_ts) cv;
     mret (Some cpslist)).
Proof.
  intros Htd Hs Hts Hc Hall. unfold evaluate_cpsdict.
  rewrite bool_decide_eq_false_2.
  2: { intros ->. by vm_compute in Hs. }
  rewrite Htd, lift_Ok_bind, Hs, Hts, lift_Ok_bind.
  unfold dict_getitem. rewrite Hc, lift_Ok_bind.
  rewrite (for_each_merge_all cpsdict cv interval_td keys
             {| previous_key := first_key; previous_ts := first_ts;
                count := first_count; cpslist := [] |} Htd
             (strptime_ok _ _ _ Hts) Hall).
  rewrite IO_Ok_bind. cbn [app]. apply io_eta.
Qed.

Lemma evaluate_cpsdict_one_bucket_witness :
  evaluate_cpsdict table_five (cv_example 3 0)
  = (cpslist ← evaluate_row [] (1 + Z.of_nat (length ["20240101000001"]))
                 (Some t0_example) (cv_example 3 0);
     mret (Some cpslist)).
Proof.
  apply (evaluate_cpsdict_one_bucket table_five (cv_example 3 0)
           {| days := 0; seconds := 3; microseconds := 0 |}
           "20240101000000" ["20240101000001"] t0_example 1).
  - reflexivity.
  - vm_compute; reflexivity.
  - vm_compute; reflexivity.
  - reflexivity.
  - repeat constructor. exists t_example. split; [vm_compute; reflexivity|].
    by vm_compute.
Defined.

(** ** Start times in the input format *)

Lemma digit_char_not_space n : is_space (digit_char n) = false.
Proof.
  destruct (digit_char_spec n) as [_ Hcode]. unfold is_space.
  pose proof (Z.mod_pos_bound n 10).
  destruct (Z.eqb_spec (code (digit_char n)) 133); [lia|].
  destruct (Z.eqb_spec (code (digit_char n)) 160); [lia|].
  destruct (Z.leb_spec (code (digit_char n)) 13); [lia|].
  destruct (Z.leb_spec (code (digit_char n)) 32); [lia|].
  by rewrite !andb_false_r.
Qed.

Lemma strftime_FMT_chars t :
  1000 <= year t <= 9999 →
  list_ascii_of_string (strftime t FMT)
  = (zero_pad4 (year t) ++ "/"%char :: zero_pad2 (month t)
     ++ "/"%char :: zero_pad2 (day t) ++ " "%char :: zero_pad2 (hour t)
     ++ ":"%char :: zero_pad2 (minute t) ++ ":"%char :: zero_pad2 (second t)
     ++ [])%list.
Proof.
  intros Hy. unfold strftime. rewrite list_ascii_of_string_of_list_ascii.
  rewrite <- (decimal_four_digits _ Hy). reflexivity.
Qed.

Lemma match_items_dir_hd d items found s v rest r :
  hd_error (match_directive d s) = Some (v, rest) →
  hd_error (match_items items ((d, v) :: found) rest) = Some r →
  hd_error (match_items (FDir d :: items) found s) = Some r.
Proof.
  intros Hd Hr. cbn [match_items]. eapply hd_error_bind; [exact Hd|exact Hr].
Qed.

Lemma match_items_lit_hd c items found rest r :
  hd_error (match_items items found rest) = Some r →
  hd_error (match_items (FLit c :: items) found (c :: rest)) = Some r.
Proof. intros Hr. cbn [match_items]. by rewrite Ascii.eqb_refl. Qed.

Lemma match_items_space_hd items found n rest r :
  hd_error (match_items items found (digit_char n :: rest)) = Some r →
  hd_error (match_items (FSpace :: items) found
              (" "%char :: digit_char n :: rest)) = Some r.
Proof.
  intros Hr. cbn [match_items match_spaces].
  change (is_space " ") with true. cbv iota.
  rewrite digit_char_not_space. cbn [app mbind list_bind].
  by rewrite app_nil_r.
Qed.

Lemma FMT_parses t :
  datetime_ok t = true → microsecond t = 0 → 1000 <= year t →
  strptime (strftime t FMT) FMT = Ok t.
Proof.
  intros Hok Hus Hy. pose proof (datetime_ok_bounds t Hok) as Hb.
  pose proof (days_in_month_le (year t) (month t)) as Hdim.
  unfold strptime. rewrite strftime_FMT_chars by lia.
  change (parse_format (list_ascii_of_string FMT))
    with (Some [FDir DY; FLit "/"; FDir Dm; FLit "/"; FDir Dd; FSpace;
                FDir DH; FLit ":"; FDir DM; FLit ":"; FDir DS]).
  cbv beta iota.
  assert (Hhd : hd_error
    (match_items [FDir DY; FLit "/"; FDir Dm; FLit "/"; FDir Dd; FSpace;
                  FDir DH; FLit ":"; FDir DM; FLit ":"; FDir DS] []
       (zero_pad4 (year t) ++ "/"%char :: zero_pad2 (month t)
        ++ "/"%char :: zero_pad2 (day t) ++ " "%char :: zero_pad2 (hour t)
        ++ ":"%char :: zero_pad2 (minute t) ++ ":"%char
        :: zero_pad2 (second t) ++ [])%list)
    = Some ([(DS, second t); (DM, minute t); (DH, hour t); (Dd, day t);
             (Dm, month t); (DY, year t)], [])).
  { eapply match_items_dir_hd; [apply match_directive_year; lia|].
    apply match_items_lit_hd.
    eapply match_items_dir_hd; [apply match_directive_month; lia|].
    apply match_items_lit_hd.
    eapply match_items_dir_hd; [apply match_directive_day; lia|].
    apply (match_items_space_hd _ _ (hour t / 10)).
    eapply match_items_dir_hd;
      [apply (match_directive_hour (hour t)); lia|].
    apply match_items_lit_hd.
    eapply match_items_dir_hd; [apply match_directive_minute; lia|].
    apply match_items_lit_hd.
    eapply match_items_dir_hd; [apply match_directive_second; lia|].
    reflexivity. }
  destruct (match_items _ _ _) as [|[found rest] others]; [discriminate|].
  injection Hhd as -> ->.
  unfold datetime_new. cbn [found_or find directive_eqb fst].
  clear Hb Hdim Hy. destruct t as [y m d H M S us]. cbn in Hus. subst us.
  cbn [year month day hour minute second]. by rewrite Hok.
Qed.

(** X15 — A row that survives the filter and whose start time is a valid
    date and time of the year 1000 or later, written with four digits
    for the year and two for each other field as YYYY/MM/DD HH:MM:SS,
    is counted under the key the program renders for that instant, the
    fourteen digits YYYYMMDDHHMMSS: the count of that key goes up by one
    (from 0 when the key is new) and no other key changes. *)
Theorem count_row_start_time cv (cpsdict : gmap string Z) (r : row) t :
  datetime_ok t = true → microsecond t = 0 → 1000 <= year t →
  skip_row r (interface cv) (protocol cv) (zone cv) = Ok false →
  r !! START_TIME = Some (Some (strftime t FMT)) →
  ∃ cpsdict',
    count_row cv cpsdict r = Ok cpsdict'
    ∧ cpsdict' !! strftime t COMPRESS_FMT
      = Some (default 0 (cpsdict !! strftime t COMPRESS_FMT) + 1)
    ∧ ∀ key, key ≠ strftime t COMPRESS_FMT → cpsdict' !! key = cpsdict !! key.
Proof.
  intros Hok Hus Hy Hskip Hstart. unfold count_row, getitem.
  rewrite Hskip. cbn [mbind res_bind]. rewrite Hstart. cbn [mbind res_bind].
  rewrite (FMT_parses t Hok Hus Hy). cbn [mbind res_bind].
  unfold get_truthy, dict_getitem.
  destruct (cpsdict !! strftime t COMPRESS_FMT) as [v|] eqn:Hv.
  - destruct (Z.eqb_spec v 0) as [->|Hne]; cbn [negb mbind res_bind];
      eexists; (split; [reflexivity|]);
      (split; [by rewrite lookup_insert_eq
              | by intros key Hkey; rewrite lookup_insert_ne]).
  - eexists; split; [reflexivity|].
    split; [by rewrite lookup_insert_eq
           | by intros key Hkey; rewrite lookup_insert_ne].
Qed.

Lemma count_row_start_time_witness :
  ∃ cpsdict',
    count_row (cv_example 1 1) table_example
              (row_example "2024/01/01 00:00:01") = Ok cpsdict'
    ∧ cpsdict' !! strftime t_example COMPRESS_FMT
      = Some (default 0 (table_example !! strftime t_example COMPRESS_FMT) + 1)
    ∧ ∀ key, key ≠ strftime t_example COMPRESS_FMT →
             cpsdict' !! key = table_example !! key.
Proof.
  apply (count_row_start_time (cv_example 1 1) table_example
           (row_example "2024/01/01 00:00:01") t_example);
    first [reflexivity | by vm_compute].
Defined.

(** ** A negative interval *)

Lemma binary_round_aux_sign sx mx ex lx :
  match binary_round_aux 53 1024 sx mx ex lx with
  | S754_zero s | S754_infinity s | S754_finite s _ _ => s = sx
  | S754_nan => True
  end.
Proof.
  unfold binary_round_aux.
  destruct (shr_fexp 53 1024 mx ex lx) as [mrs' e'].
  destruct (shr_fexp 53 1024 _ e' loc_Exact) as [mrs'' e''].
  destruct (shr_m mrs''); [done| |done]. by destruct (_ <=? _).
Qed.

Lemma int_truediv_negative a b q :
  0 <= a → b < 0 → int_truediv a b = Ok q → (float_to_R q <= 0)%R.
Proof.
  intros Ha Hb. unfold int_truediv.
  destruct (Z.eqb_spec b 0); [lia|].
  destruct a as [|a|a]; [intros [= <-]; cbn; lra| |lia].
  destruct (Z.ltb_spec b 0); [|lia]. cbn [Z.ltb Z.compare SFdiv].
  destruct (SFdiv_core_binary _ _ _ _ _ _) as [[mz ez] lz].
  pose proof (binary_round_aux_sign (xorb false true) mz ez lz) as Hsign.
  destruct (binary_round_aux _ _ _ _ _ _) as [s|s| |s m e];
    intros [= <-]; cbn in Hsign; subst; cbn [float_to_R]; try lra.
  destruct (Z.leb_spec 0 e).
  - rewrite <- mult_IZR. apply IZR_le.
    assert (0 <= 2 ^ e) by (apply Z.pow_nonneg; lia). nia.
  - assert (0 < IZR (2 ^ (- e)))%R.
    { apply IZR_lt. apply Z.pow_pos_nonneg; lia. }
    assert (IZR (Z.neg m) < 0)%R by (apply IZR_lt; lia).
    apply Rlt_le. apply Rmult_neg_pos; [done|]. by apply Rinv_0_lt_compat.
Qed.

Lemma int_truediv_raises a b e :
  b ≠ 0 → int_truediv a b = Raise e → e = OverflowError.
Proof.
  intros Hb. unfold int_truediv. destruct (Z.eqb_spec b 0); [done|].
  destruct a; [discriminate|..];
    destruct (SFdiv _ _ _ _); (discriminate || by intros [= <-]).
Qed.

(** X16 — With a negative interval and a lower bound that is not
    negative, [evaluate_row] retains no bucket of a non-negative count:
    the quotient is not above zero, so the samples are returned as they
    were (or the quotient does not fit a float and [OverflowError] is
    raised). *)
Theorem evaluate_row_negative_interval cpslist count ts cv :
  interval cv < 0 → 0 <= count → 0 <= lowcps cv →
  (∃ out, evaluate_row cpslist count (Some ts) cv = IO out (Ok cpslist))
  ∨ evaluate_row cpslist count (Some ts) cv = IO [] (Raise OverflowError).
Proof.
  intros Hi Hc Hlow.
  destruct (int_truediv count (interval cv)) as [cps|e] eqn:Hcps.
  - left.
    destruct (evaluate_row_result cpslist count ts cv cps Hcps) as [out Hres].
    exists out. rewrite Hres.
    pose proof (int_truediv_negative _ _ _ Hc Hi Hcps) as Hneg.
    destruct (float_compare_int_spec cps (lowcps cv)
                (int_truediv_finite _ _ _ Hcps)) as [Hgt _].
    destruct (float_gt_int cps (lowcps cv)).
    + pose proof (proj1 Hgt eq_refl). apply IZR_le in Hlow. lra.
    + by rewrite andb_false_r.
  - right. assert (Hne : interval cv ≠ 0) by lia.
    pose proof (int_truediv_raises _ _ _ Hne Hcps) as ->.
    unfold evaluate_row. by rewrite Hcps.
Qed.

Lemma evaluate_row_negative_interval_witness :
  (∃ out, evaluate_row [one] 5 (Some t_example) (cv_example (-2) 0)
          = IO out (Ok [one]))
  ∨ evaluate_row [one] 5 (Some t_example) (cv_example (-2) 0)
    = IO [] (Raise OverflowError).
Proof.
  apply (evaluate_row_negative_interval [one] 5 t_example (cv_example (-2) 0));
    cbn; lia.
Defined.

(** ** The number of samples *)

Lemma evaluate_row_length cpslist count ts cv out cpslist' :
  evaluate_row cpslist count ts cv = IO out (Ok cpslist') →
  (length cpslist' <= length cpslist + 1)%nat.
Proof.
  destruct ts as [ts|]; [|intros [= _ <-]; lia].
  destruct (int_truediv count (interval cv)) as [cps|e] eqn:Hcps.
  - destruct (evaluate_row_result cpslist count ts cv cps Hcps) as [out' ->].
    intros [= _ <-]. destruct (_ && _); [rewrite length_app; cbn|]; lia.
  - unfold evaluate_row. rewrite Hcps. discriminate.
Qed.

Lemma for_each_length cpsdict cv interval_td keys st out st' :
  for_each (loop_body cpsdict cv interval_td) st keys = IO out (Ok st') →
  (length (cpslist st') <= length (cpslist st) + length keys)%nat.
Proof.
  revert st out. induction keys as [|key keys IH]; intros st out;
    cbn [for_each length].
  - intros [= _ <-]. lia.
  - intros H. apply io_bind_Ok_inv in H as (? & st1 & ? & Hbody & H & _).
    apply IH in H.
    assert (length (cpslist st1) <= length (cpslist st) + 1)%nat; [|lia].
    revert Hbody. unfold loop_body. intros Hbody.
    apply io_bind_Ok_inv in Hbody as (? & ts & ? & _ & Hbody & _).
    apply io_bind_Ok_inv in Hbody as (? & delta & ? & _ & Hbody & _).
    apply io_bind_Ok_inv in Hbody as (? & half & ? & _ & Hbody & _).
    destruct (timedelta_le delta half).
    + injection Hbody as _ <-. cbn. lia.
    + apply io_bind_Ok_inv in Hbody as (? & l & ? & Hrow & Hbody & _).
      apply io_bind_Ok_inv in Hbody as (? & c & ? & _ & Hbody & _).
      injection Hbody as _ <-. cbn [cpslist].
      by apply evaluate_row_length in Hrow.
Qed.

(** X17 — [evaluate_cpsdict] never returns more samples than the table
    has keys. *)
Theorem evaluate_cpsdict_length (cpsdict : gmap string Z) cv out samples :
  evaluate_cpsdict cpsdict cv = IO out (Ok (Some samples)) →
  (length samples <= size cpsdict)%nat.
Proof.
  unfold evaluate_cpsdict. case_bool_decide as Hempty; [discriminate|].
  intros H.
  assert (Hsize : length (sorted cpsdict) = size cpsdict).
  { rewrite sorted_Permutation, length_fmap. apply length_map_to_list. }
  apply io_bind_Ok_inv in H as (? & interval_td & ? & _ & H & _).
  destruct (sorted cpsdict) as [|first_key keys]; [discriminate|].
  apply io_bind_Ok_inv in H as (? & first_ts & ? & _ & H & _).
  apply io_bind_Ok_inv in H as (? & first_count & ? & _ & H & _).
  apply io_bind_Ok_inv in H as (? & st & ? & Hloop & H & _).
  apply io_bind_Ok_inv in H as (? & cpslist' & ? & Hrow & H & _).
  injection H as _ <-.
  apply for_each_length in Hloop. apply evaluate_row_length in Hrow.
  cbn [cpslist length] in *. lia.
Qed.

Lemma evaluate_cpsdict_length_witness :
  (length [two_thirds] <= size counts_example)%nat.
Proof.
  apply (evaluate_cpsdict_length counts_example (cv_example 3 0) []).
  vm_compute; reflexivity.
Defined.

(** ** The buckets of the aggregator *)

Lemma io_ret_bind {A B} (a : A) (k : A → io B) : mret a ≫= k = k a.
Proof. apply lift_Ok_bind. Qed.

(** One turn of the loop, by the test on the elapsed time. *)
Lemma loop_body_step cpsdict cv interval_td st key ts stored :
  timedelta_new 0 (interval cv) 0 = Ok interval_td →
  datetime_ok (previous_ts st) = true →
  strptime key COMPRESS_FMT = Ok ts →
  cpsdict !! key = Some stored →
  loop_body cpsdict cv interval_td st key
  = if bool_decide (2 * elapsed_us (previous_ts st) ts
                    <= interval cv * 1000000)
    then mret {| previous_key := previous_key st;
                 previous_ts := previous_ts st;
                 count := count st + 1; cpslist := cpslist st |}
    else cpslist' ← evaluate_row (cpslist st) (count st)
                      (Some (previous_ts st)) cv;
         mret {| previous_key := key; previous_ts := ts;
                 count := stored; cpslist := cpslist' |}.
Proof.
  intros Htd Hprev Hts Hstored.
  destruct (merge_test _ _ _ _ Htd Hprev (strptime_ok _ _ _ Hts))
    as (delta & half & Hdelta & Hhalf & Hle).
  unfold loop_body.
  rewrite Hts, lift_Ok_bind, Hdelta, lift_Ok_bind, Hhalf, lift_Ok_bind.
  case_bool_decide as Hmerge.
  - apply Hle in Hmerge. by rewrite Hmerge.
  - destruct (timedelta_le delta half); [by destruct Hmerge; apply Hle|].
    unfold dict_getitem. rewrite Hstored.
    destruct (evaluate_row _ _ _ _) as [out [l|e]]; [|done].
    rewrite !IO_Ok_bind. by rewrite lift_Ok_bind.
Qed.

Lemma for_each_buckets cpsdict cv interval_td keys entries :
  timedelta_new 0 (interval cv) 0 = Ok interval_td →
  entries_of cpsdict keys entries →
  ∀ st, datetime_ok (previous_ts st) = true →
  (st' ← for_each (loop_body cpsdict cv interval_td) st keys;
   cpslist ← evaluate_row (cpslist st') (count st') (Some (previous_ts st')) cv;
   mret (Some cpslist))
  = (samples ← evaluate_buckets cv (cpslist st)
                 (spec_buckets (interval cv) (previous_ts st) (count st) entries);
     mret (Some samples)).
Proof.
  intros Htd Hentries.
  induction Hentries as [|key [t stored] keys entries [Hts Hstored] _ IH];
    intros st Hprev.
  - cbn [for_each spec_buckets]. rewrite io_ret_bind.
    unfold evaluate_buckets. cbn [for_each fst snd].
    by rewrite io_bind_ret.
  - cbn [fst snd] in Hts, Hstored. cbn [for_each spec_buckets].
    rewrite (loop_body_step _ _ _ _ _ _ _ Htd Hprev Hts Hstored).
    case_bool_decide as Hmerge.
    + rewrite io_ret_bind.
      by rewrite (IH {| previous_key := previous_key st;
                        previous_ts := previous_ts st;
                        count := count st + 1; cpslist := cpslist st |}
                    Hprev).
    + unfold evaluate_buckets at 1. cbn [for_each fst snd].
      fold (evaluate_buckets cv).
      rewrite !io_bind_assoc.
      destruct (evaluate_row _ _ _ _) as [out [l|e]]; [|done].
      rewrite !IO_Ok_bind. rewrite io_ret_bind.
      by rewrite (IH {| previous_key := key; previous_ts := t;
                        count := stored; cpslist := l |}
                    (strptime_ok _ _ _ Hts)).
Qed.

(** C1 — For every count table that is not empty and whose keys, in
    sorted order, stand for the seconds [first :: rest] (the time each
    key parses to, with its stored count), and every interval a
    [timedelta] can hold, [evaluate_cpsdict] evaluates exactly the
    buckets of the specification, in order: the first key opens a bucket
    with its stored count; a further key at time [t] joins the current
    bucket iff [t - anchorTime <= interval / 2] in exact time
    arithmetic, which adds 1 to the running count whatever count is
    stored for the key; otherwise the bucket is flushed through
    [evaluate_row] and a new one starts with [anchorTime = t] and the
    stored count of the key; the last bucket is flushed at the end. *)
Theorem evaluate_cpsdict_buckets cpsdict cv first rest :
  -86399999913600 <= interval cv < 86400000000000 →
  entries_of cpsdict (sorted cpsdict) (first :: rest) →
  evaluate_cpsdict cpsdict cv
  = (samples ← evaluate_buckets cv []
                 (spec_buckets (interval cv) first.1 first.2 rest);
     mret (Some samples)).
Proof.
  intros Hi Hentries. unfold evaluate_cpsdict.
  assert (Hne : cpsdict ≠ ∅).
  { intros ->. by inversion Hentries. }
  rewrite bool_decide_eq_false_2 by done.
  destruct (timedelta_new_spec 0 (interval cv) 0) as (td & Htd & _); [lia|].
  rewrite Htd, lift_Ok_bind.
  destruct (sorted cpsdict) as [|first_key keys]; [by inversion Hentries|].
  apply Forall2_cons in Hentries as [[Hts Hc] Hentries].
  rewrite Hts, lift_Ok_bind. unfold dict_getitem at 1.
  rewrite Hc, lift_Ok_bind.
  apply (for_each_buckets cpsdict cv td keys rest Htd Hentries
           {| previous_key := first_key; previous_ts := first.1;
              count := first.2; cpslist := [] |}).
  by apply (strptime_ok _ _ _ Hts).
Qed.

(** The property at the table of two seconds, one second apart, that
    holds 1 for the first and 5 for the second: with an interval of 1
    they are two buckets, of 1 and 5; with an interval of 3 they are one
    bucket of 1 + 1. *)
Lemma evaluate_cpsdict_buckets_witness :
  evaluate_cpsdict table_five (cv_example 1 0)
  = (samples ← evaluate_buckets (cv_example 1 0) []
                 [(t0_example, 1); (t_example, 5)];
     mret (Some samples))
  ∧ evaluate_cpsdict table_five (cv_example 3 0)
    = (samples ← evaluate_buckets (cv_example 3 0) [] [(t0_example, 1 + 1)];
       mret (Some samples)).
Proof.
  assert (Hentries : entries_of table_five (sorted table_five)
                       [(t0_example, 1); (t_example, 5)]).
  { assert (sorted table_five = ["20240101000000"; "20240101000001"]) as ->
      by (vm_compute; reflexivity).
    repeat constructor. }
  split.
  - apply (evaluate_cpsdict_buckets table_five (cv_example 1 0)
             (t0_example, 1) [(t_example, 5)]); [cbn; lia | exact Hentries].
  - apply (evaluate_cpsdict_buckets table_five (cv_example 3 0)
             (t0_example, 1) [(t_example, 5)]); [cbn; lia | exact Hentries].
Defined.

(** ** The round trip of a key *)

Lemma length_list_ascii (s : string) :
  length (list_ascii_of_string s) = String.length s.
Proof. induction s as [|c s IH]; [done|]. cbn. by rewrite IH. Qed.

(** X18 — From the year 1000 on, a valid timestamp at whole-second
    resolution that is rendered in the compressed format and parsed
    back from it is the same timestamp, and the key has fourteen
    characters. *)
Theorem roundtrip_from_year_1000 (t : datetime) :
  datetime_ok t = true →
  microsecond t = 0 →
  1000 <= year t →
  strptime (strftime t COMPRESS_FMT) COMPRESS_FMT = Ok t
  ∧ String.length (strftime t COMPRESS_FMT) = 14%nat.
Proof.
  intros Hok Hus Hy. split; [by apply strptime_strftime_COMPRESS|].
  pose proof (datetime_ok_bounds t Hok) as Hb.
  rewrite <- length_list_ascii.
  rewrite strftime_COMPRESS_chars by lia. reflexivity.
Qed.

Lemma roundtrip_from_year_1000_witness :
  strptime (strftime t_example COMPRESS_FMT) COMPRESS_FMT = Ok t_example
  ∧ String.length (strftime t_example COMPRESS_FMT) = 14%nat.
Proof.
  apply (roundtrip_from_year_1000 t_example);
    first [reflexivity | by vm_compute].
Defined.
